(** * Crystal-Dilithium-Check: a shallow embedding of the hybrid signature demo

    The repository ships two kinds of code:
    - the runnable TypeScript of [src/lib/ethereum-utils.ts], a simulation
      that draws hexadecimal strings from [Math.random] and sleeps;
    - the TypeScript listings of [src/TECHNICAL_SPECIFICATION.md]
      ([assessSecurityRequirement], [dilithiumKeyGen], [dilithiumSign],
      [dilithiumVerify], [compressPolynomial], [decompressPolynomial] and
      the shorter ones).

    Both are embedded below, function by function, and the properties the
    natural-language specification states about them are settled. *)

From Stdlib Require Import ZArith QArith Qround Lia Bool List String Ascii.
From stdpp Require Import base list strings pretty gmap.

Local Open Scope Z_scope.

(** ** 1. Threat assessment ([assessSecurityRequirement])

    JavaScript numbers are modelled as rationals: the function only compares
    them with integer thresholds and takes [Math.floor] of a third. *)

Module ThreatAssessor.

Inductive UserRiskProfile := low | medium | high_risk.
Inductive NetworkConditions := normal | hostile.
Inductive QuantumThreatLevel := none | suspected | confirmed.

Record ThreatContext := {
  transactionValue : Q;
  userRiskProfile : UserRiskProfile;
  networkConditions : NetworkConditions;
  quantumThreatLevel : QuantumThreatLevel;
  geopoliticalRisk : Q
}.

(** 'minimal' | 'standard' | 'high' | 'quantum-safe' | 'military' *)
Inductive SecurityLevel := minimal | standard | high | quantumSafe | military.

(** [a > b] on numbers. *)
Definition gt_num (a b : Q) : bool := negb (Qle_bool a b).

(** [Math.floor(x / 3)]. *)
Definition floor_third (x : Q) : Z := Qfloor (x / 3).

(** The listing, statement by statement; the mutable [riskScore] is
    rebound after every statement and the [return] inside the second
    [switch] leaves the function before the remaining statements. *)
Definition assessSecurityRequirement (context : ThreatContext) : SecurityLevel :=
  let riskScore := 0 in
  (* Transaction value risk *)
  let riskScore :=
    if gt_num (transactionValue context) 1000000 then riskScore + 3
    else if gt_num (transactionValue context) 100000 then riskScore + 2
    else if gt_num (transactionValue context) 10000 then riskScore + 1
    else riskScore in
  (* User profile risk *)
  let riskScore :=
    match userRiskProfile context with
    | high_risk => riskScore + 3
    | medium => riskScore + 1
    | low => riskScore + 0
    end in
  (* Network conditions *)
  let riskScore :=
    match networkConditions context with
    | hostile => riskScore + 2
    | normal => riskScore
    end in
  (* Quantum threat assessment *)
  match quantumThreatLevel context with
  | confirmed => military
  | q =>
    let riskScore :=
      match q with
      | suspected => riskScore + 4
      | _ => riskScore + 0
      end in
    (* Geopolitical risk *)
    let riskScore := riskScore + floor_third (geopoliticalRisk context) in
    (* Map risk score to security level *)
    if riskScore >=? 8 then military
    else if riskScore >=? 6 then quantumSafe
    else if riskScore >=? 4 then high
    else if riskScore >=? 2 then standard
    else minimal
  end.

(** *** The scoring rule as the specification words it *)

Definition value_points (v : Q) : Z :=
  if gt_num v 1000000 then 3
  else if gt_num v 100000 then 2
  else if gt_num v 10000 then 1
  else 0.

Definition profile_points (p : UserRiskProfile) : Z :=
  match p with low => 0 | medium => 1 | high_risk => 3 end.

Definition network_points (n : NetworkConditions) : Z :=
  match n with normal => 0 | hostile => 2 end.

Definition quantum_points (t : QuantumThreatLevel) : Z :=
  match t with suspected => 4 | _ => 0 end.

Definition risk_score (c : ThreatContext) : Z :=
  value_points (transactionValue c) + profile_points (userRiskProfile c)
  + network_points (networkConditions c)
  + quantum_points (quantumThreatLevel c)
  + floor_third (geopoliticalRisk c).

Definition level_of_score (s : Z) : SecurityLevel :=
  if 8 <=? s then military
  else if 6 <=? s then quantumSafe
  else if 4 <=? s then high
  else if 2 <=? s then standard
  else minimal.

Definition assess_spec (c : ThreatContext) : SecurityLevel :=
  match quantumThreatLevel c with
  | confirmed => military
  | _ => level_of_score (risk_score c)
  end.

(** *** Orders on the inputs and on the result *)

Definition level_rank (l : SecurityLevel) : Z :=
  match l with
  | minimal => 0 | standard => 1 | high => 2 | quantumSafe => 3 | military => 4
  end.

Definition level_le (a b : SecurityLevel) : Prop := level_rank a <= level_rank b.

Definition profile_rank (p : UserRiskProfile) : Z :=
  match p with low => 0 | medium => 1 | high_risk => 2 end.

Definition network_rank (n : NetworkConditions) : Z :=
  match n with normal => 0 | hostile => 1 end.

Definition quantum_rank (t : QuantumThreatLevel) : Z :=
  match t with none => 0 | suspected => 1 | confirmed => 2 end.

(** Record updates, one per field. *)
Definition with_value (c : ThreatContext) (v : Q) : ThreatContext :=
  {| transactionValue := v; userRiskProfile := userRiskProfile c;
     networkConditions := networkConditions c;
     quantumThreatLevel := quantumThreatLevel c;
     geopoliticalRisk := geopoliticalRisk c |}.

Definition with_profile (c : ThreatContext) (p : UserRiskProfile) : ThreatContext :=
  {| transactionValue := transactionValue c; userRiskProfile := p;
     networkConditions := networkConditions c;
     quantumThreatLevel := quantumThreatLevel c;
     geopoliticalRisk := geopoliticalRisk c |}.

Definition with_network (c : ThreatContext) (n : NetworkConditions) : ThreatContext :=
  {| transactionValue := transactionValue c; userRiskProfile := userRiskProfile c;
     networkConditions := n;
     quantumThreatLevel := quantumThreatLevel c;
     geopoliticalRisk := geopoliticalRisk c |}.

Definition with_quantum (c : ThreatContext) (t : QuantumThreatLevel) : ThreatContext :=
  {| transactionValue := transactionValue c; userRiskProfile := userRiskProfile c;
     networkConditions := networkConditions c;
     quantumThreatLevel := t;
     geopoliticalRisk := geopoliticalRisk c |}.

Definition with_geo (c : ThreatContext) (g : Q) : ThreatContext :=
  {| transactionValue := transactionValue c; userRiskProfile := userRiskProfile c;
     networkConditions := networkConditions c;
     quantumThreatLevel := quantumThreatLevel c;
     geopoliticalRisk := g |}.

End ThreatAssessor.

(** ** 2. The runnable simulation ([src/lib/ethereum-utils.ts])

    Every function of the simulation reads [Math.random] and sleeps through
    [setTimeout]; none takes a seed.  The ambient state is made explicit:
    the sequence of values [Math.random] is going to return, how many of
    them were consumed, and the time slept so far. *)

Module Sim.

(** [draws n] is the numerator, over [2^53], of the [n]-th value of
    [Math.random] (a double in [0, 1)). *)
Record World := {
  draws : nat -> Z;
  cursor : nat;
  elapsed : Q
}.

(** A computation either returns or throws. *)
Inductive Outcome (A : Type) :=
| Returned (a : A)
| Thrown (e : string).
Arguments Returned {A} a.
Arguments Thrown {A} e.

Definition M (A : Type) : Type := World -> Outcome A * World.

Definition ret {A} (a : A) : M A := fun w => (Returned a, w).

Definition bind {A B} (m : M A) (k : A -> M B) : M B :=
  fun w =>
    match m w with
    | (Returned a, w') => k a w'
    | (Thrown e, w') => (Thrown e, w')
    end.

Declare Scope sim_scope.
Delimit Scope sim_scope with sim.
Notation "x <~ m ;; k" := (bind m (fun x => k))
  (at level 100, m at next level, right associativity) : sim_scope.
Notation "'exec' m ;; k" := (bind m (fun _ => k))
  (at level 100, m at next level, right associativity) : sim_scope.
Local Open Scope sim_scope.

Definition two53 : Z := 2 ^ 53.

(** [Math.random()]: the numerator of the next draw. *)
Definition Math_random : M Z :=
  fun w =>
    (Returned (draws w (cursor w) mod two53),
     {| draws := draws w; cursor := S (cursor w); elapsed := elapsed w |}).

(** The double [k / 2^53] as a rational. *)
Definition unit_interval (k : Z) : Q := Qmake k (Z.to_pos two53).

(** [base + Math.random() * span], a delay in milliseconds. *)
Definition jitter (base span : Z) : M Q :=
  k <~ Math_random ;;
  ret (inject_Z base + unit_interval k * inject_Z span)%Q.

(** [await new Promise((resolve) => setTimeout(resolve, ms))]. *)
Definition sleep (ms : Q) : M unit :=
  fun w =>
    (Returned tt,
     {| draws := draws w; cursor := cursor w; elapsed := (elapsed w + ms)%Q |}).

(** [performance.now()]. *)
Definition performance_now : M Q := fun w => (Returned (elapsed w), w).

(** The names every object literal inherits from [Object.prototype]:
    [table[name]] finds a function under each of them (the prototype itself
    under [__proto__]), which is truthy and has none of the fields of a
    table entry. *)
Definition inherited_names : list string :=
  [ "constructor"; "hasOwnProperty"; "isPrototypeOf"; "propertyIsEnumerable";
    "toLocaleString"; "toString"; "valueOf"; "__proto__";
    "__defineGetter__"; "__defineSetter__"; "__lookupGetter__";
    "__lookupSetter__" ].

Definition is_inherited (name : string) : bool :=
  existsb (String.eqb name) inherited_names.

(** A name that [table[name]] looks up among the own keys of the object
    literal only. *)
Definition plain_name (name : string) : Prop := is_inherited name = false.

(** [table[key] || fallback] on a table of numbers: a missing key and a
    zero are both falsy.  The object literals are finite maps over their own
    keys, which is what the lookup sees for a [plain_name]; the key
    generator and the signer below are translated for such names (under an
    inherited name they read fields off a function), while the answer of
    the verifier does not depend on what the lookup finds. *)
Definition or_else_Q (v : option Q) (fallback : Q) : Q :=
  match v with
  | Some x => if Qeq_bool x 0 then fallback else x
  | None => fallback
  end.

Definition or_else_Z (v : option Z) (fallback : Z) : Z :=
  match v with
  | Some x => if x =? 0 then fallback else x
  | None => fallback
  end.

(** *** generateRandomHex *)

Definition chars : string := "0123456789abcdef".

(** [chars[i]] appended to a string: an index outside the string reads
    [undefined], which concatenation prints. *)
Definition char_at (s : string) (i : Z) : string :=
  match (if i <? 0 then None else String.get (Z.to_nat i) s) with
  | Some c => String c EmptyString
  | None => "undefined"
  end.

(** [Math.floor(Math.random() * n)] for the draw of numerator [k]. *)
Definition floor_scaled (k n : Z) : Z := (k * n) / two53.

(** The body of the [for] loop, [n] iterations left; [length] is an
    integer, as it is at every call under the hypotheses the properties
    carry. *)
Fixpoint generateRandomHex_loop (n : nat) (result : string) : M string :=
  match n with
  | O => ret result
  | S n' =>
    k <~ Math_random ;;
    generateRandomHex_loop n'
      (String.append result
         (char_at chars (floor_scaled k (Z.of_nat (String.length chars)))))
  end.

Definition generateRandomHex (length : Z) : M string :=
  generateRandomHex_loop (Z.to_nat length) "".

(** *** Key generation *)

Record KeySpec := {
  spec_publicKeySize : Z;
  spec_privateKeySize : Z;
  spec_securityLevel : string
}.

Record KeyPair := {
  publicKey : string;
  privateKey : string;
  publicKeySize : Z;
  privateKeySize : Z;
  securityLevel : string;
  algorithm : string
}.

Definition dilithium3_spec : KeySpec :=
  {| spec_publicKeySize := 1952; spec_privateKeySize := 4000;
     spec_securityLevel := "Level 3" |}.

Definition keySpecs : gmap string KeySpec :=
  <[ "dilithium2" :=
       {| spec_publicKeySize := 1312; spec_privateKeySize := 2528;
          spec_securityLevel := "Level 1" |} ]>
  (<[ "dilithium3" := dilithium3_spec ]>
  (<[ "dilithium5" :=
       {| spec_publicKeySize := 2592; spec_privateKeySize := 4864;
          spec_securityLevel := "Level 5" |} ]> ∅)).

(** [generateDilithiumKeys(variant = "dilithium3")], for a [plain_name]. *)
Definition generateDilithiumKeys (variant : string) : M KeyPair :=
  (* Simulate key generation time *)
  d <~ jitter 50 100 ;;
  exec sleep d ;;
  let spec := default dilithium3_spec (keySpecs !! variant) in
  publicKey <~ generateRandomHex (spec_publicKeySize spec * 2) ;;
  privateKey <~ generateRandomHex (spec_privateKeySize spec * 2) ;;
  ret {| publicKey := publicKey; privateKey := privateKey;
         publicKeySize := spec_publicKeySize spec;
         privateKeySize := spec_privateKeySize spec;
         securityLevel := spec_securityLevel spec;
         algorithm := variant |}.

(** [generateRSAKeys(keySize = 2048)]; its callers pass 2048 only, for which
    the divisions by 8 are exact. *)
Definition generateRSAKeys (keySize : Z) : M KeyPair :=
  d <~ jitter 200 300 ;;
  exec sleep d ;;
  let publicKeySize := keySize / 8 in
  let privateKeySize := (keySize / 8) * 5 in
  publicKey <~ generateRandomHex (publicKeySize * 2) ;;
  privateKey <~ generateRandomHex (privateKeySize * 2) ;;
  ret {| publicKey := publicKey; privateKey := privateKey;
         publicKeySize := publicKeySize;
         privateKeySize := privateKeySize;
         securityLevel := if keySize =? 2048 then "112-bit" else "128-bit";
         algorithm := String.append "rsa" (pretty keySize) |}.

Definition generateECDSAKeys : M KeyPair :=
  d <~ jitter 10 20 ;;
  exec sleep d ;;
  let publicKeySize := 64 in
  let privateKeySize := 32 in
  publicKey <~ generateRandomHex (publicKeySize * 2) ;;
  privateKey <~ generateRandomHex (privateKeySize * 2) ;;
  ret {| publicKey := publicKey; privateKey := privateKey;
         publicKeySize := publicKeySize;
         privateKeySize := privateKeySize;
         securityLevel := "128-bit";
         algorithm := "ecdsa" |}.

(** *** Signing and verification *)

Record SignResult := {
  signature : string;
  signatureSize : Z;
  sig_publicKey : string;
  sig_algorithm : string
}.

(** The three entries of [signingTimes] / [verificationTimes] are evaluated,
    in order, when the object literal is built. *)
Definition timing_table (d3 rsa ec : Z * Z) : M (gmap string Q) :=
  t1 <~ jitter (fst d3) (snd d3) ;;
  t2 <~ jitter (fst rsa) (snd rsa) ;;
  t3 <~ jitter (fst ec) (snd ec) ;;
  ret (<[ "dilithium3" := t1 ]> (<[ "rsa2048" := t2 ]> (<[ "ecdsa" := t3 ]> ∅))).

Definition signatureSizes : gmap string Z :=
  <[ "dilithium3" := 3293 ]> (<[ "rsa2048" := 256 ]> (<[ "ecdsa" := 64 ]> ∅)).

(** [signMessage(message, algorithm)], for a [plain_name]: [message] is
    never read. *)
Definition signMessage (message : string) (algorithm : string) : M SignResult :=
  (* Simulate signing time *)
  signingTimes <~ timing_table (20, 30) (50, 100) (5, 15) ;;
  exec sleep (or_else_Q (signingTimes !! algorithm) 50) ;;
  let signatureSize := or_else_Z (signatureSizes !! algorithm) 256 in
  signature <~ generateRandomHex (signatureSize * 2) ;;
  (* Generate a corresponding public key for verification *)
  keys <~ (if String.eqb algorithm "dilithium3" then generateDilithiumKeys "dilithium3"
           else if String.eqb algorithm "rsa2048" then generateRSAKeys 2048
           else generateECDSAKeys) ;;
  ret {| signature := signature; signatureSize := signatureSize;
         sig_publicKey := publicKey keys; sig_algorithm := algorithm |}.

(** [verifySignature(message, signature, publicKey, algorithm)]: after the
    sleep the function returns the literal [true]; no argument but
    [algorithm] is read. *)
Definition verifySignature (message signature publicKey algorithm : string) : M bool :=
  (* Simulate verification time *)
  verificationTimes <~ timing_table (15, 25) (5, 10) (10, 20) ;;
  exec sleep (or_else_Q (verificationTimes !! algorithm) 20) ;;
  (* For demo purposes, we'll return true (assuming valid signature) *)
  ret true.

(** *** Hybrid signatures *)

(** The parameter type ["standard" | "quantum-safe"]. *)
Inductive HybridLevel := hybrid_standard | hybrid_quantum_safe.

Record HybridStandard := {
  hs_signature : string;
  hs_signatureSize : Z;
  hs_algorithm : string;
  hs_time : Q
}.

(** The function returns one of two object shapes. *)
Inductive HybridSignature :=
| StandardVariant (s : HybridStandard)
| QuantumSafeVariant (s : SignResult).

Definition generateHybridSignature (message : string) (securityLevel : HybridLevel)
  : M HybridSignature :=
  start <~ performance_now ;;
  match securityLevel with
  | hybrid_standard =>
    (* Use ECDSA for non-quantum threats (much smaller) *)
    ecdsaSig <~ signMessage message "ecdsa" ;;
    dilithiumProof <~ generateRandomHex 128 ;; (* Small quantum-readiness proof *)
    finish <~ performance_now ;;
    ret (StandardVariant
           {| hs_signature := String.append (signature ecdsaSig) dilithiumProof;
              hs_signatureSize := signatureSize ecdsaSig + 64;
              hs_algorithm := "hybrid-standard";
              hs_time := (finish - start)%Q |})
  | hybrid_quantum_safe =>
    (* Full Dilithium for quantum threats *)
    s <~ signMessage message "dilithium3" ;;
    ret (QuantumSafeVariant s)
  end.

(** *** Helpers to state the properties *)

(** The value an outcome carries, if it returned. *)
Definition returned {A} (r : Outcome A * World) : option A :=
  match fst r with Returned a => Some a | Thrown _ => None end.

(** A world whose draws cycle through the sixteen hexadecimal digits,
    starting from digit [start]. *)
Definition cycling_world (start : nat) : World :=
  {| draws := fun n => Z.of_nat ((start + n) mod 16) * 2 ^ 49;
     cursor := 0; elapsed := 0 |}.

(** The draws a computation started at [w] is going to read next. *)
Definition upcoming (w : World) (i : nat) : Z := draws w (cursor w + i).

(** The hexadecimal digit drawn at offset [i]. *)
Definition drawn_digit (w : World) (i : nat) : string :=
  char_at chars (floor_scaled (upcoming w i mod two53) 16).

(** The digits drawn at offsets [from], ..., [from + n - 1], concatenated. *)
Fixpoint drawn_digits (w : World) (from n : nat) : string :=
  match n with
  | O => ""
  | S n' => String.append (drawn_digit w from) (drawn_digits w (S from) n')
  end.

(** One bit of one character of a string flipped: bit [b] of the code of the
    character at position [i]. *)
Fixpoint flipBit (s : string) (i b : nat) : string :=
  match s, i with
  | EmptyString, _ => EmptyString
  | String c s', O =>
    String (ascii_of_N (N.lxor (N_of_ascii c) (2 ^ N.of_nat b))) s'
  | String c s', S i' => String c (flipBit s' i' b)
  end.

(** The number of hexadecimal digits of a key or signature of [size] bytes. *)
Definition digits_of (size : Z) : nat := Z.to_nat (size * 2).

(** [w'] is [w] after [n] more draws were consumed. *)
Definition advanced (w w' : World) (n : nat) : Prop :=
  draws w' = draws w /\ cursor w' = (cursor w + n)%nat.

(** The proof part of a hybrid-standard signature: what follows the 128
    hexadecimal digits of the ECDSA signature. *)
Definition quantumCommitment (s : HybridStandard) : string :=
  String.substring 128 128 (hs_signature s).

(** The classical part of a hybrid-standard signature. *)
Definition classicalSig (s : HybridStandard) : string :=
  String.substring 0 128 (hs_signature s).

(** [w] with its draws from position [from] on shifted by one. *)
Definition skip_draw (w : World) (from : nat) : World :=
  {| draws := fun n => if (n <? from)%nat then draws w n else draws w (S n);
     cursor := cursor w; elapsed := elapsed w |}.

End Sim.

(** ** 3. The lattice signature listings ([dilithiumSign], [dilithiumVerify])

    The listings call a number of primitives that the repository names but
    does not define (hashing, sampling, matrix and vector arithmetic, hint
    computation).  They are the fields of an interface; the listings are
    translated over any implementation of it. *)

Module Lattice.

Import Sim.

Definition Bytes : Type := list Z.
Definition Polynomial : Type := list Z.
Definition PolyVec : Type := list Polynomial.
Definition PolyMatrix : Type := list PolyVec.

Record Params := {
  k : Z; l : Z; eta : Z; gamma1 : Z; gamma2 : Z;
  beta : Z; tau : Z; omega : Z; d : Z
}.

Record DilithiumPublicKey := {
  pk_level : Z;
  pk_rho : Bytes;
  pk_t1 : PolyVec
}.

Record DilithiumPrivateKey := {
  sk_level : Z;
  sk_rho : Bytes;
  sk_K : Bytes;
  sk_tr : Bytes;
  sk_s1 : PolyVec;
  sk_s2 : PolyVec;
  sk_t0 : PolyVec
}.

Record DilithiumSignature := {
  c_tilde : Bytes;
  z : PolyVec;
  h : PolyVec
}.

Class LatticeOps := {
  getParams : Z -> Params;
  (** [shake256(data, length)] and [shake256(data, length, counter)] *)
  shake256 : Bytes -> Z -> option Z -> Bytes;
  concat : Bytes -> Bytes -> Bytes;
  encode : PolyVec -> Bytes;
  encode_pk : Bytes -> PolyVec -> Bytes;
  sampleGamma1 : Bytes -> Z -> Z -> PolyVec;
  sampleInBall : Bytes -> Z -> Polynomial;
  expandA : Bytes -> Z -> Z -> PolyMatrix;
  matrixVectorMul : PolyMatrix -> PolyVec -> PolyVec;
  polynomialVectorMul : Polynomial -> PolyVec -> PolyVec;
  vectorAdd : PolyVec -> PolyVec -> PolyVec;
  vectorSub : PolyVec -> PolyVec -> PolyVec;
  vectorNeg : PolyVec -> PolyVec;
  vectorScale : PolyVec -> Z -> PolyVec;
  vectorInfinityNorm : PolyVec -> Z;
  vectorWeight : PolyVec -> Z;
  highBits : PolyVec -> Z -> PolyVec;
  makeHint : PolyVec -> PolyVec -> Z -> PolyVec;
  useHint : PolyVec -> PolyVec -> Z -> PolyVec;
  constantTimeEqual : Bytes -> Bytes -> bool
}.

Definition maxAttempts : nat := 1000.

Section Listings.

Context `{LatticeOps}.

(** The body of the [while] loop of [dilithiumSign] for one value of
    [attempt]: [Some] is the [return], [None] is either [continue]. *)
Definition sign_attempt (privateKey : DilithiumPrivateKey) (mu : Bytes)
    (attempt : nat) : option DilithiumSignature :=
  let params := getParams (sk_level privateKey) in
  (* 1. Sample masking polynomial y *)
  let rhoPrimeExtended :=
    shake256 (concat (sk_K privateKey) mu) (64 * l params)
      (Some (Z.of_nat attempt)) in
  let y := sampleGamma1 rhoPrimeExtended (gamma1 params) (l params) in
  (* 2. Compute commitment w = Ay *)
  let A := expandA (sk_rho privateKey) (k params) (l params) in
  let w := matrixVectorMul A y in
  (* 3. Decompose w and extract high bits *)
  let w1 := highBits w (gamma2 params) in
  (* 4. Generate challenge *)
  let c_tilde := shake256 (concat mu (encode w1)) 32 None in
  let c := sampleInBall c_tilde (tau params) in
  (* 5. Compute response z = y + cs1 *)
  let cs1 := polynomialVectorMul c (sk_s1 privateKey) in
  let z := vectorAdd y cs1 in
  (* 6. Check rejection conditions *)
  if vectorInfinityNorm z >=? gamma1 params - beta params then None
  else
    (* 7. Compute hint *)
    let cs2 := polynomialVectorMul c (sk_s2 privateKey) in
    let ct0 := polynomialVectorMul c (sk_t0 privateKey) in
    let w_minus_cs2 := vectorSub w cs2 in
    let h := makeHint (vectorNeg ct0) w_minus_cs2 (gamma2 params) in
    if vectorWeight h >? omega params then None
    else Some {| c_tilde := c_tilde; z := z; h := h |}.

(** The control state of [dilithiumSign]: at the loop test with the current
    value of [attempt], or left through [return] or [throw]; the second
    component of [Left] records how many times the loop body was entered. *)
Inductive SignState :=
| AtLoopTest (attempt : nat)
| Left (o : Outcome DilithiumSignature) (bodies : nat).

(** One turn of the loop: the test [attempt < maxAttempts], then the body. *)
Definition sign_step (privateKey : DilithiumPrivateKey) (mu : Bytes)
    (s : SignState) : SignState :=
  match s with
  | AtLoopTest attempt =>
    if (attempt <? maxAttempts)%nat then
      match sign_attempt privateKey mu attempt with
      | Some sig => Left (Returned sig) (S attempt)
      | None => AtLoopTest (S attempt)
      end
    else Left (Thrown "Signature generation failed after maximum attempts") attempt
  | Left o n => Left o n
  end.

Fixpoint sign_run (privateKey : DilithiumPrivateKey) (mu : Bytes)
    (fuel : nat) (s : SignState) : SignState :=
  match fuel with
  | O => s
  | S fuel' => sign_run privateKey mu fuel' (sign_step privateKey mu s)
  end.

(** The message preprocessing before the loop. *)
Definition sign_mu (message : Bytes) (privateKey : DilithiumPrivateKey) : Bytes :=
  shake256 (concat (sk_tr privateKey) message) 32 None.

(** [dilithiumSign(message, privateKey)] run for [fuel] turns of its loop,
    from [attempt = 0]. *)
Definition dilithiumSign_run (message : Bytes) (privateKey : DilithiumPrivateKey)
    (fuel : nat) : SignState :=
  sign_run privateKey (sign_mu message privateKey) fuel (AtLoopTest 0).

(** [dilithiumSign(message, privateKey)]: what the loop is left with, given
    [maxAttempts + 1] turns; [None] would be a loop still running. *)
Definition dilithiumSign (message : Bytes) (privateKey : DilithiumPrivateKey)
  : option (Outcome DilithiumSignature) :=
  match dilithiumSign_run message privateKey (S maxAttempts) with
  | Left o _ => Some o
  | AtLoopTest _ => None
  end.

(** What a run reports when it has left the loop, the attempts from [first]
    on having been made: a returned signature is that of the last attempt,
    all attempts before it having been rejected; the error is thrown after
    [maxAttempts] rejected attempts. *)
Definition left_correctly (privateKey : DilithiumPrivateKey) (mu : Bytes)
    (first : nat) (o : Outcome DilithiumSignature) (bodies : nat) : Prop :=
  match o with
  | Returned sig =>
    exists a, bodies = S a
              /\ sign_attempt privateKey mu a = Some sig
              /\ forall b, (first <= b < a)%nat -> sign_attempt privateKey mu b = None
  | Thrown e =>
    e = "Signature generation failed after maximum attempts"
    /\ bodies = maxAttempts
    /\ forall b, (first <= b < maxAttempts)%nat -> sign_attempt privateKey mu b = None
  end.

(** [dilithiumVerify(message, signature, publicKey)]. *)
Definition dilithiumVerify (message : Bytes) (signature : DilithiumSignature)
    (publicKey : DilithiumPublicKey) : bool :=
  let params := getParams (pk_level publicKey) in
  (* 1. Input validation *)
  if vectorInfinityNorm (z signature) >=? gamma1 params - beta params then false
  else
    (* 2. Recompute message hash *)
    let pk_encoded := encode_pk (pk_rho publicKey) (pk_t1 publicKey) in
    let tr := shake256 pk_encoded 32 None in
    let mu := shake256 (concat tr message) 32 None in
    (* 3. Recompute challenge *)
    let c := sampleInBall (c_tilde signature) (tau params) in
    (* 4. Expand matrix A *)
    let A := expandA (pk_rho publicKey) (k params) (l params) in
    (* 5. Compute w' = Az - ct1 * 2^d *)
    let Az := matrixVectorMul A (z signature) in
    let ct1_scaled :=
      vectorScale (polynomialVectorMul c (pk_t1 publicKey)) (2 ^ d params) in
    let w_approx := vectorSub Az ct1_scaled in
    (* 6. Use hint to recover w1 *)
    let w1 := useHint (h signature) w_approx (gamma2 params) in
    (* 7. Verify challenge *)
    let c_tilde_prime := shake256 (concat mu (encode w1)) 32 None in
    constantTimeEqual (c_tilde signature) c_tilde_prime.

End Listings.

(** An implementation of the interface on plain coefficient lists, with
    stand-ins for hashing and sampling; it serves to exhibit inputs. *)
Definition poly_norm (p : Polynomial) : Z :=
  fold_right (fun c acc => Z.max (Z.abs c) acc) 0 p.

Definition plain_norm (v : PolyVec) : Z :=
  fold_right (fun p acc => Z.max (poly_norm p) acc) 0 v.

Definition dilithium2_params : Params :=
  {| k := 4; l := 4; eta := 2; gamma1 := 2 ^ 17; gamma2 := 95232;
     beta := 78; tau := 39; omega := 80; d := 13 |}.

#[local] Instance plain_ops : LatticeOps := {|
  getParams := fun _ => dilithium2_params;
  shake256 := fun data len _ => firstn (Z.to_nat len) data;
  concat := fun a b => a ++ b;
  encode := fun v => List.concat v;
  encode_pk := fun rho t1 => rho ++ List.concat t1;
  sampleGamma1 := fun _ _ _ => [];
  sampleInBall := fun _ _ => [];
  expandA := fun _ _ _ => [];
  matrixVectorMul := fun _ v => v;
  polynomialVectorMul := fun _ v => v;
  vectorAdd := fun a b => a ++ b;
  vectorSub := fun a _ => a;
  vectorNeg := fun a => a;
  vectorScale := fun a _ => a;
  vectorInfinityNorm := plain_norm;
  vectorWeight := fun v => Z.of_nat (length v);
  highBits := fun v _ => v;
  makeHint := fun _ _ _ => [];
  useHint := fun _ v _ => v;
  constantTimeEqual := fun a b => bool_decide (a = b)
|}.

End Lattice.

(** ** 4. Coefficient compression ([compressPolynomial], [decompressPolynomial])

    Coefficients are integers; [range = 2 ** bits].  The products
    [poly[i] * range] and [value * DILITHIUM_Q] stay below [2^53] and the
    32-bit shifts stay within range as long as [bits <= 28], where the
    integer model below coincides with the floating-point evaluation (a
    quotient by the odd modulus is never closer than [1 / (2 q)] to a tie). *)

Module Compressor.

Definition DILITHIUM_Q : Z := 8380417.

(** [Math.round(a / b)] for [b > 0]: the nearest integer, ties upwards. *)
Definition round_div (a b : Z) : Z := (2 * a + b) / (2 * b).

(** [Math.round((coeff * range) / DILITHIUM_Q) % range]. *)
Definition quantize (coeff : Z) (bits : nat) : Z :=
  let range := 2 ^ Z.of_nat bits in
  Z.rem (round_div (coeff * range) DILITHIUM_Q) range.

(** [Math.round((value * DILITHIUM_Q) / range)]. *)
Definition dequantize (value : Z) (bits : nat) : Z :=
  let range := 2 ^ Z.of_nat bits in
  round_div (value * DILITHIUM_Q) range.

(** Reading a typed array: an index past the end reads [undefined], which
    the bit operations treat as 0. *)
Definition byte_at (a : list Z) (i : nat) : Z := default 0 (a !! i).

(** [(x >> n) & 1] as a condition. *)
Definition bit_set (x : Z) (n : nat) : bool :=
  negb (Z.land (Z.shiftr x (Z.of_nat n)) 1 =? 0).

(** [compressed[byteIndex] |= (1 << bitIndex)]; the store keeps the low
    eight bits, and a store past the end is dropped. *)
Definition or_bit (compressed : list Z) (bitOffset : nat) : list Z :=
  let byteIndex := (bitOffset / 8)%nat in
  let bitIndex := (bitOffset mod 8)%nat in
  <[ byteIndex :=
       Z.land (Z.lor (byte_at compressed byteIndex) (Z.shiftl 1 (Z.of_nat bitIndex))) 255 ]>
    compressed.

(** One iteration of the inner loop of [compressPolynomial]; the state is
    [(compressed, bitOffset)]. *)
Definition pack_bit (quantized : Z) (st : list Z * nat) (bit : nat) : list Z * nat :=
  let '(compressed, bitOffset) := st in
  ((if bit_set quantized bit then or_bit compressed bitOffset else compressed),
   S bitOffset).

(** [poly[i]]; a missing coefficient quantizes to [NaN], whose bits are all
    clear, like those of 0. *)
Definition coeff (poly : list Z) (i : nat) : Z := default 0 (poly !! i).

(** One iteration of the outer loop. *)
Definition pack_coeff (poly : list Z) (bits : nat) (st : list Z * nat) (i : nat)
  : list Z * nat :=
  let quantized := quantize (coeff poly i) bits in
  fold_left (pack_bit quantized) (seq 0 bits) st.

Definition compressPolynomial (poly : list Z) (bits : nat) : list Z :=
  let compressed := replicate (Z.to_nat ((256 * Z.of_nat bits + 7) / 8)) 0 in
  let bitOffset := 0%nat in
  fst (fold_left (pack_coeff poly bits) (seq 0 256) (compressed, bitOffset)).

(** One iteration of the inner loop of [decompressPolynomial]; the state is
    [(value, bitOffset)]. *)
Definition unpack_bit (compressed : list Z) (st : Z * nat) (bit : nat) : Z * nat :=
  let '(value, bitOffset) := st in
  let byteIndex := (bitOffset / 8)%nat in
  let bitIndex := (bitOffset mod 8)%nat in
  ((if bit_set (byte_at compressed byteIndex) bitIndex
    then Z.lor value (Z.shiftl 1 (Z.of_nat bit)) else value),
   S bitOffset).

(** One iteration of the outer loop; the state is [(poly, bitOffset)]. *)
Definition unpack_coeff (compressed : list Z) (bits : nat) (st : list Z * nat)
    (i : nat) : list Z * nat :=
  let '(poly, bitOffset) := st in
  let '(value, bitOffset) :=
    fold_left (unpack_bit compressed) (seq 0 bits) (0, bitOffset) in
  (<[ i := dequantize value bits ]> poly, bitOffset).

Definition decompressPolynomial (compressed : list Z) (bits : nat) : list Z :=
  let poly := replicate 256 0 in
  let bitOffset := 0%nat in
  fst (fold_left (unpack_coeff compressed bits) (seq 0 256) (poly, bitOffset)).

(** The distance between two residues modulo [q], around the circle. *)
Definition cyclic_distance (a b : Z) : Z :=
  Z.min ((a - b) mod DILITHIUM_Q) ((b - a) mod DILITHIUM_Q).

(** The bit of a packed array at a bit offset. *)
Definition bit_at (a : list Z) (j : nat) : bool :=
  Z.testbit (byte_at a (j / 8)) (Z.of_nat (j mod 8)).

(** The [value] the inner loop of [decompressPolynomial] assembles when it
    starts reading at [bitOffset]. *)
Definition value_at (compressed : list Z) (bits : nat) (bitOffset : nat) : Z :=
  fst (fold_left (unpack_bit compressed) (seq 0 bits) (0, bitOffset)).

End Compressor.

(** ** 5. Hints

    Modelled from the spec: [highBits], [makeHint] and [useHint] are called
    by the listings but defined nowhere in the repository.  The
    specification gives their signatures ([makeHint(z, r, gamma2) -> bit],
    [useHint(hint, r, gamma2) -> highBits]) for a scheme in the style of
    CRYSTALS-Dilithium with [q = 8380417], and the repository's technical
    specification declares the algorithms of FIPS 204; they are modelled,
    coefficient by coefficient, as the Decompose, HighBits, MakeHint and
    UseHint of that standard, with [2 * gamma2] dividing [q - 1]. *)

Module Hint.

Definition q : Z := 8380417.

(** Modelled from the spec: the residue of [r] modulo [alpha] in the
    interval [(-alpha / 2, alpha / 2]] (the centred reduction of the
    standard). *)
Definition mod_pm (r alpha : Z) : Z :=
  let r0 := r mod alpha in
  if r0 >? alpha / 2 then r0 - alpha else r0.

(** Modelled from the spec: Decompose, [r = r1 * (2 * gamma2) + r0] modulo
    [q] with [r0] centred, the top value of [r1] folded to 0. *)
Definition decompose (r gamma2 : Z) : Z * Z :=
  let rplus := r mod q in
  let r0 := mod_pm rplus (2 * gamma2) in
  if rplus - r0 =? q - 1 then (0, r0 - 1)
  else ((rplus - r0) / (2 * gamma2), r0).

(** Modelled from the spec: [highBits(r, gamma2)], the first component of
    the decomposition. *)
Definition highBits (r gamma2 : Z) : Z := fst (decompose r gamma2).

(** Modelled from the spec: [makeHint(z, r, gamma2) -> bit], whether adding
    [z] to [r] changes the high bits. *)
Definition makeHint (z r gamma2 : Z) : bool :=
  let r1 := highBits r gamma2 in
  let v1 := highBits (r + z) gamma2 in
  negb (r1 =? v1).

(** Modelled from the spec: [useHint(hint, r, gamma2) -> highBits], the high
    bits of [r] moved by one step, in the direction of the low part, when
    the hint is set. *)
Definition useHint (hint : bool) (r gamma2 : Z) : Z :=
  let m := (q - 1) / (2 * gamma2) in
  let '(r1, r0) := decompose r gamma2 in
  if hint && (r0 >? 0) then (r1 + 1) mod m
  else if hint then (r1 - 1) mod m
  else r1.

(** The two values of [gamma2] of the parameter tables. *)
Definition gamma2_low : Z := (q - 1) / 88.
Definition gamma2_high : Z := (q - 1) / 32.

(** The width of a bucket of high bits, and the number of buckets. *)
Definition width (gamma2 : Z) : Z := 2 * gamma2.
Definition buckets (gamma2 : Z) : Z := (q - 1) / width gamma2.

(** [gamma2] is admissible: [2 * gamma2] divides [q - 1] at least twice. *)
Definition valid_gamma2 (gamma2 : Z) : Prop :=
  0 < gamma2 /\ (q - 1) mod (2 * gamma2) = 0 /\ 2 <= (q - 1) / (2 * gamma2).

(** The pairs [decompose] ranges over: a bucket [j] and an offset [t] within
    [gamma2] of its centre, the lower end included for bucket 0 only. *)
Definition in_bucket (gamma2 j t : Z) : Prop :=
  0 <= j < buckets gamma2
  /\ t <= gamma2
  /\ (if j =? 0 then - gamma2 <= t else - gamma2 < t).

End Hint.

(** ** 6. The rest of the simulation: optimized and progressive keys *)

Module SimMore.

Import Sim.
Local Open Scope sim_scope.

(** The parameter type ["size" | "speed" | "balanced"]. *)
Inductive Optimization := opt_size | opt_speed | opt_balanced.

Record OptimizedSpec := {
  os_publicKeySize : Z;
  os_privateKeySize : Z;
  os_securityLevel : string;
  os_variant : string
}.

(** [optimizedSpecs[optimization]]. *)
Definition optimizedSpecs (optimization : Optimization) : OptimizedSpec :=
  match optimization with
  | opt_size =>
    {| os_publicKeySize := 1456; os_privateKeySize := 3200;
       os_securityLevel := "Level 2.5"; os_variant := "dilithium-compact" |}
  | opt_speed =>
    {| os_publicKeySize := 1952; os_privateKeySize := 4000;
       os_securityLevel := "Level 3"; os_variant := "dilithium-fast" |}
  | opt_balanced =>
    {| os_publicKeySize := 1704; os_privateKeySize := 3600;
       os_securityLevel := "Level 2.8"; os_variant := "dilithium-balanced" |}
  end.

Record OptimizedKeyPair := {
  ok_publicKey : string;
  ok_privateKey : string;
  ok_publicKeySize : Z;
  ok_privateKeySize : Z;
  ok_securityLevel : string;
  ok_algorithm : string;
  ok_generationTime : Q
}.

(** [generateOptimizedDilithiumKeys(optimization = "balanced")]. *)
Definition generateOptimizedDilithiumKeys (optimization : Optimization)
  : M OptimizedKeyPair :=
  start <~ performance_now ;;
  let spec := optimizedSpecs optimization in
  (* Simulate optimized generation time *)
  d <~ jitter 30 40 ;;
  exec sleep d ;;
  publicKey <~ generateRandomHex (os_publicKeySize spec * 2) ;;
  privateKey <~ generateRandomHex (os_privateKeySize spec * 2) ;;
  finish <~ performance_now ;;
  ret {| ok_publicKey := publicKey; ok_privateKey := privateKey;
         ok_publicKeySize := os_publicKeySize spec;
         ok_privateKeySize := os_privateKeySize spec;
         ok_securityLevel := os_securityLevel spec;
         ok_algorithm := os_variant spec;
         ok_generationTime := (finish - start)%Q |}.

(** The parameter type ["low" | "medium" | "high" | "quantum"]. *)
Inductive ThreatLevel := threat_low | threat_medium | threat_high | threat_quantum.

Record ProgressiveConfig := {
  pc_algo : string;
  pc_keySize : Z;
  pc_sigSize : Z;
  pc_security : string
}.

(** [configs[threatLevel]]. *)
Definition configs (threatLevel : ThreatLevel) : ProgressiveConfig :=
  match threatLevel with
  | threat_low =>
    {| pc_algo := "ecdsa"; pc_keySize := 32; pc_sigSize := 64;
       pc_security := "128-bit classical" |}
  | threat_medium =>
    {| pc_algo := "hybrid-light"; pc_keySize := 96; pc_sigSize := 128;
       pc_security := "128-bit + quantum-ready" |}
  | threat_high =>
    {| pc_algo := "dilithium2"; pc_keySize := 1312; pc_sigSize := 2420;
       pc_security := "Level 1 quantum-safe" |}
  | threat_quantum =>
    {| pc_algo := "dilithium3"; pc_keySize := 1952; pc_sigSize := 3293;
       pc_security := "Level 3 quantum-safe" |}
  end.

Record ProgressiveKeys := {
  pk_publicKey : string;
  pk_publicKeySize : Z;
  pk_signatureSize : Z;
  pk_algorithm : string;
  pk_securityLevel : string;
  pk_threatLevel : ThreatLevel;
  pk_generationTime : Q
}.

(** [generateProgressiveKeys(threatLevel)]. *)
Definition generateProgressiveKeys (threatLevel : ThreatLevel) : M ProgressiveKeys :=
  start <~ performance_now ;;
  let config := configs threatLevel in
  (* Simulate generation based on threat level *)
  let baseTime :=
    match threatLevel with
    | threat_low => 10
    | threat_quantum => 80
    | _ => 40
    end in
  d <~ jitter baseTime 20 ;;
  exec sleep d ;;
  publicKey <~ generateRandomHex (pc_keySize config * 2) ;;
  finish <~ performance_now ;;
  ret {| pk_publicKey := publicKey;
         pk_publicKeySize := pc_keySize config;
         pk_signatureSize := pc_sigSize config;
         pk_algorithm := pc_algo config;
         pk_securityLevel := pc_security config;
         pk_threatLevel := threatLevel;
         pk_generationTime := (finish - start)%Q |}.

(** The order of the threat levels. *)
Definition threat_rank (t : ThreatLevel) : Z :=
  match t with
  | threat_low => 0 | threat_medium => 1 | threat_high => 2 | threat_quantum => 3
  end.

(** Every character of a string is one of the sixteen of [chars]. *)
Fixpoint all_hex (s : string) : bool :=
  match s with
  | EmptyString => true
  | String c s' =>
    match index 0 (String c EmptyString) chars with
    | Some _ => all_hex s'
    | None => false
    end
  end.

End SimMore.

(** ** 7. Transaction utilities ([createEthereumTransaction],
    [calculateTransactionHash], the network name of [connectToLocalNetwork])

    The fields of a transaction are strings of characters below 256; the
    serialized transaction, which is what the hash reads, is a sequence of
    UTF-16 code units, the values of [charCodeAt]. *)

Module Wallet.

(** [ToInt32] on an integer. *)
Definition to_int32 (x : Z) : Z := (x + 2 ^ 31) mod 2 ^ 32 - 2 ^ 31.

(** [a << n] and [a & b] on 32-bit integers. *)
Definition shl32 (a n : Z) : Z := to_int32 (Z.shiftl (to_int32 a) (n mod 32)).
Definition and32 (a b : Z) : Z := to_int32 (Z.land (to_int32 a) (to_int32 b)).

(** A JavaScript string as the sequence of its UTF-16 code units: what
    [length] counts and [charCodeAt] returns, each from 0 to 65535. *)
Definition CodeUnits : Type := list Z.

Record EthereumTransaction := {
  tx_to : string;
  tx_value : string;
  tx_gasLimit : string;
  tx_gasPrice : string;
  tx_nonce : Z;
  tx_data : string;
  tx_chainId : option Z
}.

Section Transactions.

(** [Number.parseFloat(s).toString()] and [JSON.stringify], two built-ins
    the functions go through. *)
Variable parseFloat_toString : string -> string.
Variable JSON_stringify : EthereumTransaction -> CodeUnits.

(** [createEthereumTransaction(tx)]: an empty [data] and a missing or zero
    [chainId] are falsy. *)
Definition createEthereumTransaction (tx : EthereumTransaction)
  : EthereumTransaction :=
  {| tx_to := tx_to tx;
     tx_value := parseFloat_toString (tx_value tx);
     tx_gasLimit := tx_gasLimit tx;
     tx_gasPrice := tx_gasPrice tx;
     tx_nonce := tx_nonce tx;
     tx_data := if String.eqb (tx_data tx) "" then "0x" else tx_data tx;
     tx_chainId :=
       Some (match tx_chainId tx with
             | Some c => if c =? 0 then 1337 else c
             | None => 1337
             end) (* Default to local testnet *) |}.

(** The body of the [for] loop of [calculateTransactionHash] for
    [char = txString.charCodeAt(i)], from the current value of [hash]. *)
Definition hash_turn (hash : Z) (char : Z) : Z :=
  let hash := shl32 hash 5 - hash + char in
  let hash := and32 hash hash in (* Convert to 32-bit integer *)
  hash.

(** [for (let i = 0; i < txString.length; i++)]: one turn per code unit. *)
Definition hash_loop (txString : CodeUnits) (hash : Z) : Z :=
  fold_left hash_turn txString hash.

(** The digits of [n.toString(16)] for a positive [n], prepended to [acc]. *)
Fixpoint hex_go (fuel : nat) (n : Z) (acc : string) : string :=
  match fuel with
  | O => acc
  | S fuel' =>
    if n =? 0 then acc
    else hex_go fuel' (n / 16) (String.append (Sim.char_at Sim.chars (n mod 16)) acc)
  end.

(** [n.toString(16)] for an integer [n >= 0]. *)
Definition toString16 (n : Z) : string :=
  if n =? 0 then "0" else hex_go (S (Z.to_nat (Z.log2 n))) n "".

(** [count] copies of the character ["0"]. *)
Fixpoint zeros (count : nat) : string :=
  match count with
  | O => EmptyString
  | S count' => String "0" (zeros count')
  end.

(** [s.padStart(targetLength, "0")]. *)
Definition padStart0 (s : string) (targetLength : nat) : string :=
  String.append (zeros (targetLength - String.length s)) s.

Definition calculateTransactionHash (tx : EthereumTransaction) : string :=
  (* Simplified transaction hash calculation for demo *)
  let txString := JSON_stringify tx in
  let hash := hash_loop txString 0 in
  String.append "0x" (padStart0 (toString16 (Z.abs hash)) 64).

End Transactions.

(** The polynomial in 31 the loop evaluates, without the 32-bit wrap. *)
Fixpoint poly_hash (txString : CodeUnits) (hash : Z) : Z :=
  match txString with
  | [] => hash
  | char :: rest => poly_hash rest (31 * hash + char)
  end.

(** The code units of a string of characters below 256, one unit each. *)
Definition units (s : string) : CodeUnits :=
  map (fun c => Z.of_N (N_of_ascii c)) (list_ascii_of_string s).

(** A JSON string literal for a string that holds no quote, backslash or
    control character: its text between two quotes (code unit 34). *)
Definition json_string (s : string) : CodeUnits := 34 :: units s ++ [34].

(** A JSON number for an integer of magnitude below [10^21]: its decimal
    digits. *)
Definition json_integer (z : Z) : CodeUnits := units (pretty z).

Definition json_member (key : string) (value : CodeUnits) : CodeUnits :=
  json_string key ++ units ":" ++ value.

(** [JSON.stringify(tx)] for a transaction object whose keys are in the
    order [createEthereumTransaction] writes them, whose strings need no
    escape and whose numbers are integers; a missing [chainId] is left out
    of the text. *)
Definition stringify_plain (tx : EthereumTransaction) : CodeUnits :=
  units "{"
  ++ json_member "to" (json_string (tx_to tx)) ++ units ","
  ++ json_member "value" (json_string (tx_value tx)) ++ units ","
  ++ json_member "gasLimit" (json_string (tx_gasLimit tx)) ++ units ","
  ++ json_member "gasPrice" (json_string (tx_gasPrice tx)) ++ units ","
  ++ json_member "nonce" (json_integer (tx_nonce tx)) ++ units ","
  ++ json_member "data" (json_string (tx_data tx))
  ++ match tx_chainId tx with
     | Some c => units "," ++ json_member "chainId" (json_integer c)
     | None => []
     end
  ++ units "}".

(** [chainId === n] for the number [Number.parseInt(..., 16)] returned:
    an integer, or [None] for [NaN]. *)
Definition strict_eq (chainId : option Z) (n : Z) : bool :=
  match chainId with
  | Some c => c =? n
  | None => false
  end.

Section Network.

(** The text of a number in a template literal. *)
Variable Number_toString : option Z -> string.

(** The [networkName] of [connectToLocalNetwork], from the [chainId] the
    node answered. *)
Definition networkName (chainId : option Z) : string :=
  if strict_eq chainId 1337 then "Hardhat Local"
  else if strict_eq chainId 1337 then "Ganache Local"
  else String.append "Local Network ("
         (String.append (Number_toString chainId) ")").

End Network.

(** The value of a string of hexadecimal digits, most significant first;
    [None] when a character is not a digit of [chars]. *)
Fixpoint hex_value_from (s : string) (acc : Z) : option Z :=
  match s with
  | EmptyString => Some acc
  | String c s' =>
    match index 0 (String c EmptyString) Sim.chars with
    | Some d => hex_value_from s' (16 * acc + Z.of_nat d)
    | None => None
    end
  end.

Definition hex_value (s : string) : option Z := hex_value_from s 0.

End Wallet.

(** ** 8. What is left of verification after its input validation *)

Module LatticeMore.

Import Sim Lattice.

Section Listings.

Context `{LatticeOps}.

(** Steps 2 to 7 of [dilithiumVerify]: the recomputation and comparison of
    the challenge. *)
Definition verify_challenge (message : Bytes) (signature : DilithiumSignature)
    (publicKey : DilithiumPublicKey) : bool :=
  let params := getParams (pk_level publicKey) in
  let pk_encoded := encode_pk (pk_rho publicKey) (pk_t1 publicKey) in
  let tr := shake256 pk_encoded 32 None in
  let mu := shake256 (concat tr message) 32 None in
  let c := sampleInBall (c_tilde signature) (tau params) in
  let A := expandA (pk_rho publicKey) (k params) (l params) in
  let Az := matrixVectorMul A (z signature) in
  let ct1_scaled :=
    vectorScale (polynomialVectorMul c (pk_t1 publicKey)) (2 ^ d params) in
  let w_approx := vectorSub Az ct1_scaled in
  let w1 := useHint (h signature) w_approx (gamma2 params) in
  let c_tilde_prime := shake256 (concat mu (encode w1)) 32 None in
  constantTimeEqual (c_tilde signature) c_tilde_prime.

(** The masking vector of an attempt. *)
Definition attempt_mask (privateKey : DilithiumPrivateKey) (mu : Bytes)
    (attempt : nat) : PolyVec :=
  let params := getParams (sk_level privateKey) in
  sampleGamma1
    (shake256 (concat (sk_K privateKey) mu) (64 * l params)
       (Some (Z.of_nat attempt)))
    (gamma1 params) (l params).

End Listings.

End LatticeMore.

(** ** 9. Well-formed packed arrays *)

Module CompressorMore.

(** Every element of a packed array is a byte. *)
Definition bytes (a : list Z) : Prop := Forall (fun b => 0 <= b < 256) a.

End CompressorMore.

(** ** 10. The side-channel and vectorized listings
    ([constantTimeReduce], [constantTimeSample], [vectorizedPolyAdd]) *)

Module SideChannel.

(** [constantTimeReduce(a)]: [mask] is [-1] or [-0], and [&] works on
    32-bit integers. *)
Definition constantTimeReduce (a : Z) : Z :=
  let q := Compressor.DILITHIUM_Q in
  let mask := - (if a >=? q then 1 else 0) in
  a + Wallet.and32 mask (q - a).

Definition maxAttempts : nat := 16.

Section Sampling.

(** The hash-based candidate generator the listing calls. *)
Variable shake256Sample : list Z -> Z -> Z.

(** The [while (attempts < maxAttempts)] loop of [constantTimeSample] with
    [remaining = maxAttempts - attempts] turns left. *)
Fixpoint sample_loop (remaining : nat) (seed : list Z) (eta : Z) (attempts : Z)
  : Z :=
  match remaining with
  | O => 0 (* Fallback to zero *)
  | S remaining' =>
    let candidate := shake256Sample seed attempts in
    let accept := if candidate <? eta * 2 then 1 else 0 in
    (* Always perform the same operations regardless of acceptance *)
    let result := accept * (candidate - eta) + (1 - accept) * 0 in
    let valid := accept in
    if negb (valid =? 0) then result
    else sample_loop remaining' seed eta (attempts + 1)
  end.

Definition constantTimeSample (seed : list Z) (eta : Z) : Z :=
  sample_loop maxAttempts seed eta 0.

End Sampling.

Section Vectorized.

(** The modular addition the listing calls; an index past the end of an
    array reads [undefined], here [None]. *)
Variable modAdd : option Z -> option Z -> Z.

(** One iteration of the loop of [vectorizedPolyAdd]: four coefficients at
    once.  A slot of [new Array(256)] is [None] until it is written. *)
Definition add_block (a b : list Z) (result : list (option Z)) (i : nat)
  : list (option Z) :=
  let result := <[ i := Some (modAdd (a !! i) (b !! i)) ]> result in
  let result :=
    <[ (i + 1)%nat := Some (modAdd (a !! (i + 1)%nat) (b !! (i + 1)%nat)) ]> result in
  let result :=
    <[ (i + 2)%nat := Some (modAdd (a !! (i + 2)%nat) (b !! (i + 2)%nat)) ]> result in
  let result :=
    <[ (i + 3)%nat := Some (modAdd (a !! (i + 3)%nat) (b !! (i + 3)%nat)) ]> result in
  result.

(** [for (let i = 0; i < 256; i += 4)]. *)
Definition block_starts : list nat := map (fun k => (4 * k)%nat) (seq 0 64).

Definition vectorizedPolyAdd (a b : list Z) : list (option Z) :=
  fold_left (add_block a b) block_starts (replicate 256 None).

End Vectorized.

End SideChannel.

(** ** 11. The frequency table of [entropyCompress]

    The Huffman tree and code table come from functions the document does
    not list; the first loop of the listing stands on its own. *)

Module Entropy.

(** [frequencies.set(byte, (frequencies.get(byte) || 0) + 1)]. *)
Definition count_byte (frequencies : gmap Z Z) (byte : Z) : gmap Z Z :=
  <[ byte := Sim.or_else_Z (frequencies !! byte) 0 + 1 ]> frequencies.

(** [for (const byte of data)], starting from [new Map()]. *)
Definition frequency_table (data : list Z) : gmap Z Z :=
  fold_left count_byte data ∅.

End Entropy.

(** ** 12. Key generation for the listings ([dilithiumKeyGen]) *)

Module LatticeKeys.

Import Lattice.

(** The primitives [dilithiumKeyGen] calls besides those of the signing and
    verification listings; the repository defines none of them.  An element
    read past the end of an array is [undefined], here [None]. *)
Class KeyGenOps := {
  sampleBeta : Bytes -> Z -> Z -> Z -> PolyVec;
  polyAdd : option Polynomial -> option Polynomial -> Polynomial;
  power2Round : PolyVec -> Z -> PolyVec * PolyVec
}.

(** [t[i] = v]: within the array the slot is overwritten; the loop of the
    listing counts up from 0, so a write past the end is at index
    [t.length] and appends. *)
Definition store (t : PolyVec) (i : nat) (v : Polynomial) : PolyVec :=
  if (i <? length t)%nat then <[ i := v ]> t else t ++ [v].

Section Listing.

Context `{LatticeOps} `{KeyGenOps}.

(** One iteration of [for (let i = 0; i < params.k; i++)]. *)
Definition add_noise (s2 : PolyVec) (t : PolyVec) (i : nat) : PolyVec :=
  store t i (polyAdd (t !! i) (s2 !! i)).

(** [dilithiumKeyGen(securityLevel)]; [xi] is what [randomBytes(32)]
    returned.  The object the listing returns has no [level] field, the one
    [dilithiumSign] and [dilithiumVerify] read: the two keys carry the level
    the generator was called with. *)
Definition dilithiumKeyGen (securityLevel : Z) (xi : Bytes)
  : DilithiumPublicKey * DilithiumPrivateKey :=
  let params := getParams securityLevel in
  (* 1. Generate random seeds *)
  let rho := shake256 xi 32 (Some 0) in
  let rhoPrime := shake256 xi 64 (Some 32) in
  let K := shake256 xi 32 (Some 64) in
  (* 2. Expand matrix A from seed rho *)
  let A := expandA rho (k params) (l params) in
  (* 3. Sample secret vectors *)
  let s1 := sampleBeta rhoPrime (eta params) (l params) 0 in
  let s2 := sampleBeta rhoPrime (eta params) (k params) (l params) in
  (* 4. Compute t = As1 + s2 *)
  let t := matrixVectorMul A s1 in
  let t := fold_left (add_noise s2) (seq 0 (Z.to_nat (k params))) t in
  (* 5. Extract high and low parts *)
  let '(t1, t0) := power2Round t (d params) in
  (* 6. Compute public key hash *)
  let pk_encoded := encode_pk rho t1 in
  let tr := shake256 pk_encoded 32 None in
  ({| pk_level := securityLevel; pk_rho := rho; pk_t1 := t1 |},
   {| sk_level := securityLevel; sk_rho := rho; sk_K := K; sk_tr := tr;
      sk_s1 := s1; sk_s2 := s2; sk_t0 := t0 |}).

(** Modelled from the spec: one signing attempt with the hint of step 6 of
    the specification, "compute hint from [(-c t0, w - c s2 + c t0)]", in
    place of step 7 of the listing; everything else is the listing's. *)
Definition sign_attempt_spec_hint (privateKey : DilithiumPrivateKey) (mu : Bytes)
    (attempt : nat) : option DilithiumSignature :=
  let params := getParams (sk_level privateKey) in
  let rhoPrimeExtended :=
    shake256 (concat (sk_K privateKey) mu) (64 * l params)
      (Some (Z.of_nat attempt)) in
  let y := sampleGamma1 rhoPrimeExtended (gamma1 params) (l params) in
  let A := expandA (sk_rho privateKey) (k params) (l params) in
  let w := matrixVectorMul A y in
  let w1 := highBits w (gamma2 params) in
  let c_tilde := shake256 (concat mu (encode w1)) 32 None in
  let c := sampleInBall c_tilde (tau params) in
  let cs1 := polynomialVectorMul c (sk_s1 privateKey) in
  let z := vectorAdd y cs1 in
  if vectorInfinityNorm z >=? gamma1 params - beta params then None
  else
    let cs2 := polynomialVectorMul c (sk_s2 privateKey) in
    let ct0 := polynomialVectorMul c (sk_t0 privateKey) in
    let w_minus_cs2 := vectorSub w cs2 in
    let h :=
      makeHint (vectorNeg ct0) (vectorAdd w_minus_cs2 ct0) (gamma2 params) in
    if vectorWeight h >? omega params then None
    else Some {| c_tilde := c_tilde; z := z; h := h |}.

End Listing.

End LatticeKeys.

(** ** 13. The primitives over the ring of the document

    Modelled from the spec: the arithmetic of
    [R_q = Z_q[X]/(X^256 + 1)], [q = 8380417], on lists of 256
    coefficients, the centred norm, the hint weight, Power2Round and the
    hint functions of section 5 applied coefficient by coefficient.  Hashing
    and sampling are stand-ins: the hash keeps its whole input and the
    length asked for, so that two hashes are equal only for equal inputs
    (its output is longer than the 32 bytes of a real hash; the listings
    never read the length of a hash), and each sampler returns one fixed
    value of its range. *)

Module LatticeRing.

Import Lattice LatticeKeys.

Definition n : nat := 256.

(** Modelled from the spec: coefficient-wise operations modulo [q]. *)
Definition poly_zip (f : Z -> Z -> Z) (a b : Polynomial) : Polynomial :=
  zip_with (fun x y => f x y mod Hint.q) a b.

Definition poly_map (f : Z -> Z) (a : Polynomial) : Polynomial :=
  map (fun x => f x mod Hint.q) a.

(** Modelled from the spec: multiplication by [X], with [X^256 = -1]. *)
Definition mul_X (p : Polynomial) : Polynomial :=
  match p with
  | [] => []
  | _ => ((- List.last p 0) mod Hint.q) :: removelast p
  end.

(** Modelled from the spec: the product in [R_q], by Horner's rule on the
    first factor. *)
Fixpoint poly_mul (a b : Polynomial) : Polynomial :=
  match a with
  | [] => map (fun _ => 0) b
  | a0 :: a' => poly_zip Z.add (map (Z.mul a0) b) (mul_X (poly_mul a' b))
  end.

Definition constant (c : Z) : Polynomial := c :: replicate (n - 1) 0.

Definition row_mul (row v : PolyVec) : Polynomial :=
  fold_right (poly_zip Z.add) (constant 0) (zip_with poly_mul row v).

(** Modelled from the spec: the representative of a residue in
    [[-(q-1)/2, (q-1)/2]] and the infinity norm over it. *)
Definition centred (x : Z) : Z :=
  let r := x mod Hint.q in
  if r >? (Hint.q - 1) / 2 then r - Hint.q else r.

Definition ring_norm (v : PolyVec) : Z :=
  fold_right (fun p acc =>
                fold_right (fun c acc' => Z.max (Z.abs (centred c)) acc') acc p)
    0 v.

(** Modelled from the spec: the number of hint bits that are set. *)
Definition ring_weight (v : PolyVec) : Z :=
  fold_right (fun p acc =>
                fold_right (fun c acc' => if c =? 0 then acc' else acc' + 1) acc p)
    0 v.

(** Modelled from the spec: Power2Round, [r = r1 * 2^d + r0] with [r0]
    centred. *)
Definition power2Round_coefficient (d r : Z) : Z * Z :=
  let rplus := r mod Hint.q in
  let r0 := Hint.mod_pm rplus (2 ^ d) in
  ((rplus - r0) / 2 ^ d, r0).

(** Stand-ins for the samplers: the identity matrix, a masking vector whose
    first coefficient is [gamma2] of the second parameter set, a challenge
    with [tau] coefficients 1, and a secret with a single coefficient 1
    (for nonce 0) or none. *)
Definition identity_matrix (rows cols : Z) : PolyMatrix :=
  map (fun i => map (fun j => constant (if (i =? j)%nat then 1 else 0))
                 (seq 0 (Z.to_nat cols)))
    (seq 0 (Z.to_nat rows)).

Definition unit_vector (c : Z) (len : Z) : PolyVec :=
  constant c :: replicate (Z.to_nat len - 1) (constant 0).

Definition ones (tau : Z) : Polynomial :=
  replicate (Z.to_nat tau) 1 ++ replicate (n - Z.to_nat tau) 0.

#[local] Instance ring_ops : LatticeOps := {|
  getParams := fun _ => dilithium2_params;
  shake256 := fun data len counter =>
    data ++ [len] ++ match counter with Some c => [c] | None => [] end;
  concat := fun a b => a ++ b;
  encode := fun v => List.concat v;
  encode_pk := fun rho t1 => rho ++ List.concat t1;
  sampleGamma1 := fun _ _ len => unit_vector 95232 len;
  sampleInBall := fun _ tau => ones tau;
  expandA := fun _ rows cols => identity_matrix rows cols;
  matrixVectorMul := fun A v => map (fun row => row_mul row v) A;
  polynomialVectorMul := fun c v => map (poly_mul c) v;
  vectorAdd := zip_with (poly_zip Z.add);
  vectorSub := zip_with (poly_zip Z.sub);
  vectorNeg := map (poly_map Z.opp);
  vectorScale := fun v s => map (poly_map (Z.mul s)) v;
  vectorInfinityNorm := ring_norm;
  vectorWeight := ring_weight;
  highBits := fun v gamma2 => map (map (fun r => Hint.highBits r gamma2)) v;
  makeHint := fun z r gamma2 =>
    zip_with (zip_with (fun z r => if Hint.makeHint z r gamma2 then 1 else 0)) z r;
  useHint := fun h r gamma2 =>
    zip_with (zip_with (fun h r => Hint.useHint (negb (h =? 0)) r gamma2)) h r;
  constantTimeEqual := fun a b => bool_decide (a = b)
|}.

#[local] Instance ring_keygen_ops : KeyGenOps := {|
  sampleBeta := fun _ _ len nonce =>
    if nonce =? 0 then unit_vector 1 len else unit_vector 0 len;
  polyAdd := fun a b => poly_zip Z.add (default [] a) (default [] b);
  power2Round := fun v d =>
    (map (map (fun r => fst (power2Round_coefficient d r))) v,
     map (map (fun r => snd (power2Round_coefficient d r))) v)
|}.

End LatticeRing.

(** * Properties *)

(** ** Threat assessment *)

Module ThreatAssessorFacts.

Import ThreatAssessor.

Lemma listing_is_scoring_rule (c : ThreatContext) :
  assessSecurityRequirement c = assess_spec c.
Proof.
  unfold assessSecurityRequirement, assess_spec, risk_score, level_of_score,
    value_points, profile_points, network_points, quantum_points.
  destruct (quantumThreatLevel c); try reflexivity;
    rewrite !Z.geb_leb;
    destruct (gt_num (transactionValue c) 1000000),
             (gt_num (transactionValue c) 100000),
             (gt_num (transactionValue c) 10000),
             (userRiskProfile c), (networkConditions c);
    cbn [Z.add Pos.add Pos.succ]; reflexivity.
Qed.

Lemma gt_num_mono (a b t : Q) :
  (a <= b)%Q -> gt_num a t = true -> gt_num b t = true.
Proof.
  unfold gt_num. intros Hab Ha.
  apply negb_true_iff. apply negb_true_iff in Ha.
  destruct (Qle_bool b t) eqn:E; [|reflexivity].
  apply Qle_bool_iff in E.
  assert (Qle_bool a t = true) by (apply Qle_bool_iff; eapply Qle_trans; eauto).
  congruence.
Qed.

Lemma gt_num_threshold (v t1 t2 : Q) :
  (t1 <= t2)%Q -> gt_num v t2 = true -> gt_num v t1 = true.
Proof.
  unfold gt_num. intros Ht Hv.
  apply negb_true_iff. apply negb_true_iff in Hv.
  destruct (Qle_bool v t1) eqn:E; [|reflexivity].
  apply Qle_bool_iff in E.
  assert (Qle_bool v t2 = true) by (apply Qle_bool_iff; eapply Qle_trans; eauto).
  congruence.
Qed.

Lemma value_points_mono (a b : Q) :
  (a <= b)%Q -> value_points a <= value_points b.
Proof.
  intros Hab. unfold value_points.
  pose proof (gt_num_mono a b 1000000 Hab).
  pose proof (gt_num_mono a b 100000 Hab).
  pose proof (gt_num_mono a b 10000 Hab).
  assert (H2 : gt_num b 1000000 = true -> gt_num b 100000 = true)
    by (apply gt_num_threshold; discriminate).
  assert (H3 : gt_num b 100000 = true -> gt_num b 10000 = true)
    by (apply gt_num_threshold; discriminate).
  destruct (gt_num a 1000000), (gt_num a 100000), (gt_num a 10000),
    (gt_num b 1000000), (gt_num b 100000), (gt_num b 10000);
    try lia; intuition discriminate.
Qed.

Lemma floor_third_mono (a b : Q) :
  (a <= b)%Q -> floor_third a <= floor_third b.
Proof.
  intros Hab. unfold floor_third. apply Qfloor_resp_le.
  unfold Qdiv. apply Qmult_le_compat_r; [assumption | discriminate].
Qed.

Lemma level_of_score_mono (s t : Z) :
  s <= t -> level_le (level_of_score s) (level_of_score t).
Proof.
  intros Hst. unfold level_le, level_of_score.
  destruct (8 <=? s) eqn:E8, (6 <=? s) eqn:E6, (4 <=? s) eqn:E4, (2 <=? s) eqn:E2,
    (8 <=? t) eqn:F8, (6 <=? t) eqn:F6, (4 <=? t) eqn:F4, (2 <=? t) eqn:F2;
    cbn [level_rank]; lia.
Qed.

Lemma level_le_military (a : SecurityLevel) : level_le a military.
Proof. destruct a; unfold level_le; cbn; lia. Qed.

(** Monotonicity in all inputs at once, for the componentwise order. *)
Lemma assess_spec_mono (c1 c2 : ThreatContext) :
  (transactionValue c1 <= transactionValue c2)%Q ->
  profile_rank (userRiskProfile c1) <= profile_rank (userRiskProfile c2) ->
  network_rank (networkConditions c1) <= network_rank (networkConditions c2) ->
  quantum_rank (quantumThreatLevel c1) <= quantum_rank (quantumThreatLevel c2) ->
  (geopoliticalRisk c1 <= geopoliticalRisk c2)%Q ->
  level_le (assess_spec c1) (assess_spec c2).
Proof.
  intros Hv Hp Hn Hq Hg. unfold assess_spec.
  pose proof (value_points_mono _ _ Hv) as Hv'.
  pose proof (floor_third_mono _ _ Hg) as Hg'.
  destruct (quantumThreatLevel c2) eqn:Q2; try apply level_le_military;
    destruct (quantumThreatLevel c1) eqn:Q1; cbn in Hq; try lia;
    apply level_of_score_mono; unfold risk_score; rewrite Q1, Q2;
    destruct (userRiskProfile c1), (userRiskProfile c2); cbn in Hp; try lia;
    destruct (networkConditions c1), (networkConditions c2); cbn in Hn; try lia;
    cbn [profile_points network_points quantum_points]; lia.
Qed.

(** A confirmed quantum threat on an otherwise harmless context. *)
Example assess_confirmed_only :
  assessSecurityRequirement
    {| transactionValue := 0; userRiskProfile := low;
       networkConditions := normal; quantumThreatLevel := confirmed;
       geopoliticalRisk := 0 |} = military.
Proof. reflexivity. Qed.

(** A medium-value transfer of a medium-risk user on a hostile network with
    geopolitical risk 7: 2 + 1 + 2 + 0 + 2 = 7. *)
Example assess_score_seven :
  assessSecurityRequirement
    {| transactionValue := 250000; userRiskProfile := medium;
       networkConditions := hostile; quantumThreatLevel := none;
       geopoliticalRisk := 7 |} = quantumSafe.
Proof. reflexivity. Qed.

(** C3. [assessSecurityRequirement] returns [military] as soon as the
    quantum threat level is [confirmed], whatever the other fields; in every
    other case it returns the level of the additive risk score: value
    thresholds +3/+2/+1, profile +0/+1/+3, hostile network +2, suspected
    quantum threat +4, plus [floor(geopoliticalRisk / 3)], mapped through
    [>= 8] military, [>= 6] quantum-safe, [>= 4] high, [>= 2] standard, and
    minimal otherwise. *)
Theorem assess_short_circuit_and_score (c : ThreatContext) :
  assessSecurityRequirement c =
    match quantumThreatLevel c with
    | confirmed => military
    | _ =>
      let score :=
        (if gt_num (transactionValue c) 1000000 then 3
         else if gt_num (transactionValue c) 100000 then 2
         else if gt_num (transactionValue c) 10000 then 1 else 0)
        + match userRiskProfile c with low => 0 | medium => 1 | high_risk => 3 end
        + match networkConditions c with normal => 0 | hostile => 2 end
        + match quantumThreatLevel c with suspected => 4 | _ => 0 end
        + Qfloor (geopoliticalRisk c / 3) in
      if 8 <=? score then military
      else if 6 <=? score then quantumSafe
      else if 4 <=? score then high
      else if 2 <=? score then standard
      else minimal
    end.
Proof.
  rewrite listing_is_scoring_rule. reflexivity.
Qed.

(** C4. [assessSecurityRequirement] is defined on every context, and it is
    monotone non-decreasing in each input taken alone (transaction value,
    user risk profile, network conditions, quantum threat level,
    geopolitical risk), the other inputs held fixed, for the order
    minimal < standard < high < quantum-safe < military. *)
Theorem assess_total_and_monotone (c : ThreatContext) :
  (exists level, assessSecurityRequirement c = level)
  /\ (forall v1 v2 : Q, (v1 <= v2)%Q ->
        level_le (assessSecurityRequirement (with_value c v1))
                 (assessSecurityRequirement (with_value c v2)))
  /\ (forall p1 p2, profile_rank p1 <= profile_rank p2 ->
        level_le (assessSecurityRequirement (with_profile c p1))
                 (assessSecurityRequirement (with_profile c p2)))
  /\ (forall n1 n2, network_rank n1 <= network_rank n2 ->
        level_le (assessSecurityRequirement (with_network c n1))
                 (assessSecurityRequirement (with_network c n2)))
  /\ (forall t1 t2, quantum_rank t1 <= quantum_rank t2 ->
        level_le (assessSecurityRequirement (with_quantum c t1))
                 (assessSecurityRequirement (with_quantum c t2)))
  /\ (forall g1 g2 : Q, (g1 <= g2)%Q ->
        level_le (assessSecurityRequirement (with_geo c g1))
                 (assessSecurityRequirement (with_geo c g2))).
Proof.
  split; [eexists; reflexivity|].
  repeat split; intros; rewrite !listing_is_scoring_rule;
    apply assess_spec_mono; cbn; try assumption;
    try apply Qle_refl; try apply Z.le_refl.
Qed.

(** A context on which each of the five inputs is raised in turn. *)
Lemma assess_total_and_monotone_witness :
  let c := {| transactionValue := 50000; userRiskProfile := medium;
              networkConditions := normal; quantumThreatLevel := none;
              geopoliticalRisk := 4 |} in
  level_le (assessSecurityRequirement (with_value c 50000))
           (assessSecurityRequirement (with_value c 2000000))
  /\ level_le (assessSecurityRequirement (with_profile c low))
              (assessSecurityRequirement (with_profile c high_risk))
  /\ level_le (assessSecurityRequirement (with_network c normal))
              (assessSecurityRequirement (with_network c hostile))
  /\ level_le (assessSecurityRequirement (with_quantum c none))
              (assessSecurityRequirement (with_quantum c confirmed))
  /\ level_le (assessSecurityRequirement (with_geo c 0))
              (assessSecurityRequirement (with_geo c 10)).
Proof.
  intro c.
  destruct (assess_total_and_monotone c) as (_ & Hv & Hp & Hn & Hq & Hg).
  repeat split.
  - apply Hv. vm_compute. discriminate.
  - apply Hp. vm_compute. discriminate.
  - apply Hn. vm_compute. discriminate.
  - apply Hq. vm_compute. discriminate.
  - apply Hg. vm_compute. discriminate.
Defined.

End ThreatAssessorFacts.

(** ** The runnable simulation *)

Module SimFacts.

Import Sim.
Local Open Scope sim_scope.

Lemma advanced_refl (w : World) : advanced w w 0.
Proof. split; [reflexivity | lia]. Qed.

Lemma advanced_trans (w1 w2 w3 : World) (n m : nat) :
  advanced w1 w2 n -> advanced w2 w3 m -> advanced w1 w3 (n + m).
Proof. intros [D1 C1] [D2 C2]. split; [congruence | lia]. Qed.

Lemma bind_returned {A B} (m : M A) (k : A -> M B) (w w' : World) (a : A) :
  m w = (Returned a, w') -> bind m k w = k a w'.
Proof. intros Hm. unfold bind. rewrite Hm. reflexivity. Qed.

Lemma Math_random_run (w : World) :
  exists w', Math_random w = (Returned (upcoming w 0 mod two53), w')
             /\ advanced w w' 1 /\ elapsed w' = elapsed w.
Proof.
  eexists. unfold Math_random, upcoming. rewrite Nat.add_0_r.
  split; [reflexivity|]. split; [split; cbn; [reflexivity | lia] | reflexivity].
Qed.

Lemma jitter_run (base span : Z) (w : World) :
  exists t w', jitter base span w = (Returned t, w')
               /\ advanced w w' 1 /\ elapsed w' = elapsed w.
Proof.
  destruct (Math_random_run w) as (w' & Hr & Ha & He).
  unfold jitter. rewrite (bind_returned _ _ _ _ _ Hr).
  eexists _, w'. split; [reflexivity | auto].
Qed.

Lemma sleep_run (ms : Q) (w : World) :
  exists w', sleep ms w = (Returned tt, w') /\ advanced w w' 0.
Proof.
  eexists. split; [reflexivity|]. split; cbn; [reflexivity | lia].
Qed.

Lemma timing_table_run (a b c : Z * Z) (w : World) :
  exists t w', timing_table a b c w = (Returned t, w') /\ advanced w w' 3.
Proof.
  unfold timing_table.
  destruct (jitter_run (fst a) (snd a) w) as (t1 & w1 & H1 & A1 & _).
  destruct (jitter_run (fst b) (snd b) w1) as (t2 & w2 & H2 & A2 & _).
  destruct (jitter_run (fst c) (snd c) w2) as (t3 & w3 & H3 & A3 & _).
  rewrite (bind_returned _ _ _ _ _ H1), (bind_returned _ _ _ _ _ H2),
    (bind_returned _ _ _ _ _ H3).
  eexists _, w3. split; [reflexivity|].
  exact (advanced_trans _ _ _ 2 1 (advanced_trans _ _ _ 1 1 A1 A2) A3).
Qed.

Lemma drawn_digit_advanced (w w' : World) (n i : nat) :
  advanced w w' n -> drawn_digit w' i = drawn_digit w (n + i).
Proof.
  intros [D C]. unfold drawn_digit, upcoming. rewrite D, C.
  now rewrite Nat.add_assoc.
Qed.

Lemma drawn_digits_advanced (w w' : World) (n count : nat) :
  advanced w w' n ->
  forall from, drawn_digits w' from count = drawn_digits w (n + from) count.
Proof.
  intros Ha. induction count as [|count IH]; intros from; cbn; [reflexivity|].
  rewrite (drawn_digit_advanced _ _ _ _ Ha), IH.
  now rewrite Nat.add_succ_r.
Qed.

Lemma append_cons (x : ascii) (a b : string) :
  String.append (String x a) b = String x (String.append a b).
Proof. reflexivity. Qed.

Lemma append_empty_l (a : string) : String.append "" a = a.
Proof. reflexivity. Qed.

Lemma append_assoc (a b c : string) :
  String.append (String.append a b) c = String.append a (String.append b c).
Proof.
  induction a as [|x a IH]; [reflexivity|].
  rewrite !append_cons. now rewrite IH.
Qed.

Lemma append_empty_r (a : string) : String.append a "" = a.
Proof.
  induction a as [|x a IH]; [reflexivity|].
  rewrite append_cons. now rewrite IH.
Qed.

Lemma generateRandomHex_loop_run (n : nat) :
  forall (result : string) (w : World),
  exists w',
    generateRandomHex_loop n result w
      = (Returned (String.append result (drawn_digits w 0 n)), w')
    /\ advanced w w' n /\ elapsed w' = elapsed w.
Proof.
  induction n as [|n IH]; intros result w.
  - exists w. cbn. rewrite append_empty_r.
    split; [reflexivity|]. split; [apply advanced_refl | reflexivity].
  - destruct (Math_random_run w) as (w1 & Hr & A1 & E1).
    cbn [generateRandomHex_loop]. rewrite (bind_returned _ _ _ _ _ Hr).
    destruct (IH (String.append result
                    (char_at chars (floor_scaled (upcoming w 0 mod two53)
                                      (Z.of_nat (String.length chars))))) w1)
      as (w2 & H2 & A2 & E2).
    exists w2. rewrite H2. split.
    + rewrite append_assoc. cbn [drawn_digits].
      rewrite (drawn_digits_advanced _ _ _ _ A1). reflexivity.
    + split; [exact (advanced_trans _ _ _ 1 n A1 A2) | congruence].
Qed.

Lemma generateRandomHex_run (length : Z) (w : World) :
  exists w',
    generateRandomHex length w = (Returned (drawn_digits w 0 (Z.to_nat length)), w')
    /\ advanced w w' (Z.to_nat length) /\ elapsed w' = elapsed w.
Proof.
  unfold generateRandomHex.
  destruct (generateRandomHex_loop_run (Z.to_nat length) "" w) as (w' & H & A & E).
  exists w'. auto.
Qed.

(** The common shape of the three key generators: one draw for the delay,
    then the public key and the private key, digit by digit. *)
Lemma keygen_shape_run (base span a b : Z) (mk : string -> string -> KeyPair)
    (w : World) :
  exists w',
    (d <~ jitter base span ;;
     exec sleep d ;;
     pk <~ generateRandomHex a ;;
     sk <~ generateRandomHex b ;;
     ret (mk pk sk)) w
    = (Returned (mk (drawn_digits w 1 (Z.to_nat a))
                    (drawn_digits w (1 + Z.to_nat a) (Z.to_nat b))), w')
    /\ advanced w w' (1 + Z.to_nat a + Z.to_nat b).
Proof.
  destruct (jitter_run base span w) as (t & w1 & H1 & A1 & _).
  destruct (sleep_run t w1) as (w2 & H2 & A2).
  destruct (generateRandomHex_run a w2) as (w3 & H3 & A3 & _).
  destruct (generateRandomHex_run b w3) as (w4 & H4 & A4 & _).
  rewrite (bind_returned _ _ _ _ _ H1), (bind_returned _ _ _ _ _ H2),
    (bind_returned _ _ _ _ _ H3), (bind_returned _ _ _ _ _ H4).
  pose proof (advanced_trans _ _ _ _ _ A1 A2) as A12.
  pose proof (advanced_trans _ _ _ _ _ A12 A3) as A123.
  exists w4. split.
  - unfold ret. do 2 f_equal. f_equal.
    + rewrite (drawn_digits_advanced _ _ _ _ A12). reflexivity.
    + rewrite (drawn_digits_advanced _ _ _ _ A123). f_equal. lia.
  - pose proof (advanced_trans _ _ _ _ _ A123 A4) as A.
    replace (1 + Z.to_nat a + Z.to_nat b)%nat
      with (1 + 0 + Z.to_nat a + Z.to_nat b)%nat by lia.
    exact A.
Qed.

Lemma generateDilithiumKeys_run (variant : string) (w : World) :
  let spec := default dilithium3_spec (keySpecs !! variant) in
  let np := digits_of (spec_publicKeySize spec) in
  let ns := digits_of (spec_privateKeySize spec) in
  exists w',
    generateDilithiumKeys variant w
    = (Returned {| publicKey := drawn_digits w 1 np;
                   privateKey := drawn_digits w (1 + np) ns;
                   publicKeySize := spec_publicKeySize spec;
                   privateKeySize := spec_privateKeySize spec;
                   securityLevel := spec_securityLevel spec;
                   algorithm := variant |}, w')
    /\ advanced w w' (1 + np + ns).
Proof.
  intros spec np ns. unfold generateDilithiumKeys. fold spec.
  exact (keygen_shape_run 50 100 _ _
           (fun pk sk => {| publicKey := pk; privateKey := sk;
                            publicKeySize := spec_publicKeySize spec;
                            privateKeySize := spec_privateKeySize spec;
                            securityLevel := spec_securityLevel spec;
                            algorithm := variant |}) w).
Qed.

Lemma generateRSAKeys_run (keySize : Z) (w : World) :
  exists keys w' n, generateRSAKeys keySize w = (Returned keys, w')
                    /\ advanced w w' n.
Proof.
  unfold generateRSAKeys.
  destruct (keygen_shape_run 200 300 (keySize / 8 * 2) (keySize / 8 * 5 * 2)
              (fun pk sk => {| publicKey := pk; privateKey := sk;
                               publicKeySize := keySize / 8;
                               privateKeySize := keySize / 8 * 5;
                               securityLevel :=
                                 if keySize =? 2048 then "112-bit" else "128-bit";
                               algorithm := String.append "rsa" (pretty keySize) |}) w)
    as (w' & H & A).
  eexists _, w', _. split; [exact H | exact A].
Qed.

Lemma generateECDSAKeys_run (w : World) :
  exists w',
    generateECDSAKeys w
    = (Returned {| publicKey := drawn_digits w 1 128;
                   privateKey := drawn_digits w 129 64;
                   publicKeySize := 64; privateKeySize := 32;
                   securityLevel := "128-bit"; algorithm := "ecdsa" |}, w')
    /\ advanced w w' 193.
Proof.
  exact (keygen_shape_run 10 20 (64 * 2) (32 * 2)
           (fun pk sk => {| publicKey := pk; privateKey := sk;
                            publicKeySize := 64; privateKeySize := 32;
                            securityLevel := "128-bit"; algorithm := "ecdsa" |}) w).
Qed.

(** [signMessage] returns on every input; its signature is the run of
    digits drawn after the three timing draws. *)
Lemma signMessage_run (message algorithm : string) (w : World) :
  let size := or_else_Z (signatureSizes !! algorithm) 256 in
  exists sig w' n,
    signMessage message algorithm w = (Returned sig, w')
    /\ signature sig = drawn_digits w 3 (digits_of size)
    /\ signatureSize sig = size
    /\ sig_algorithm sig = algorithm
    /\ advanced w w' n.
Proof.
  intros size. unfold signMessage. fold size.
  destruct (timing_table_run (20, 30) (50, 100) (5, 15) w) as (t & w1 & H1 & A1).
  destruct (sleep_run (or_else_Q (t !! algorithm) 50) w1) as (w2 & H2 & A2).
  destruct (generateRandomHex_run (size * 2) w2) as (w3 & H3 & A3 & _).
  rewrite (bind_returned _ _ _ _ _ H1), (bind_returned _ _ _ _ _ H2),
    (bind_returned _ _ _ _ _ H3).
  pose proof (advanced_trans _ _ _ _ _ A1 A2) as A12.
  pose proof (advanced_trans _ _ _ _ _ A12 A3) as A123.
  assert (Hk : exists keys w4 m,
             (if String.eqb algorithm "dilithium3"
              then generateDilithiumKeys "dilithium3"
              else if String.eqb algorithm "rsa2048" then generateRSAKeys 2048
                   else generateECDSAKeys) w3 = (Returned keys, w4)
             /\ advanced w3 w4 m).
  { destruct (String.eqb algorithm "dilithium3").
    - destruct (generateDilithiumKeys_run "dilithium3" w3) as (w4 & H4 & A4).
      eexists _, w4, _. split; [exact H4 | exact A4].
    - destruct (String.eqb algorithm "rsa2048").
      + apply generateRSAKeys_run.
      + destruct (generateECDSAKeys_run w3) as (w4 & H4 & A4).
        eexists _, w4, _. split; [exact H4 | exact A4]. }
  destruct Hk as (keys & w4 & m & H4 & A4).
  rewrite (bind_returned _ _ _ _ _ H4).
  eexists _, w4, _. split; [reflexivity|]. cbn.
  split; [|split; [reflexivity | split; [reflexivity|]]].
  - rewrite (drawn_digits_advanced _ _ _ _ A12). reflexivity.
  - exact (advanced_trans _ _ _ _ _ A123 A4).
Qed.

(** The key pair [signMessage] generates for an algorithm name: its number
    of public-key digits. *)
Lemma signer_keys_run (algorithm : string) (w : World) :
  let pkDigits :=
    if String.eqb algorithm "dilithium3" then 3904%nat
    else if String.eqb algorithm "rsa2048" then 512%nat else 128%nat in
  exists keys w' n,
    (if String.eqb algorithm "dilithium3" then generateDilithiumKeys "dilithium3"
     else if String.eqb algorithm "rsa2048" then generateRSAKeys 2048
          else generateECDSAKeys) w = (Returned keys, w')
    /\ publicKey keys = drawn_digits w 1 pkDigits
    /\ advanced w w' n.
Proof.
  intros pkDigits. subst pkDigits.
  destruct (String.eqb algorithm "dilithium3").
  - destruct (generateDilithiumKeys_run "dilithium3" w) as (w' & H & A).
    eexists _, w', _. split; [exact H|]. split; [reflexivity | exact A].
  - destruct (String.eqb algorithm "rsa2048").
    + unfold generateRSAKeys.
      destruct (keygen_shape_run 200 300 (2048 / 8 * 2)
                  (2048 / 8 * 5 * 2)
                  (fun pk sk => {| publicKey := pk; privateKey := sk;
                                   publicKeySize := 2048 / 8;
                                   privateKeySize := 2048 / 8 * 5;
                                   securityLevel :=
                                     if 2048 =? 2048 then "112-bit" else "128-bit";
                                   algorithm := String.append "rsa" (pretty 2048) |}) w)
        as (w' & H & A).
      eexists _, w', _. split; [exact H|]. split; [reflexivity | exact A].
    + destruct (generateECDSAKeys_run w) as (w' & H & A).
      eexists _, w', _. split; [exact H|]. split; [reflexivity | exact A].
Qed.

(** What [signMessage] returns, field by field. *)
Lemma signMessage_shape_run (message algorithm : string) (w : World) :
  let size := or_else_Z (signatureSizes !! algorithm) 256 in
  let pkDigits :=
    if String.eqb algorithm "dilithium3" then 3904%nat
    else if String.eqb algorithm "rsa2048" then 512%nat else 128%nat in
  exists w',
    signMessage message algorithm w
    = (Returned {| signature := drawn_digits w 3 (Z.to_nat (size * 2));
                   signatureSize := size;
                   sig_publicKey :=
                     drawn_digits w (3 + Z.to_nat (size * 2) + 1) pkDigits;
                   sig_algorithm := algorithm |}, w').
Proof.
  intros size pkDigits. unfold signMessage. fold size.
  destruct (timing_table_run (20, 30) (50, 100) (5, 15) w)
    as (t & w1 & H1 & A1).
  destruct (sleep_run (or_else_Q (t !! algorithm) 50) w1) as (w2 & H2 & A2).
  destruct (generateRandomHex_run (size * 2) w2) as (w3 & H3 & A3 & _).
  destruct (signer_keys_run algorithm w3) as (keys & w4 & n & H4 & Hpk & A4).
  rewrite (bind_returned _ _ _ _ _ H1),
    (bind_returned _ _ _ _ _ H2),
    (bind_returned _ _ _ _ _ H3),
    (bind_returned _ _ _ _ _ H4).
  pose proof (advanced_trans _ _ _ _ _ A1 A2) as A12.
  pose proof (advanced_trans _ _ _ _ _ A12 A3) as A123.
  exists w4. unfold ret. do 2 f_equal. rewrite Hpk. f_equal.
  - rewrite (drawn_digits_advanced _ _ _ _ A12). reflexivity.
  - rewrite (drawn_digits_advanced _ _ _ _ A123). reflexivity.
Qed.

Lemma verifySignature_run (message signature publicKey algorithm : string)
    (w : World) :
  exists w', verifySignature message signature publicKey algorithm w
             = (Returned true, w') /\ advanced w w' 3.
Proof.
  unfold verifySignature.
  destruct (timing_table_run (15, 25) (5, 10) (10, 20) w) as (t & w1 & H1 & A1).
  destruct (sleep_run (or_else_Q (t !! algorithm) 20) w1) as (w2 & H2 & A2).
  rewrite (bind_returned _ _ _ _ _ H1), (bind_returned _ _ _ _ _ H2).
  exists w2. split; [reflexivity|].
  exact (advanced_trans _ _ _ _ _ A1 A2).
Qed.

(** C10. On every input (message, signature, public key, algorithm),
    whether or not the signature comes from [signMessage] and whether or
    not the key is related to it, and in every state of the random source,
    [verifySignature] returns [true]; it does not throw. *)
Theorem verifySignature_always_true
    (message signature publicKey algorithm : string) (w : World) :
  exists w', verifySignature message signature publicKey algorithm w
             = (Returned true, w').
Proof.
  destruct (verifySignature_run message signature publicKey algorithm w)
    as (w' & H & _).
  exists w'. exact H.
Qed.



(** *** Key generation and the random source *)

Lemma drawn_digits_ext (w1 w2 : World) (count : nat) :
  forall from,
  (forall i, (from <= i < from + count)%nat -> upcoming w1 i = upcoming w2 i) ->
  drawn_digits w1 from count = drawn_digits w2 from count.
Proof.
  induction count as [|count IH]; intros from Hagree; cbn; [reflexivity|].
  rewrite (IH (S from)) by (intros i Hi; apply Hagree; lia).
  unfold drawn_digit. rewrite (Hagree from) by lia. reflexivity.
Qed.

Lemma drawn_digits_head (w : World) (from count : nat) :
  (0 < count)%nat ->
  String.get 0 (drawn_digits w from count) = String.get 0 (drawn_digit w from).
Proof.
  intros Hc. destruct count as [|count]; [lia|]. cbn [drawn_digits].
  unfold drawn_digit.
  destruct (char_at chars (floor_scaled (upcoming w from mod two53) 16)) eqn:E.
  - unfold char_at in E.
    destruct (if _ <? 0 then None else String.get _ chars); discriminate.
  - rewrite append_cons. reflexivity.
Qed.

(** C5, as the simulation has it.  [generateDilithiumKeys] takes no seed:
    the key pair is read off the random source.  For a variant that is not
    the name of a member inherited from [Object.prototype], its size, level
    and algorithm fields are fixed by the variant, its two keys are the
    digits drawn after the delay draw, and so two invocations whose random
    sources agree on the draws consumed return identical key pairs. *)
Theorem keygen_determined_by_draws (variant : string) (w1 w2 : World) :
  plain_name variant ->
  let spec := default dilithium3_spec (keySpecs !! variant) in
  let np := digits_of (spec_publicKeySize spec) in
  let ns := digits_of (spec_privateKeySize spec) in
  (forall i, (i < 1 + np + ns)%nat -> upcoming w1 i = upcoming w2 i) ->
  exists keys,
    returned (generateDilithiumKeys variant w1) = Some keys
    /\ returned (generateDilithiumKeys variant w2) = Some keys
    /\ publicKey keys = drawn_digits w1 1 np
    /\ privateKey keys = drawn_digits w1 (1 + np) ns
    /\ publicKeySize keys = spec_publicKeySize spec
    /\ privateKeySize keys = spec_privateKeySize spec
    /\ securityLevel keys = spec_securityLevel spec
    /\ algorithm keys = variant.
Proof.
  intros _ spec np ns Hagree.
  destruct (generateDilithiumKeys_run variant w1) as (w1' & H1 & _).
  destruct (generateDilithiumKeys_run variant w2) as (w2' & H2 & _).
  fold spec in H1, H2. fold np in H1, H2. fold ns in H1, H2.
  eexists. split; [unfold returned; rewrite H1; reflexivity|].
  split; [|cbn; repeat split; reflexivity].
  unfold returned. rewrite H2. cbn [fst].
  rewrite (drawn_digits_ext w2 w1 np 1)
    by (intros i Hi; symmetry; apply Hagree; lia).
  rewrite (drawn_digits_ext w2 w1 ns (1 + np))
    by (intros i Hi; symmetry; apply Hagree; lia).
  reflexivity.
Qed.

(** Two random sources with the same draws, read at different times. *)
Lemma keygen_determined_by_draws_witness :
  let w1 := cycling_world 0 in
  let w2 := {| draws := draws (cycling_world 0); cursor := 0; elapsed := 1000 |} in
  plain_name "dilithium2"
  /\ (forall i, (i < 1 + digits_of 1312 + digits_of 2528)%nat ->
               upcoming w1 i = upcoming w2 i)
  /\ exists keys,
       returned (generateDilithiumKeys "dilithium2" w1) = Some keys
       /\ returned (generateDilithiumKeys "dilithium2" w2) = Some keys.
Proof.
  intros w1 w2.
  assert (Hagree : forall i, (i < 1 + digits_of 1312 + digits_of 2528)%nat ->
                             upcoming w1 i = upcoming w2 i)
    by (intros i Hi; reflexivity).
  split; [reflexivity|]. split; [exact Hagree|].
  destruct (keygen_determined_by_draws "dilithium2" w1 w2 eq_refl Hagree)
    as (keys & H1 & H2 & _).
  exists keys. split; assumption.
Defined.

(** Two successive invocations with the same variant return different keys:
    the second reads the draws that follow those of the first. *)
Lemma keygen_twice_differs :
  exists k1 w1 k2 w2,
    generateDilithiumKeys "dilithium3" (cycling_world 0) = (Returned k1, w1)
    /\ generateDilithiumKeys "dilithium3" w1 = (Returned k2, w2)
    /\ publicKey k1 <> publicKey k2.
Proof.
  destruct (generateDilithiumKeys_run "dilithium3" (cycling_world 0))
    as (w1 & H1 & A1).
  destruct (generateDilithiumKeys_run "dilithium3" w1) as (w2 & H2 & _).
  eexists _, w1, _, w2. split; [exact H1|]. split; [exact H2|].
  cbn [publicKey]. intros Heq.
  apply (f_equal (String.get 0)) in Heq.
  rewrite (drawn_digits_advanced _ _ _ _ A1) in Heq.
  rewrite !drawn_digits_head in Heq by (vm_compute; lia).
  vm_compute in Heq. discriminate.
Qed.

(** *** Hybrid signatures *)

Lemma floor_scaled_16_range (x : Z) : 0 <= floor_scaled (x mod two53) 16 < 16.
Proof.
  unfold floor_scaled.
  assert (0 <= x mod two53 < two53) by (apply Z.mod_pos_bound; reflexivity).
  assert (0 < two53) by reflexivity.
  split.
  - apply Z.div_pos; lia.
  - apply Z.div_lt_upper_bound; lia.
Qed.

Lemma char_at_chars_single (i : Z) :
  0 <= i < 16 -> exists c, char_at chars i = String c "".
Proof.
  intros Hi.
  assert (Hcases : i = 0 \/ i = 1 \/ i = 2 \/ i = 3 \/ i = 4 \/ i = 5 \/ i = 6
                   \/ i = 7 \/ i = 8 \/ i = 9 \/ i = 10 \/ i = 11 \/ i = 12
                   \/ i = 13 \/ i = 14 \/ i = 15) by lia.
  repeat (destruct Hcases as [-> | Hcases]; [eexists; reflexivity|]).
  subst i. eexists; reflexivity.
Qed.

Lemma drawn_digit_single (w : World) (i : nat) :
  exists c, drawn_digit w i = String c "".
Proof. apply char_at_chars_single, floor_scaled_16_range. Qed.

Lemma drawn_digits_length (w : World) (count : nat) :
  forall from, String.length (drawn_digits w from count) = count.
Proof.
  induction count as [|count IH]; intros from; cbn [drawn_digits]; [reflexivity|].
  destruct (drawn_digit_single w from) as (c & ->).
  rewrite append_cons, append_empty_l. cbn [String.length]. now rewrite IH.
Qed.

Lemma substring_all (a : string) : String.substring 0 (String.length a) a = a.
Proof.
  induction a as [|x a IH]; [reflexivity|].
  cbn [String.length String.substring]. now rewrite IH.
Qed.

Lemma substring_prefix (a b : string) :
  String.substring 0 (String.length a) (String.append a b) = a.
Proof.
  induction a as [|x a IH].
  - rewrite append_empty_l. cbn [String.length]. destruct b; reflexivity.
  - rewrite append_cons. cbn [String.length String.substring]. now rewrite IH.
Qed.

Lemma substring_suffix (a b : string) :
  String.substring (String.length a) (String.length b) (String.append a b) = b.
Proof.
  induction a as [|x a IH].
  - rewrite append_empty_l. apply substring_all.
  - rewrite append_cons. cbn [String.length String.substring]. exact IH.
Qed.

(** [signMessage] with the ECDSA algorithm: 3 timing draws, 128 signature
    digits, then the key pair (1 + 128 + 64 draws). *)
Lemma signMessage_ecdsa_run (message : string) (w : World) :
  exists w',
    signMessage message "ecdsa" w
    = (Returned {| signature := drawn_digits w 3 128; signatureSize := 64;
                   sig_publicKey := drawn_digits w 132 128;
                   sig_algorithm := "ecdsa" |}, w')
    /\ advanced w w' 324.
Proof.
  unfold signMessage.
  destruct (timing_table_run (20, 30) (50, 100) (5, 15) w) as (t & w1 & H1 & A1).
  destruct (sleep_run (or_else_Q (t !! "ecdsa") 50) w1) as (w2 & H2 & A2).
  change (or_else_Z (signatureSizes !! "ecdsa") 256) with 64.
  destruct (generateRandomHex_run (64 * 2) w2) as (w3 & H3 & A3 & _).
  destruct (generateECDSAKeys_run w3) as (w4 & H4 & A4).
  rewrite (bind_returned _ _ _ _ _ H1), (bind_returned _ _ _ _ _ H2),
    (bind_returned _ _ _ _ _ H3).
  change (String.eqb "ecdsa" "dilithium3") with false.
  change (String.eqb "ecdsa" "rsa2048") with false. cbv iota.
  rewrite (bind_returned _ _ _ _ _ H4).
  pose proof (advanced_trans _ _ _ _ _ A1 A2) as A12.
  pose proof (advanced_trans _ _ _ _ _ A12 A3) as A123.
  exists w4. split.
  - unfold ret. cbn [publicKey]. do 2 f_equal. f_equal.
    + rewrite (drawn_digits_advanced _ _ _ _ A12). reflexivity.
    + rewrite (drawn_digits_advanced _ _ _ _ A123). reflexivity.
  - exact (advanced_trans _ _ _ _ _ A123 A4).
Qed.

(** C9, as the simulation has it.  At level [standard],
    [generateHybridSignature] returns the hybrid-standard variant: the
    128-digit ECDSA signature followed by a 128-digit (64-byte) proof.  The
    proof is a fixed-size run of digits drawn from the random source after
    the signer's draws; neither the message nor any key enters it. *)
Theorem hybrid_standard_proof_is_drawn (message : string) (w : World) :
  exists s w',
    generateHybridSignature message hybrid_standard w
      = (Returned (StandardVariant s), w')
    /\ hs_algorithm s = "hybrid-standard"
    /\ hs_signatureSize s = 64 + 64
    /\ classicalSig s = drawn_digits w 3 128
    /\ quantumCommitment s = drawn_digits w 324 128
    /\ String.length (quantumCommitment s) = 128%nat.
Proof.
  unfold generateHybridSignature.
  assert (Hnow : forall w0, performance_now w0 = (Returned (elapsed w0), w0))
    by reflexivity.
  rewrite (bind_returned _ _ _ _ _ (Hnow w)).
  destruct (signMessage_ecdsa_run message w) as (w1 & H1 & A1).
  destruct (generateRandomHex_run 128 w1) as (w2 & H2 & A2 & _).
  rewrite (bind_returned _ _ _ _ _ H1), (bind_returned _ _ _ _ _ H2),
    (bind_returned _ _ _ _ _ (Hnow w2)).
  rewrite (drawn_digits_advanced _ _ _ _ A1).
  eexists _, w2. split; [reflexivity|].
  unfold classicalSig, quantumCommitment.
  cbn [hs_algorithm hs_signatureSize hs_signature signature signatureSize].
  change (Z.to_nat 128) with 128%nat. change (324 + 0)%nat with 324%nat.
  pose proof (drawn_digits_length w 128 3) as L1.
  pose proof (drawn_digits_length w 128 324) as L2.
  pose proof (substring_prefix (drawn_digits w 3 128) (drawn_digits w 324 128)) as P.
  pose proof (substring_suffix (drawn_digits w 3 128) (drawn_digits w 324 128)) as S.
  rewrite L1 in P. rewrite L1, L2 in S. rewrite P, S, L2.
  repeat split; reflexivity.
Qed.

(** Two runs on the same message whose random sources differ only from the
    325th draw on: the classical part and the measured time coincide, the
    proofs differ; and a run on another message from the first source yields
    the first proof again. *)
Lemma hybrid_proof_not_bound_to_message :
  exists s1 w1 s2 w2 s3 w3,
    generateHybridSignature "transfer 10" hybrid_standard (cycling_world 0)
      = (Returned (StandardVariant s1), w1)
    /\ generateHybridSignature "transfer 10" hybrid_standard
         (skip_draw (cycling_world 0) 324)
      = (Returned (StandardVariant s2), w2)
    /\ generateHybridSignature "transfer 99" hybrid_standard (cycling_world 0)
      = (Returned (StandardVariant s3), w3)
    /\ classicalSig s1 = classicalSig s2
    /\ hs_time s1 = hs_time s2
    /\ quantumCommitment s1 <> quantumCommitment s2
    /\ quantumCommitment s3 = quantumCommitment s1.
Proof.
  do 6 eexists.
  split; [vm_compute; reflexivity|].
  split; [vm_compute; reflexivity|].
  split; [vm_compute; reflexivity|].
  split; [vm_compute; reflexivity|].
  split; [vm_compute; reflexivity|].
  split; [vm_compute; discriminate | vm_compute; reflexivity].
Qed.

End SimFacts.

(** ** The lattice signature listings *)

Module LatticeFacts.

Import Sim Lattice.

Section Signing.

Context `{LatticeOps}.
Variables (privateKey : DilithiumPrivateKey) (mu : Bytes).

Lemma sign_run_left (fuel : nat) (o : Outcome DilithiumSignature) (n : nat) :
  sign_run privateKey mu fuel (Left o n) = Left o n.
Proof. induction fuel as [|fuel IH]; [reflexivity | exact IH]. Qed.

Lemma sign_run_add (m n : nat) (s : SignState) :
  sign_run privateKey mu (m + n) s
  = sign_run privateKey mu n (sign_run privateKey mu m s).
Proof.
  revert s. induction m as [|m IH]; intros s; [reflexivity|].
  cbn [Nat.add sign_run]. apply IH.
Qed.

Lemma sign_run_from (r : nat) :
  forall a, (a + r)%nat = maxAttempts ->
  exists o n,
    sign_run privateKey mu (S r) (AtLoopTest a) = Left o n
    /\ (a <= n <= maxAttempts)%nat
    /\ left_correctly privateKey mu a o n.
Proof.
  induction r as [|r IH]; intros a Ha.
  - rewrite Nat.add_0_r in Ha. subst a.
    cbn [sign_run sign_step]. rewrite Nat.ltb_irrefl.
    eexists _, _. split; [reflexivity|]. split; [lia|].
    split; [reflexivity | split; [reflexivity | intros b Hb; lia]].
  - assert (Hlt : (a <? maxAttempts)%nat = true) by (apply Nat.ltb_lt; lia).
    change (sign_run privateKey mu (S (S r)) (AtLoopTest a))
      with (sign_run privateKey mu (S r) (sign_step privateKey mu (AtLoopTest a))).
    cbn [sign_step]. rewrite Hlt.
    destruct (sign_attempt privateKey mu a) as [sig|] eqn:Ea.
    + rewrite sign_run_left. eexists _, _. split; [reflexivity|].
      split; [lia|]. exists a. split; [reflexivity|]. split; [exact Ea|].
      intros b Hb; lia.
    + destruct (IH (S a)) as (o & n & Hrun & Hn & Ho); [lia|].
      exists o, n. split; [exact Hrun|]. split; [lia|].
      destruct o as [sig|e]; cbn [left_correctly] in *.
      * destruct Ho as (a' & -> & Hsig & Hnone). exists a'.
        split; [reflexivity|]. split; [exact Hsig|].
        intros b Hb. destruct (Nat.eq_dec b a) as [->|Hne]; [exact Ea|].
        apply Hnone. lia.
      * destruct Ho as (-> & -> & Hnone). split; [reflexivity|].
        split; [reflexivity|].
        intros b Hb. destruct (Nat.eq_dec b a) as [->|Hne]; [exact Ea|].
        apply Hnone. lia.
Qed.

Lemma sign_run_counter_bounded (fuel : nat) :
  forall a a', (a <= maxAttempts)%nat ->
  sign_run privateKey mu fuel (AtLoopTest a) = AtLoopTest a' ->
  (a' <= maxAttempts)%nat /\ (a' = a + fuel)%nat.
Proof.
  induction fuel as [|fuel IH]; intros a a' Ha Hrun.
  - cbn in Hrun. injection Hrun as <-. lia.
  - cbn [sign_run sign_step] in Hrun.
    destruct (a <? maxAttempts)%nat eqn:Hlt.
    + apply Nat.ltb_lt in Hlt.
      destruct (sign_attempt privateKey mu a).
      * rewrite sign_run_left in Hrun. discriminate.
      * apply IH in Hrun; lia.
    + rewrite sign_run_left in Hrun. discriminate.
Qed.

End Signing.

(** C7, as the listing has it.  Whatever the primitives, the key and the
    message, [dilithiumSign] leaves its retry loop within
    [maxAttempts + 1 = 1001] loop tests, having entered the loop body at
    most [maxAttempts = 1000] times: either it returns the signature of the
    first attempt that passes both rejection tests, or, every one of the
    1000 attempts having been rejected, it throws the error
    [Signature generation failed after maximum attempts]: the failure
    reaches the caller as an exception, not as a returned value.  No run is
    ever at the loop test with a counter above [maxAttempts], and more fuel
    does not change the result. *)
Theorem dilithiumSign_bounded_retries `{LatticeOps} (message : Bytes)
    (privateKey : DilithiumPrivateKey) :
  let mu := sign_mu message privateKey in
  exists o bodies,
    dilithiumSign_run message privateKey (S maxAttempts) = Left o bodies
    /\ dilithiumSign message privateKey = Some o
    /\ (bodies <= maxAttempts)%nat
    /\ maxAttempts = 1000%nat
    /\ (forall fuel, (S maxAttempts <= fuel)%nat ->
          dilithiumSign_run message privateKey fuel = Left o bodies)
    /\ (forall fuel attempt,
          dilithiumSign_run message privateKey fuel = AtLoopTest attempt ->
          (attempt <= maxAttempts)%nat)
    /\ match o with
       | Returned sig =>
         exists a, bodies = S a
                   /\ sign_attempt privateKey mu a = Some sig
                   /\ forall b, (b < a)%nat -> sign_attempt privateKey mu b = None
       | Thrown e =>
         e = "Signature generation failed after maximum attempts"
         /\ bodies = maxAttempts
         /\ forall b, (b < maxAttempts)%nat -> sign_attempt privateKey mu b = None
       end.
Proof.
  intros mu. unfold dilithiumSign, dilithiumSign_run. fold mu.
  destruct (sign_run_from privateKey mu maxAttempts 0 eq_refl)
    as (o & n & Hrun & Hn & Ho).
  exists o, n. split; [exact Hrun|]. split; [rewrite Hrun; reflexivity|].
  split; [lia|]. split; [reflexivity|].
  split; [|split].
  - intros fuel Hfuel.
    replace fuel with (S maxAttempts + (fuel - S maxAttempts))%nat by lia.
    rewrite sign_run_add, Hrun. apply sign_run_left.
  - intros fuel attempt Hat.
    apply sign_run_counter_bounded in Hat; [tauto | lia].
  - destruct o as [sig|e]; cbn [left_correctly] in Ho.
    + destruct Ho as (a & -> & Hsig & Hnone). exists a.
      split; [reflexivity|]. split; [exact Hsig|]. intros b Hb. apply Hnone. lia.
    + destruct Ho as (-> & -> & Hnone).
      split; [reflexivity|]. split; [reflexivity|].
      intros b Hb. apply Hnone. lia.
Qed.

(** C1, as the code has it.  The runnable [verifySignature] detects no
    tampering: on any signature string, in particular one obtained from a
    signature by flipping a bit, with any message, key and algorithm, it
    returns [true].  The verification listing [dilithiumVerify] does not
    accept a signature whose [z] norm violates the bound: whenever
    [vectorInfinityNorm z >= gamma1 - beta] it returns [false]. *)
Theorem tampering_accepted_norm_rejected `{LatticeOps}
    (message tampered publicKey algorithm : string) (w : World)
    (msg : Bytes) (sig : DilithiumSignature) (pk : DilithiumPublicKey) :
  (exists w', verifySignature message tampered publicKey algorithm w
              = (Returned true, w'))
  /\ (vectorInfinityNorm (z sig)
       >= gamma1 (getParams (pk_level pk)) - beta (getParams (pk_level pk)) ->
      dilithiumVerify msg sig pk = false).
Proof.
  split.
  - destruct (SimFacts.verifySignature_run message tampered publicKey algorithm w)
      as (w' & Hv & _).
    exists w'. exact Hv.
  - intros Hnorm. unfold dilithiumVerify.
    destruct (vectorInfinityNorm (z sig)
              >=? gamma1 (getParams (pk_level pk)) - beta (getParams (pk_level pk)))
      eqn:E; [reflexivity|].
    rewrite Z.geb_leb in E. apply Z.leb_gt in E. lia.
Qed.

#[local] Existing Instance plain_ops.

(** A signature whose response has a coefficient equal to [gamma1]. *)
Lemma tampering_accepted_norm_rejected_witness :
  vectorInfinityNorm (z {| c_tilde := [1; 2]; z := [[5; 2 ^ 17]]; h := [] |})
    >= gamma1 (getParams 2) - beta (getParams 2)
  /\ dilithiumVerify [7]
       {| c_tilde := [1; 2]; z := [[5; 2 ^ 17]]; h := [] |}
       {| pk_level := 2; pk_rho := [0]; pk_t1 := [] |} = false.
Proof.
  split.
  - vm_compute. discriminate.
  - apply (proj2 (tampering_accepted_norm_rejected "m" "s" "k" "dilithium3"
                    (cycling_world 0) [7]
                    {| c_tilde := [1; 2]; z := [[5; 2 ^ 17]]; h := [] |}
                    {| pk_level := 2; pk_rho := [0]; pk_t1 := [] |})).
    vm_compute. discriminate.
Defined.

(** Flipping the lowest bit of a character changes it. *)
Lemma flipped_character_differs (c : ascii) :
  ascii_of_N (N.lxor (N_of_ascii c) (2 ^ N.of_nat 0)) <> c.
Proof.
  destruct c as [[] [] [] [] [] [] [] []]; vm_compute; discriminate.
Qed.

(** A [dilithium3] signature of the simulation, 3293 bytes in 6586
    hexadecimal digits, with the lowest bit of its first character flipped,
    is still accepted under the public key the signer reported. *)
Lemma verifySignature_accepts_flipped_bit :
  exists sig w1 w2,
    signMessage "pay 5" "dilithium3" (cycling_world 0) = (Returned sig, w1)
    /\ signatureSize sig = 3293
    /\ String.length (signature sig) = digits_of 3293
    /\ flipBit (signature sig) 0 0 <> signature sig
    /\ verifySignature "pay 5" (flipBit (signature sig) 0 0) (sig_publicKey sig)
         "dilithium3" w1 = (Returned true, w2).
Proof.
  destruct (SimFacts.signMessage_shape_run "pay 5" "dilithium3" (cycling_world 0))
    as (w1 & Hs).
  change (or_else_Z (signatureSizes !! "dilithium3") 256) with 3293 in Hs.
  set (sig := {| signature := drawn_digits (cycling_world 0) 3 (Z.to_nat (3293 * 2));
                 signatureSize := 3293;
                 sig_publicKey :=
                   drawn_digits (cycling_world 0) (3 + Z.to_nat (3293 * 2) + 1)
                     (if String.eqb "dilithium3" "dilithium3" then 3904%nat
                      else if String.eqb "dilithium3" "rsa2048" then 512%nat
                           else 128%nat);
                 sig_algorithm := "dilithium3" |}) in *.
  destruct (SimFacts.verifySignature_run "pay 5" (flipBit (signature sig) 0 0)
              (sig_publicKey sig) "dilithium3" w1) as (w2 & Hv & _).
  exists sig, w1, w2.
  split; [exact Hs|]. split; [reflexivity|].
  split; [apply SimFacts.drawn_digits_length|]. split; [|exact Hv].
  cbn [signature sig].
  assert (Hpos : (0 < Z.to_nat (3293 * 2))%nat) by lia.
  destruct (Z.to_nat (3293 * 2)) as [|count]; [lia|].
  cbn [drawn_digits].
  destruct (SimFacts.drawn_digit_single (cycling_world 0) 3) as (c & Hc).
  rewrite Hc, SimFacts.append_cons, SimFacts.append_empty_l.
  cbn [flipBit]. intros Heq. injection Heq as Heq.
  exact (flipped_character_differs c Heq).
Qed.

(** Under the plain implementation of the primitives, a key whose [s1] has
    a coefficient equal to [gamma1]: every response is rejected by the norm
    test, the loop body is entered 1000 times, and the call ends by
    throwing; no value is returned to the caller. *)
Lemma exhausted_signing_throws :
  let privateKey := {| sk_level := 2; sk_rho := [0]; sk_K := [1]; sk_tr := [3];
                       sk_s1 := [[2 ^ 17]]; sk_s2 := []; sk_t0 := [] |} in
  dilithiumSign_run [9] privateKey (S maxAttempts)
  = Left (Thrown "Signature generation failed after maximum attempts") 1000
  /\ dilithiumSign [9] privateKey
     = Some (Thrown "Signature generation failed after maximum attempts")
  /\ forall sig, dilithiumSign [9] privateKey <> Some (Returned sig).
Proof.
  intros privateKey.
  assert (Hrun : dilithiumSign_run [9] privateKey (S maxAttempts)
                 = Left (Thrown "Signature generation failed after maximum attempts")
                     1000)
    by (vm_compute; reflexivity).
  split; [exact Hrun|].
  unfold dilithiumSign. rewrite Hrun.
  split; [reflexivity | intros sig; discriminate].
Qed.

End LatticeFacts.

(** ** The listings over the ring of the document *)

Module LatticeRingFacts.

Import Sim Lattice LatticeKeys LatticeRing.

#[local] Existing Instance ring_ops.
#[local] Existing Instance ring_keygen_ops.




(** The same key pair and message with the hint of the specification, made
    from [w - c s2 + c t0]: the attempt is accepted with one hint bit set,
    and [dilithiumVerify] accepts the signature.  The rejection above comes
    from the argument of [makeHint] in the listing, not from the
    primitives. *)
Lemma spec_hint_round_trip_accepted :
  let keys := dilithiumKeyGen 2 [7] in
  exists sig,
    sign_attempt_spec_hint (snd keys) (sign_mu [109] (snd keys)) 0 = Some sig
    /\ vectorWeight (h sig) = 1
    /\ dilithiumVerify [109] sig (fst keys) = true.
Proof.
  intros keys. eexists.
  split; [vm_compute; reflexivity|].
  vm_compute. repeat split.
Qed.

End LatticeRingFacts.

(** ** Coefficient compression *)

Module CompressorFacts.

Import Compressor.

Lemma round_div_bounds (a b : Z) :
  0 < b -> 2 * b * round_div a b <= 2 * a + b < 2 * b * round_div a b + 2 * b.
Proof.
  intros Hb. unfold round_div.
  pose proof (Z.div_mod (2 * a + b) (2 * b) ltac:(lia)) as Hdm.
  pose proof (Z.mod_pos_bound (2 * a + b) (2 * b) ltac:(lia)) as Hm.
  lia.
Qed.

Lemma quantize_range (x : Z) (bits : nat) :
  0 <= x < DILITHIUM_Q -> 0 <= quantize x bits < 2 ^ Z.of_nat bits.
Proof.
  intros Hx. unfold quantize.
  set (R := 2 ^ Z.of_nat bits).
  assert (HR : 0 < R) by (apply Z.pow_pos_nonneg; lia).
  pose proof (round_div_bounds (x * R) DILITHIUM_Q ltac:(reflexivity)) as Hv.
  assert (0 <= round_div (x * R) DILITHIUM_Q).
  { unfold round_div. apply Z.div_pos; unfold DILITHIUM_Q in *; nia. }
  rewrite Z.rem_mod_nonneg by lia.
  apply Z.mod_pos_bound. lia.
Qed.

Lemma cyclic_distance_le_abs (a b : Z) : cyclic_distance a b <= Z.abs (a - b).
Proof.
  unfold cyclic_distance.
  destruct (Z_le_gt_dec 0 (a - b)).
  - etransitivity; [apply Z.le_min_l|].
    rewrite Z.abs_eq by lia. apply Z.mod_le; [lia | reflexivity].
  - etransitivity; [apply Z.le_min_r|].
    rewrite Z.abs_neq by lia.
    etransitivity; [apply Z.mod_le; [lia | reflexivity] | lia].
Qed.

Lemma quantize_dequantize_error (x : Z) (bits : nat) :
  0 <= x < DILITHIUM_Q ->
  cyclic_distance x (dequantize (quantize x bits) bits)
  <= round_div DILITHIUM_Q (2 ^ (Z.of_nat bits + 1)).
Proof.
  intros Hx. unfold quantize, dequantize.
  set (R := 2 ^ Z.of_nat bits).
  assert (HR : 0 < R) by (apply Z.pow_pos_nonneg; lia).
  replace (2 ^ (Z.of_nat bits + 1)) with (2 * R)
    by (unfold R; rewrite Z.pow_add_r by lia; lia).
  pose proof (round_div_bounds (x * R) DILITHIUM_Q ltac:(reflexivity)) as Hv.
  set (v' := round_div (x * R) DILITHIUM_Q) in *.
  pose proof (round_div_bounds DILITHIUM_Q (2 * R) ltac:(lia)) as HB.
  set (B := round_div DILITHIUM_Q (2 * R)) in *.
  assert (Hv0 : 0 <= v').
  { unfold v', round_div. apply Z.div_pos; unfold DILITHIUM_Q in *; nia. }
  assert (HvR : v' <= R) by (unfold DILITHIUM_Q in *; nia).
  rewrite Z.rem_mod_nonneg by lia.
  destruct (Z.eq_dec v' R) as [E|NE].
  - rewrite E, Z.mod_same by lia.
    replace (round_div (0 * DILITHIUM_Q) R) with 0
      by (unfold round_div; rewrite Z.mul_0_l, Z.mul_0_r, Z.add_0_l;
          symmetry; apply Z.div_small; lia).
    unfold cyclic_distance.
    etransitivity; [apply Z.le_min_r|].
    replace ((0 - x) mod DILITHIUM_Q) with ((DILITHIUM_Q - x) mod DILITHIUM_Q).
    2:{ replace (DILITHIUM_Q - x) with (0 - x + 1 * DILITHIUM_Q) by lia.
        apply Z_mod_plus_full. }
    assert (DILITHIUM_Q - x <= B) by (unfold DILITHIUM_Q in *; nia).
    destruct (Z.eq_dec x 0) as [->|].
    + rewrite Z.sub_0_r, Z.mod_same by discriminate. unfold DILITHIUM_Q in *; nia.
    + rewrite Z.mod_small by lia. lia.
  - rewrite Z.mod_small by lia.
    pose proof (round_div_bounds (v' * DILITHIUM_Q) R HR) as Hx'.
    set (x' := round_div (v' * DILITHIUM_Q) R) in *.
    etransitivity; [apply cyclic_distance_le_abs|].
    apply Z.abs_le. unfold DILITHIUM_Q in *. split; nia.
Qed.

Lemma bit_set_testbit (x : Z) (n : nat) : bit_set x n = Z.testbit x (Z.of_nat n).
Proof.
  unfold bit_set.
  change 1 with (Z.ones 1). rewrite Z.land_ones by lia.
  change (2 ^ 1) with 2. rewrite <- Z.bit0_mod.
  rewrite Z.shiftr_spec by lia. rewrite Z.add_0_l.
  destruct (Z.testbit x (Z.of_nat n)); reflexivity.
Qed.

Lemma byte_at_insert_eq (c : list Z) (i : nat) (v : Z) :
  (i < length c)%nat -> byte_at (<[i := v]> c) i = v.
Proof.
  intros Hi. unfold byte_at. rewrite list_lookup_insert_eq by exact Hi. reflexivity.
Qed.

Lemma byte_at_insert_ne (c : list Z) (i j : nat) (v : Z) :
  i <> j -> byte_at (<[i := v]> c) j = byte_at c j.
Proof.
  intros Hij. unfold byte_at. rewrite list_lookup_insert_ne by exact Hij. reflexivity.
Qed.

Lemma bit_at_or_bit (c : list Z) (j0 j : nat) :
  (j0 / 8 < length c)%nat ->
  bit_at (or_bit c j0) j = if Nat.eqb j j0 then true else bit_at c j.
Proof.
  intros Hlen. unfold bit_at, or_bit.
  assert (Hm : (j mod 8 < 8)%nat) by (apply Nat.mod_upper_bound; lia).
  assert (Hm0 : (j0 mod 8 < 8)%nat) by (apply Nat.mod_upper_bound; lia).
  pose proof (Nat.div_mod_eq j 8) as Hj. pose proof (Nat.div_mod_eq j0 8) as Hj0.
  destruct (Nat.eq_dec (j0 / 8)%nat (j / 8)%nat) as [E|NE].
  - rewrite <- E, byte_at_insert_eq by exact Hlen.
    rewrite Z.land_spec, Z.lor_spec, Z.shiftl_1_l, Z.pow2_bits_eqb by lia.
    change 255 with (Z.ones 8). rewrite Z.ones_spec_low by lia.
    rewrite andb_true_r.
    destruct (Nat.eqb_spec j j0) as [->|Hne].
    + rewrite Z.eqb_refl. apply orb_true_r.
    + destruct (Z.eqb_spec (Z.of_nat (j0 mod 8)) (Z.of_nat (j mod 8))); [lia|].
      apply orb_false_r.
  - rewrite byte_at_insert_ne by exact NE.
    destruct (Nat.eqb_spec j j0) as [->|Hne]; [congruence | reflexivity].
Qed.

Lemma or_bit_length (c : list Z) (j : nat) : length (or_bit c j) = length c.
Proof. unfold or_bit. apply length_insert. Qed.

Lemma pack_bits_spec (q : Z) (n : nat) :
  forall (s : nat) (c : list Z) (off : nat),
  (off + n <= 8 * length c)%nat ->
  let st := fold_left (pack_bit q) (seq s n) (c, off) in
  snd st = (off + n)%nat
  /\ length (fst st) = length c
  /\ forall j, bit_at (fst st) j
               = if (off <=? j)%nat && (j <? off + n)%nat
                 then Z.testbit q (Z.of_nat (s + (j - off))) || bit_at c j
                 else bit_at c j.
Proof.
  induction n as [|n IH]; intros s c off Hlen st.
  - subst st. cbn [seq fold_left fst snd]. split; [lia|]. split; [reflexivity|].
    intros j. destruct (Nat.leb_spec off j), (Nat.ltb_spec j (off + 0));
      cbn [andb]; try reflexivity; lia.
  - subst st. cbn [seq fold_left pack_bit fst snd].
    set (c1 := if bit_set q s then or_bit c off else c).
    assert (Hl1 : length c1 = length c)
      by (unfold c1; destruct (bit_set q s); [apply or_bit_length | reflexivity]).
    destruct (IH (S s) c1 (S off)) as (Hoff & Hl & Hbits); [lia|].
    split; [lia|]. split; [congruence|].
    intros j. rewrite Hbits.
    assert (Hc1 : bit_at c1 j
                  = if Nat.eqb j off then Z.testbit q (Z.of_nat s) || bit_at c j
                    else bit_at c j).
    { unfold c1. rewrite bit_set_testbit.
      destruct (Z.testbit q (Z.of_nat s)).
      - rewrite bit_at_or_bit.
        + destruct (Nat.eqb j off); reflexivity.
        + apply Nat.Div0.div_lt_upper_bound. lia.
      - destruct (Nat.eqb_spec j off); reflexivity. }
    rewrite Hc1.
    destruct (Nat.eqb_spec j off) as [E|Hne]; [subst j|].
    + replace (S off <=? off)%nat with false by (symmetry; apply Nat.leb_gt; lia).
      replace (off <=? off)%nat with true by (symmetry; apply Nat.leb_le; lia).
      replace (off <? off + S n)%nat with true by (symmetry; apply Nat.ltb_lt; lia).
      cbn [andb]. rewrite Nat.sub_diag, Nat.add_0_r. reflexivity.
    + destruct (Nat.leb_spec (S off) j), (Nat.leb_spec off j),
        (Nat.ltb_spec j (S off + n)), (Nat.ltb_spec j (off + S n));
        cbn [andb]; try lia; try reflexivity.
      replace (S s + (j - S off))%nat with (s + (j - off))%nat by lia.
      reflexivity.
Qed.

Lemma pack_coeffs_spec (poly : list Z) (bits n : nat) :
  forall (s : nat) (c : list Z) (off : nat),
  (off + n * bits <= 8 * length c)%nat ->
  (forall j, (off <= j)%nat -> bit_at c j = false) ->
  let st := fold_left (pack_coeff poly bits) (seq s n) (c, off) in
  snd st = (off + n * bits)%nat
  /\ length (fst st) = length c
  /\ (forall i b, (i < n)%nat -> (b < bits)%nat ->
        bit_at (fst st) (off + i * bits + b)
        = Z.testbit (quantize (coeff poly (s + i)) bits) (Z.of_nat b))
  /\ (forall j, (j < off)%nat -> bit_at (fst st) j = bit_at c j)
  /\ (forall j, (off + n * bits <= j)%nat -> bit_at (fst st) j = false).
Proof.
  induction n as [|n IH]; intros s c off Hlen Hzero st.
  - subst st. cbn [seq fold_left fst snd Nat.mul]. split; [lia|].
    split; [reflexivity|]. split; [intros i b Hi; lia|].
    split; [reflexivity|]. intros j Hj. apply Hzero. lia.
  - subst st. cbn [seq fold_left].
    change (pack_coeff poly bits (c, off) s)
      with (fold_left (pack_bit (quantize (coeff poly s) bits)) (seq 0 bits) (c, off)).
    pose proof (pack_bits_spec (quantize (coeff poly s) bits) bits 0 c off
                  ltac:(cbn [Nat.mul] in Hlen; lia)) as Hp.
    cbv zeta in Hp.
    destruct (fold_left (pack_bit (quantize (coeff poly s) bits)) (seq 0 bits) (c, off))
      as [c1 off1] eqn:E1.
    cbn [fst snd] in Hp. destruct Hp as (-> & Hl1 & Hb1).
    destruct (IH (S s) c1 (off + bits)%nat) as (Hoff & Hl & Hbits & Hlow & Hhigh).
    { rewrite Hl1. cbn [Nat.mul] in Hlen. lia. }
    { intros j Hj. rewrite Hb1.
      replace (j <? off + bits)%nat with false by (symmetry; apply Nat.ltb_ge; lia).
      rewrite andb_false_r. apply Hzero. lia. }
    split; [rewrite Hoff; cbn [Nat.mul]; lia|].
    split; [congruence|].
    split; [|split].
    + intros i b Hi Hb. destruct i as [|i].
      * rewrite Nat.mul_0_l, !Nat.add_0_r.
        rewrite Hlow by lia. rewrite Hb1.
        replace (off <=? off + b)%nat with true by (symmetry; apply Nat.leb_le; lia).
        replace (off + b <? off + bits)%nat with true by (symmetry; apply Nat.ltb_lt; lia).
        cbn [andb]. rewrite Hzero by lia. rewrite orb_false_r.
        do 2 f_equal. lia.
      * replace (off + S i * bits + b)%nat with (off + bits + i * bits + b)%nat
          by (cbn [Nat.mul]; lia).
        rewrite Hbits by lia. do 3 f_equal. lia.
    + intros j Hj. rewrite Hlow by lia. rewrite Hb1.
      replace (off <=? j)%nat with false by (symmetry; apply Nat.leb_gt; lia).
      reflexivity.
    + intros j Hj. apply Hhigh. cbn [Nat.mul] in Hj. lia.
Qed.

Lemma bit_at_zeros (n j : nat) : bit_at (replicate n 0) j = false.
Proof.
  unfold bit_at, byte_at.
  destruct (replicate n 0 !! (j / 8)%nat) as [x|] eqn:E.
  - apply lookup_replicate in E as [-> _]. apply Z.testbit_0_l.
  - apply Z.testbit_0_l.
Qed.

Lemma compressPolynomial_bits (poly : list Z) (bits i b : nat) :
  (i < 256)%nat -> (b < bits)%nat ->
  bit_at (compressPolynomial poly bits) (i * bits + b)
  = Z.testbit (quantize (coeff poly i) bits) (Z.of_nat b).
Proof.
  intros Hi Hb. unfold compressPolynomial.
  pose proof (pack_coeffs_spec poly bits 256 0
                (replicate (Z.to_nat ((256 * Z.of_nat bits + 7) / 8)) 0) 0) as H.
  cbv zeta in H.
  destruct H as (_ & _ & Hbits & _).
  - rewrite length_replicate.
    assert (256 * Z.of_nat bits <= 8 * ((256 * Z.of_nat bits + 7) / 8)).
    { pose proof (Z.div_mod (256 * Z.of_nat bits + 7) 8 ltac:(lia)).
      pose proof (Z.mod_pos_bound (256 * Z.of_nat bits + 7) 8 ltac:(lia)). lia. }
    lia.
  - intros j _. apply bit_at_zeros.
  - specialize (Hbits i b Hi Hb). rewrite !Nat.add_0_l in Hbits. exact Hbits.
Qed.

Lemma unpack_bits_spec (c : list Z) (n : nat) :
  forall (s : nat) (v : Z) (off : nat),
  let st := fold_left (unpack_bit c) (seq s n) (v, off) in
  snd st = (off + n)%nat
  /\ forall b : nat,
       Z.testbit (fst st) (Z.of_nat b)
       = if (s <=? b)%nat && (b <? s + n)%nat
         then bit_at c (off + (b - s)) || Z.testbit v (Z.of_nat b)
         else Z.testbit v (Z.of_nat b).
Proof.
  induction n as [|n IH]; intros s v off st.
  - subst st. cbn [seq fold_left fst snd]. split; [lia|].
    intros b. destruct (Nat.leb_spec s b), (Nat.ltb_spec b (s + 0));
      cbn [andb]; try reflexivity; lia.
  - subst st. cbn [seq fold_left unpack_bit].
    rewrite bit_set_testbit. fold (bit_at c off).
    set (v1 := if bit_at c off then Z.lor v (Z.shiftl 1 (Z.of_nat s)) else v).
    destruct (IH (S s) v1 (S off)) as (Hoff & Hbits).
    split; [lia|]. intros b. rewrite Hbits.
    assert (Hv1 : Z.testbit v1 (Z.of_nat b)
                  = if Nat.eqb b s then bit_at c off || Z.testbit v (Z.of_nat b)
                    else Z.testbit v (Z.of_nat b)).
    { unfold v1. destruct (bit_at c off).
      - rewrite Z.lor_spec, Z.shiftl_1_l, Z.pow2_bits_eqb by lia.
        destruct (Nat.eqb_spec b s) as [E|NE].
        + subst b. rewrite Z.eqb_refl. apply orb_true_r.
        + destruct (Z.eqb_spec (Z.of_nat s) (Z.of_nat b)); [lia|]. apply orb_false_r.
      - destruct (Nat.eqb b s); reflexivity. }
    rewrite Hv1.
    destruct (Nat.eqb_spec b s) as [E|NE]; [subst b|].
    + replace (S s <=? s)%nat with false by (symmetry; apply Nat.leb_gt; lia).
      replace (s <=? s)%nat with true by (symmetry; apply Nat.leb_le; lia).
      replace (s <? s + S n)%nat with true by (symmetry; apply Nat.ltb_lt; lia).
      cbn [andb]. rewrite Nat.sub_diag, Nat.add_0_r. reflexivity.
    + destruct (Nat.leb_spec (S s) b), (Nat.leb_spec s b),
        (Nat.ltb_spec b (S s + n)), (Nat.ltb_spec b (s + S n));
        cbn [andb]; try lia; try reflexivity.
      replace (S off + (b - S s))%nat with (off + (b - s))%nat by lia.
      reflexivity.
Qed.

Lemma value_at_bits (c : list Z) (bits off : nat) (b : nat) :
  Z.testbit (value_at c bits off) (Z.of_nat b)
  = (b <? bits)%nat && bit_at c (off + b).
Proof.
  unfold value_at.
  destruct (unpack_bits_spec c bits 0 0 off) as (_ & Hb).
  rewrite Hb. rewrite Z.testbit_0_l, orb_false_r, Nat.sub_0_r.
  cbn [Nat.leb andb Nat.add].
  destruct (b <? bits)%nat; reflexivity.
Qed.

Lemma value_at_compressed (poly : list Z) (bits i : nat) :
  (i < 256)%nat -> 0 <= coeff poly i < DILITHIUM_Q ->
  value_at (compressPolynomial poly bits) bits (i * bits)
  = quantize (coeff poly i) bits.
Proof.
  intros Hi Hx. apply Z.bits_inj'. intros n Hn.
  rewrite <- (Z2Nat.id n Hn). rewrite value_at_bits.
  destruct (Nat.ltb_spec (Z.to_nat n) bits) as [Hlt|Hge]; cbn [andb].
  - apply compressPolynomial_bits; assumption.
  - symmetry.
    pose proof (quantize_range (coeff poly i) bits Hx) as Hq.
    destruct (Z.eq_dec (quantize (coeff poly i) bits) 0) as [->|Hne];
      [apply Z.testbit_0_l|].
    apply Z.bits_above_log2; [lia|].
    apply Z.log2_lt_pow2; [lia|].
    eapply Z.lt_le_trans; [apply Hq|].
    apply Z.pow_le_mono_r; lia.
Qed.

Lemma unpack_coeffs_spec (c : list Z) (bits n : nat) :
  forall (s : nat) (poly : list Z) (off : nat),
  (s + n <= length poly)%nat ->
  let st := fold_left (unpack_coeff c bits) (seq s n) (poly, off) in
  snd st = (off + n * bits)%nat
  /\ length (fst st) = length poly
  /\ (forall i, (i < n)%nat ->
        fst st !! (s + i)%nat
        = Some (dequantize (value_at c bits (off + i * bits)) bits))
  /\ (forall j, (j < s)%nat -> fst st !! j = poly !! j).
Proof.
  induction n as [|n IH]; intros s poly off Hlen st.
  - subst st. cbn [seq fold_left fst snd Nat.mul]. split; [lia|].
    split; [reflexivity|]. split; [intros i Hi; lia | reflexivity].
  - subst st. cbn [seq fold_left].
    change (unpack_coeff c bits (poly, off) s)
      with (let '(value, bitOffset) :=
              fold_left (unpack_bit c) (seq 0 bits) (0, off) in
            (<[ s := dequantize value bits ]> poly, bitOffset)).
    destruct (unpack_bits_spec c bits 0 0 off) as (Hoff1 & _).
    pose proof (eq_refl : value_at c bits off
                  = fst (fold_left (unpack_bit c) (seq 0 bits) (0, off))) as Hval.
    destruct (fold_left (unpack_bit c) (seq 0 bits) (0, off)) as [value off1] eqn:E1.
    cbn [fst snd] in Hoff1, Hval. subst off1.
    destruct (IH (S s) (<[s := dequantize value bits]> poly) (off + bits)%nat)
      as (Hoff & Hl & Hvals & Hlow).
    { rewrite length_insert. lia. }
    split; [rewrite Hoff; cbn [Nat.mul]; lia|].
    split; [rewrite Hl; apply length_insert|].
    split.
    + intros i Hi. destruct i as [|i].
      * rewrite Nat.add_0_r, Nat.mul_0_l, Nat.add_0_r.
        rewrite Hlow by lia. rewrite list_lookup_insert_eq by lia.
        rewrite Hval. reflexivity.
      * replace (s + S i)%nat with (S s + i)%nat by lia.
        rewrite Hvals by lia. do 3 f_equal. cbn [Nat.mul]. lia.
    + intros j Hj. rewrite Hlow by lia.
      apply list_lookup_insert_ne. lia.
Qed.

Lemma decompressPolynomial_lookup (c : list Z) (bits i : nat) :
  (i < 256)%nat ->
  decompressPolynomial c bits !! i
  = Some (dequantize (value_at c bits (i * bits)) bits).
Proof.
  intros Hi. unfold decompressPolynomial.
  destruct (unpack_coeffs_spec c bits 256 0 (replicate 256 0) 0) as (_ & _ & H & _).
  - rewrite length_replicate. lia.
  - specialize (H i Hi). rewrite !Nat.add_0_l in H. exact H.
Qed.

Lemma round_bound_is_floor (bits : nat) :
  (1 <= bits <= 12)%nat ->
  round_div DILITHIUM_Q (2 ^ (Z.of_nat bits + 1)) * 2 ^ (Z.of_nat bits + 1)
  <= DILITHIUM_Q.
Proof.
  intros Hb.
  assert (Hcases : (bits = 1 \/ bits = 2 \/ bits = 3 \/ bits = 4 \/ bits = 5
                    \/ bits = 6 \/ bits = 7 \/ bits = 8 \/ bits = 9 \/ bits = 10
                    \/ bits = 11 \/ bits = 12)%nat) by lia.
  repeat (destruct Hcases as [-> | Hcases]; [vm_compute; discriminate|]).
  subst bits. vm_compute. discriminate.
Qed.

(** C8, as the code has it.  For a polynomial of 256 coefficients in
    [[0, q)] and a width of at most 28 bits, every coefficient of
    [decompressPolynomial(compressPolynomial(x))] is the dequantized
    quantization of the coefficient of [x], and the two differ, as residues
    modulo [q], by at most [q / 2^(bits+1)] rounded to the nearest integer;
    for widths 1 to 12 that is at most [q / 2^(bits+1)]. *)
Theorem roundtrip_error_modulo_q (poly : list Z) (bits : nat) :
  length poly = 256%nat ->
  (forall i x, poly !! i = Some x -> 0 <= x < DILITHIUM_Q) ->
  (bits <= 28)%nat ->
  forall i, (i < 256)%nat ->
  exists x x',
    poly !! i = Some x
    /\ decompressPolynomial (compressPolynomial poly bits) bits !! i = Some x'
    /\ x' = dequantize (quantize x bits) bits
    /\ cyclic_distance x x' <= round_div DILITHIUM_Q (2 ^ (Z.of_nat bits + 1))
    /\ ((1 <= bits <= 12)%nat ->
        cyclic_distance x x' * 2 ^ (Z.of_nat bits + 1) <= DILITHIUM_Q).
Proof.
  intros Hlen Hrange Hbits i Hi.
  destruct (lookup_lt_is_Some_2 poly i) as (x & Hx); [lia|].
  assert (Hc : coeff poly i = x) by (unfold coeff; rewrite Hx; reflexivity).
  pose proof (Hrange i x Hx) as Hxr.
  exists x, (dequantize (quantize x bits) bits).
  split; [exact Hx|]. split.
  - rewrite decompressPolynomial_lookup by exact Hi.
    rewrite value_at_compressed by (rewrite ?Hc; assumption).
    rewrite Hc. reflexivity.
  - split; [reflexivity|].
    pose proof (quantize_dequantize_error x bits Hxr) as Herr.
    split; [exact Herr|].
    intros Hb. pose proof (round_bound_is_floor bits Hb) as Hfloor.
    assert (0 < 2 ^ (Z.of_nat bits + 1)) by (apply Z.pow_pos_nonneg; lia).
    nia.
Qed.

(** The constant polynomial [q - 1] at eight bits per coefficient. *)
Lemma roundtrip_error_modulo_q_witness :
  length (replicate 256 8380416) = 256%nat
  /\ (forall i x, replicate 256 8380416 !! i = Some x -> 0 <= x < DILITHIUM_Q)
  /\ (8 <= 28)%nat /\ (0 < 256)%nat
  /\ exists x x',
       replicate 256 8380416 !! 0%nat = Some x
       /\ decompressPolynomial (compressPolynomial (replicate 256 8380416) 8) 8 !! 0%nat
          = Some x'
       /\ cyclic_distance x x' <= round_div DILITHIUM_Q (2 ^ (Z.of_nat 8 + 1)).
Proof.
  assert (Hr : forall i x, replicate 256 8380416 !! i = Some x -> 0 <= x < DILITHIUM_Q).
  { intros i x Hx. apply lookup_replicate in Hx as [-> _].
    unfold DILITHIUM_Q. lia. }
  split; [reflexivity|]. split; [exact Hr|]. split; [lia|]. split; [lia|].
  destruct (roundtrip_error_modulo_q (replicate 256 8380416) 8 eq_refl Hr
              ltac:(lia) 0%nat ltac:(lia))
    as (x & x' & Hx & Hx' & _ & Herr & _).
  exists x, x'. split; [exact Hx|]. split; [exact Hx' | exact Herr].
Defined.

(** At 8 bits the coefficient [q - 1] is quantized to [2^8], which the
    reduction [% range] wraps to 0: the constant polynomial [q - 1] comes
    back as 0, a difference of [q - 1], far above [q / 2^9].  Away from the
    wrap, the rounding of the dequantization can exceed the real bound by a
    fraction: at 22 bits the coefficient 1 comes back as 2, while
    [q / 2^23 < 1]. *)
Lemma roundtrip_error_exceeds_bound :
  let poly := replicate 256 8380416 in
  let poly' := decompressPolynomial (compressPolynomial poly 8) 8 in
  let ones := replicate 256 1 in
  let ones' := decompressPolynomial (compressPolynomial ones 22) 22 in
  (forall i x, poly !! i = Some x -> 0 <= x < DILITHIUM_Q)
  /\ poly !! 0%nat = Some 8380416
  /\ poly' !! 0%nat = Some 0
  /\ DILITHIUM_Q < Z.abs (8380416 - 0) * 2 ^ (8 + 1)
  /\ ones !! 0%nat = Some 1
  /\ ones' !! 0%nat = Some 2
  /\ DILITHIUM_Q < Z.abs (1 - 2) * 2 ^ (22 + 1).
Proof.
  split.
  - intros i x Hx. apply lookup_replicate in Hx as [-> _].
    unfold DILITHIUM_Q. lia.
  - vm_compute. repeat split; reflexivity.
Qed.

End CompressorFacts.


(** ** Hints *)

Module HintFacts.

Import Hint.

Section Decompose.

Variable gamma2 : Z.
Hypothesis Hvalid : valid_gamma2 gamma2.

Local Abbreviation alpha := (width gamma2).
Local Abbreviation m := (buckets gamma2).

Lemma q_split : q - 1 = m * alpha /\ 0 < gamma2 /\ 2 <= m.
Proof.
  destruct Hvalid as (Hpos & Hdiv & Hm).
  unfold buckets, width. split; [|split; assumption].
  pose proof (Z.div_mod (q - 1) (2 * gamma2) ltac:(lia)) as H. lia.
Qed.

Lemma in_bucket_fold (j t : Z) :
  0 <= j < m /\ t <= gamma2 /\ (if j =? 0 then - gamma2 <= t else - gamma2 < t) ->
  in_bucket gamma2 j t.
Proof. intros Hb. exact Hb. Qed.

Lemma in_bucket_unfold (j t : Z) :
  in_bucket gamma2 j t ->
  0 <= j < m /\ t <= gamma2 /\ (if j =? 0 then - gamma2 <= t else - gamma2 < t).
Proof. intros Hb. exact Hb. Qed.

Lemma mod_pm_small (t : Z) :
  - gamma2 < t <= gamma2 -> forall j, mod_pm (j * alpha + t) alpha = t.
Proof.
  destruct q_split as (_ & Hg & _). intros Ht j. unfold mod_pm.
  replace (alpha / 2) with gamma2
    by (unfold width; rewrite Z.mul_comm, Z.div_mul; lia).
  rewrite Z.add_comm, Z_mod_plus_full.
  destruct (Z_le_gt_dec 0 t).
  - rewrite Z.mod_small by (unfold width; lia).
    destruct (Z.gtb_spec t gamma2); lia.
  - replace (t mod alpha) with (t + alpha).
    2:{ apply (Z.mod_unique _ _ (-1)); unfold width; lia. }
    destruct (Z.gtb_spec (t + alpha) gamma2); unfold width in *; lia.
Qed.

Lemma decompose_unique (j t k : Z) :
  in_bucket gamma2 j t -> decompose (j * alpha + t + k * q) gamma2 = (j, t).
Proof.
  destruct q_split as (Hq & Hg & Hm).
  intros (Hj & Htu & Htl)%in_bucket_unfold.
  unfold decompose. fold (width gamma2). rewrite Z_mod_plus_full.
  assert (Hqpos : 0 < q) by reflexivity.
  assert (Hgq : 4 * gamma2 <= q - 1) by (unfold width in Hq; nia).
  destruct (Z_le_gt_dec 0 (j * alpha + t)) as [Hnn|Hneg].
  - assert (Hlt : j * alpha + t < q - 1) by (unfold width in *; nia).
    rewrite Z.mod_small by lia.
    assert (Ht : - gamma2 < t <= gamma2).
    { destruct (Z.eqb_spec j 0); [subst j|]; lia. }
    rewrite (mod_pm_small t Ht j).
    replace (j * alpha + t - t) with (j * alpha) by lia.
    destruct (Z.eqb_spec (j * alpha) (q - 1)) as [E|_];
      [rewrite Hq in E; apply Z.mul_cancel_r in E; unfold width; lia|].
    rewrite Z.div_mul by (unfold width; lia). reflexivity.
  - assert (j = 0) by (destruct (Z.eqb_spec j 0); [assumption | unfold width in *; nia]).
    subst j.
    cbn [Z.eqb] in Htl. rewrite Z.mul_0_l, Z.add_0_l in *.
    replace (t mod q) with (q + t)
      by (apply (Z.mod_unique _ _ (-1)); lia).
    cbv zeta.
    replace (mod_pm (q + t) alpha) with (t + 1).
    2:{ replace (q + t) with (m * alpha + (t + 1)) by lia.
        symmetry. apply mod_pm_small. lia. }
    replace (q + t - (t + 1)) with (q - 1) by lia.
    rewrite Z.eqb_refl. f_equal. lia.
Qed.

Lemma decompose_exists (r : Z) :
  exists j t k, in_bucket gamma2 j t /\ r = j * alpha + t + k * q.
Proof.
  destruct q_split as (Hq & Hg & Hm).
  assert (Hqpos : 0 < q) by reflexivity.
  pose proof (Z.div_mod r q ltac:(lia)) as Hr.
  pose proof (Z.mod_pos_bound r q Hqpos) as Hrb.
  set (rp := r mod q) in *.
  assert (Ha : 0 < alpha) by (unfold width; lia).
  pose proof (Z.div_mod (rp + gamma2 - 1) alpha ltac:(lia)) as Hd.
  pose proof (Z.mod_pos_bound (rp + gamma2 - 1) alpha Ha) as Hdb.
  set (j0 := (rp + gamma2 - 1) / alpha) in *.
  set (u := (rp + gamma2 - 1) mod alpha) in *.
  (* rp = j0 * alpha + (u + 1 - gamma2), with the offset in (-gamma2, gamma2] *)
  assert (Hj0 : 0 <= j0 <= m) by (unfold width in *; nia).
  destruct (Z.eq_dec j0 m) as [E|NE].
  - exists 0, (u - gamma2), (r / q + 1).
    split.
    + apply in_bucket_fold. cbn [Z.eqb]. unfold width in *. nia.
    + unfold width in *. nia.
  - exists j0, (u + 1 - gamma2), (r / q).
    split.
    + apply in_bucket_fold. split; [lia|]. split; [unfold width in *; lia|].
      destruct (j0 =? 0); unfold width in *; lia.
    + unfold width in *. nia.
Qed.

Lemma makeHint_useHint_identity (z r : Z) :
  - gamma2 <= z <= gamma2 ->
  useHint (makeHint z r gamma2) r gamma2 = highBits (r + z) gamma2.
Proof.
  destruct q_split as (Hq & Hg & Hm). intros Hz.
  destruct (decompose_exists r) as (j & t & k & Hb & ->).
  pose proof (decompose_unique j t k Hb) as Hr.
  unfold useHint, makeHint, highBits. fold (width gamma2). fold (buckets gamma2). rewrite Hr. cbn [fst].
  destruct (in_bucket_unfold _ _ Hb) as (Hj & Htu & Htl).
  assert (Hcase :
    exists j' t' k', in_bucket gamma2 j' t'
      /\ j * alpha + t + k * q + z = j' * alpha + t' + k' * q
      /\ (j' = j
          \/ (0 < t /\ j' = (j + 1) mod m /\ j' <> j)
          \/ (t <= 0 /\ j' = (j - 1) mod m /\ j' <> j))).
  { destruct (Z.eqb_spec j 0) as [Ej|Nj].
    - subst j.
      destruct (Z_lt_ge_dec (t + z) (- gamma2)) as [Hlow|Hnl].
      + exists (m - 1), (t + z + alpha + 1), (k - 1).
        split; [|split].
        * apply in_bucket_fold. split; [lia|]. split; [unfold width; lia|].
          destruct (Z.eqb_spec (m - 1) 0); unfold width; lia.
        * unfold width in *. lia.
        * right. right. split; [lia|]. split; [|lia].
          replace (0 - 1) with (m - 1 + (-1) * m) by lia.
          rewrite Z_mod_plus_full. symmetry. apply Z.mod_small. lia.
      + destruct (Z_le_gt_dec (t + z) gamma2) as [Hin|Hup].
        * exists 0, (t + z), k. split; [|split; [lia | left; reflexivity]].
          apply in_bucket_fold. cbn [Z.eqb]. lia.
        * exists 1, (t + z - alpha), k.
          split; [|split].
          -- apply in_bucket_fold. cbn [Z.eqb]. unfold width. lia.
          -- unfold width. lia.
          -- right. left. split; [lia|]. split; [|lia].
             symmetry. apply Z.mod_small. lia.
    - destruct (Z_le_gt_dec (t + z) (- gamma2)) as [Hlow|Hnl].
      + exists (j - 1), (t + z + alpha), k.
        split; [|split].
        * apply in_bucket_fold. split; [lia|]. split; [unfold width; lia|].
          destruct (Z.eqb_spec (j - 1) 0); unfold width; lia.
        * unfold width. lia.
        * right. right. split; [lia|]. split; [|lia].
          symmetry. apply Z.mod_small. lia.
      + destruct (Z_le_gt_dec (t + z) gamma2) as [Hin|Hup].
        * exists j, (t + z), k. split; [|split; [lia | left; reflexivity]].
          apply in_bucket_fold. split; [lia|]. split; [lia|].
          destruct (Z.eqb_spec j 0); lia.
        * destruct (Z.eq_dec (j + 1) m) as [Em|Nm].
          -- exists 0, (t + z - alpha - 1), (k + 1).
             split; [|split].
             ++ apply in_bucket_fold. cbn [Z.eqb]. unfold width. lia.
             ++ replace j with (m - 1) by lia. unfold width in *. lia.
             ++ right. left. split; [lia|]. split; [|lia].
                rewrite Em. symmetry. apply Z.mod_same. lia.
          -- exists (j + 1), (t + z - alpha), k.
             split; [|split].
             ++ apply in_bucket_fold. split; [lia|]. split; [unfold width; lia|].
                destruct (Z.eqb_spec (j + 1) 0); unfold width; lia.
             ++ unfold width. lia.
             ++ right. left. split; [lia|]. split; [|lia].
                symmetry. apply Z.mod_small. lia. }
  destruct Hcase as (j' & t' & k' & Hb' & -> & Hrel).
  rewrite (decompose_unique j' t' k' Hb'). cbn [fst].
  destruct Hrel as [-> | [(Ht & Hj' & Hne) | (Ht & Hj' & Hne)]].
  - rewrite Z.eqb_refl. reflexivity.
  - destruct (Z.eqb_spec j j'); [congruence|]. cbn [negb andb].
    destruct (Z.gtb_spec t 0); [symmetry; exact Hj' | lia].
  - destruct (Z.eqb_spec j j'); [congruence|]. cbn [negb andb].
    destruct (Z.gtb_spec t 0); [lia | symmetry; exact Hj'].
Qed.

End Decompose.

Lemma gamma2_low_valid : valid_gamma2 gamma2_low.
Proof. vm_compute. repeat split; discriminate. Qed.

Lemma gamma2_high_valid : valid_gamma2 gamma2_high.
Proof. vm_compute. repeat split; discriminate. Qed.

(** C6, corrected.  For an admissible [gamma2], every [r] and every [z]
    with [|z| <= gamma2], the hint computed from [(z, r)] and applied to [r]
    recovers the high bits of [r + z]:
    [useHint(makeHint(z, r, gamma2), r, gamma2) = highBits(r + z)]. *)
Theorem useHint_makeHint_recovers_highBits (gamma2 z r : Z) :
  valid_gamma2 gamma2 ->
  - gamma2 <= z <= gamma2 ->
  useHint (makeHint z r gamma2) r gamma2 = highBits (r + z) gamma2.
Proof.
  intros Hvalid Hz. apply makeHint_useHint_identity; assumption.
Qed.

(** The first parameter set, at the upper edge of bucket 0. *)
Lemma useHint_makeHint_recovers_highBits_witness :
  valid_gamma2 gamma2_low
  /\ - gamma2_low <= 1 <= gamma2_low
  /\ useHint (makeHint 1 95232 gamma2_low) 95232 gamma2_low
     = highBits (95232 + 1) gamma2_low.
Proof.
  split; [exact gamma2_low_valid|].
  split; [change gamma2_low with 95232; lia|].
  apply useHint_makeHint_recovers_highBits.
  - exact gamma2_low_valid.
  - change gamma2_low with 95232. lia.
Defined.

(** With the hint applied to [r + z] instead of [r] the identity fails as
    soon as the hint bit is set: for [gamma2 = (q - 1) / 88], [r = gamma2]
    and [z = 1] the hint is 1, [highBits(r + z) = 1], and [useHint] on
    [r + z] steps back to 0. *)
Lemma useHint_on_sum_misses_highBits :
  valid_gamma2 gamma2_low
  /\ - gamma2_low <= 1 <= gamma2_low
  /\ 0 <= 95232 < q
  /\ makeHint 1 95232 gamma2_low = true
  /\ useHint (makeHint 1 95232 gamma2_low) (95232 + 1) gamma2_low
     <> highBits (95232 + 1) gamma2_low.
Proof.
  split; [exact gamma2_low_valid|].
  split; [change gamma2_low with 95232; lia|].
  split; [unfold q; lia|].
  split; [vm_compute; reflexivity|].
  vm_compute. discriminate.
Qed.

End HintFacts.

(** ** The rest of the simulation *)

Module SimMoreFacts.

Import Sim SimMore.
Local Open Scope sim_scope.

Lemma all_hex_append (a b : string) :
  all_hex (String.append a b) = all_hex a && all_hex b.
Proof.
  induction a as [|c a IH]; [reflexivity|].
  rewrite SimFacts.append_cons. cbn [all_hex].
  destruct (index 0 (String c "") chars); [exact IH | reflexivity].
Qed.

Lemma char_at_chars_hex (i : Z) :
  0 <= i < 16 -> all_hex (char_at chars i) = true.
Proof.
  intros Hi.
  assert (Hcases : i = 0 \/ i = 1 \/ i = 2 \/ i = 3 \/ i = 4 \/ i = 5 \/ i = 6
                   \/ i = 7 \/ i = 8 \/ i = 9 \/ i = 10 \/ i = 11 \/ i = 12
                   \/ i = 13 \/ i = 14 \/ i = 15) by lia.
  repeat (destruct Hcases as [-> | Hcases]; [reflexivity|]).
  subst i. reflexivity.
Qed.

Lemma drawn_digits_hex (w : World) (count : nat) :
  forall from, all_hex (drawn_digits w from count) = true.
Proof.
  induction count as [|count IH]; intros from; [reflexivity|].
  cbn [drawn_digits]. rewrite all_hex_append, IH, andb_true_r.
  apply char_at_chars_hex, SimFacts.floor_scaled_16_range.
Qed.

(** [generateRandomHex(length)] for an integer [length] returns, in every
    state of the random source, a string of exactly [length] characters
    (none when [length <= 0]), each one of [0123456789abcdef] and never the
    text of [undefined]; it consumes one draw per character and no time. *)
Theorem generateRandomHex_shape (length : Z) (w : World) :
  exists s w',
    generateRandomHex length w = (Returned s, w')
    /\ String.length s = Z.to_nat length
    /\ all_hex s = true
    /\ advanced w w' (Z.to_nat length)
    /\ elapsed w' = elapsed w
    /\ (length <= 0 -> s = "" /\ cursor w' = cursor w).
Proof.
  destruct (SimFacts.generateRandomHex_run length w) as (w' & Hrun & Hadv & Hel).
  exists (drawn_digits w 0 (Z.to_nat length)), w'.
  split; [exact Hrun|].
  split; [apply SimFacts.drawn_digits_length|].
  split; [apply drawn_digits_hex|].
  split; [exact Hadv|]. split; [exact Hel|].
  intros Hneg. destruct Hadv as [_ Hc].
  replace (Z.to_nat length) with 0%nat in * by lia.
  split; [reflexivity | lia].
Qed.

(** The sizes of a variant's key specification. *)
Lemma keySpecs_cases (variant : string) :
  let spec := default dilithium3_spec (keySpecs !! variant) in
  (variant = "dilithium2" /\ spec_publicKeySize spec = 1312
   /\ spec_privateKeySize spec = 2528 /\ spec_securityLevel spec = "Level 1")
  \/ (variant = "dilithium5" /\ spec_publicKeySize spec = 2592
      /\ spec_privateKeySize spec = 4864 /\ spec_securityLevel spec = "Level 5")
  \/ (variant <> "dilithium2" /\ variant <> "dilithium5"
      /\ spec = dilithium3_spec).
Proof.
  intros spec. subst spec. unfold keySpecs.
  destruct (decide (variant = "dilithium2")) as [->|N2].
  { left. rewrite lookup_insert_eq. cbn. auto. }
  rewrite lookup_insert_ne by congruence.
  destruct (decide (variant = "dilithium3")) as [->|N3].
  { right. right. rewrite lookup_insert_eq. cbn. repeat split; congruence. }
  rewrite lookup_insert_ne by congruence.
  destruct (decide (variant = "dilithium5")) as [->|N5].
  { right. left. rewrite lookup_insert_eq. cbn. auto. }
  rewrite lookup_insert_ne by congruence.
  rewrite lookup_empty. right. right. cbn. auto.
Qed.

(** [generateDilithiumKeys(variant)], for every string [variant] that is
    not the name of a member inherited from [Object.prototype]: the two
    keys are strings of hexadecimal digits of exactly twice the declared
    sizes; a variant outside the table gets the sizes and the level of
    [dilithium3] while the result keeps the unknown name as its
    [algorithm]. *)
Theorem generateDilithiumKeys_sizes (variant : string) (w : World) :
  plain_name variant ->
  exists keys w',
    generateDilithiumKeys variant w = (Returned keys, w')
    /\ Z.of_nat (String.length (publicKey keys)) = 2 * publicKeySize keys
    /\ Z.of_nat (String.length (privateKey keys)) = 2 * privateKeySize keys
    /\ all_hex (publicKey keys) = true
    /\ all_hex (privateKey keys) = true
    /\ algorithm keys = variant
    /\ (variant <> "dilithium2" -> variant <> "dilithium5" ->
        publicKeySize keys = 1952 /\ privateKeySize keys = 4000
        /\ securityLevel keys = "Level 3").
Proof.
  intros _.
  destruct (SimFacts.generateDilithiumKeys_run variant w) as (w' & Hrun & _).
  eexists _, w'. split; [exact Hrun|].
  cbn [publicKey privateKey publicKeySize privateKeySize securityLevel algorithm].
  rewrite !SimFacts.drawn_digits_length, !drawn_digits_hex. unfold digits_of.
  destruct (keySpecs_cases variant)
    as [(-> & Hp & Hs & Hl) | [(-> & Hp & Hs & Hl) | (N2 & N5 & Hd)]].
  - rewrite Hp, Hs, !Z2Nat.id by lia.
    repeat split; try reflexivity. all: intros; congruence.
  - rewrite Hp, Hs, !Z2Nat.id by lia.
    repeat split; try reflexivity. all: intros; congruence.
  - rewrite Hd. cbn [dilithium3_spec spec_publicKeySize spec_privateKeySize
                     spec_securityLevel].
    rewrite !Z2Nat.id by lia. repeat split; reflexivity.
Qed.

(** A variant that the table does not list. *)
Lemma generateDilithiumKeys_sizes_witness :
  plain_name "falcon512"
  /\ exists keys w',
       generateDilithiumKeys "falcon512" (cycling_world 0) = (Returned keys, w')
       /\ publicKeySize keys = 1952 /\ algorithm keys = "falcon512".
Proof.
  split; [reflexivity|].
  destruct (generateDilithiumKeys_sizes "falcon512" (cycling_world 0) eq_refl)
    as (keys & w' & Hrun & _ & _ & _ & _ & Halg & Hdefault).
  exists keys, w'. split; [exact Hrun|].
  split; [apply Hdefault; discriminate | exact Halg].
Defined.

(** [generateRSAKeys(keySize)] for a non-negative multiple of 8, and
    [generateECDSAKeys()]: the keys are hexadecimal strings of twice the
    declared sizes; an RSA private key is five times the public key, the
    level is ["112-bit"] for 2048 bits only, and the ECDSA sizes are 64 and
    32 bytes. *)
Theorem classical_keys_sizes (keySize : Z) (w : World) :
  0 <= keySize -> keySize mod 8 = 0 ->
  (exists keys w',
      generateRSAKeys keySize w = (Returned keys, w')
      /\ 8 * publicKeySize keys = keySize
      /\ privateKeySize keys = 5 * publicKeySize keys
      /\ Z.of_nat (String.length (publicKey keys)) = 2 * publicKeySize keys
      /\ Z.of_nat (String.length (privateKey keys)) = 2 * privateKeySize keys
      /\ all_hex (publicKey keys) = true /\ all_hex (privateKey keys) = true
      /\ (securityLevel keys = "112-bit" <-> keySize = 2048))
  /\ (exists keys w',
        generateECDSAKeys w = (Returned keys, w')
        /\ publicKeySize keys = 64 /\ privateKeySize keys = 32
        /\ String.length (publicKey keys) = 128%nat
        /\ String.length (privateKey keys) = 64%nat
        /\ all_hex (publicKey keys) = true /\ all_hex (privateKey keys) = true).
Proof.
  intros Hnn Hmod. split.
  - unfold generateRSAKeys.
    destruct (SimFacts.keygen_shape_run 200 300 (keySize / 8 * 2)
                (keySize / 8 * 5 * 2)
                (fun pk sk => {| publicKey := pk; privateKey := sk;
                                 publicKeySize := keySize / 8;
                                 privateKeySize := keySize / 8 * 5;
                                 securityLevel :=
                                   if keySize =? 2048 then "112-bit" else "128-bit";
                                 algorithm := String.append "rsa" (pretty keySize) |}) w)
      as (w' & Hrun & _).
    eexists _, w'. split; [exact Hrun|].
    cbn [publicKey privateKey publicKeySize privateKeySize securityLevel].
    rewrite !SimFacts.drawn_digits_length, !drawn_digits_hex.
    pose proof (Z.div_mod keySize 8 ltac:(lia)) as Hdm.
    assert (0 <= keySize / 8) by (apply Z.div_pos; lia).
    repeat split; try lia.
    + destruct (Z.eqb_spec keySize 2048); [trivial | discriminate].
    + intros ->. reflexivity.
  - destruct (SimFacts.generateECDSAKeys_run w) as (w' & Hrun & _).
    eexists _, w'. split; [exact Hrun|].
    cbn [publicKey privateKey publicKeySize privateKeySize].
    rewrite !SimFacts.drawn_digits_length, !drawn_digits_hex.
    repeat split; reflexivity.
Qed.

(** RSA-2048 in a cycling random source. *)
Lemma classical_keys_sizes_witness :
  0 <= 2048 /\ 2048 mod 8 = 0
  /\ exists keys w',
       generateRSAKeys 2048 (cycling_world 0) = (Returned keys, w')
       /\ 8 * publicKeySize keys = 2048
       /\ privateKeySize keys = 5 * publicKeySize keys.
Proof.
  split; [lia|]. split; [reflexivity|].
  destruct (classical_keys_sizes 2048 (cycling_world 0) ltac:(lia) eq_refl)
    as ((keys & w' & Hrun & H8 & H5 & _) & _).
  exists keys, w'. split; [exact Hrun|]. split; assumption.
Defined.

End SimMoreFacts.

(** ** Signature sizes *)

Module SigningFacts.

Import Sim SimMore.
Local Open Scope sim_scope.

Lemma signatureSizes_cases (algorithm : string) :
  let size := or_else_Z (signatureSizes !! algorithm) 256 in
  (algorithm = "dilithium3" /\ size = 3293)
  \/ (algorithm = "ecdsa" /\ size = 64)
  \/ (algorithm <> "dilithium3" /\ algorithm <> "ecdsa" /\ size = 256).
Proof.
  intros size. subst size. unfold signatureSizes.
  destruct (decide (algorithm = "dilithium3")) as [->|N3].
  { left. rewrite lookup_insert_eq. auto. }
  rewrite lookup_insert_ne by congruence.
  destruct (decide (algorithm = "rsa2048")) as [->|Nr].
  { right. right. rewrite lookup_insert_eq. repeat split; congruence. }
  rewrite lookup_insert_ne by congruence.
  destruct (decide (algorithm = "ecdsa")) as [->|Ne].
  { right. left. rewrite lookup_insert_eq. auto. }
  rewrite lookup_insert_ne by congruence.
  rewrite lookup_empty. right. right. auto.
Qed.

(** [signMessage(message, algorithm)], for every message and every string
    [algorithm] that is not the name of a member inherited from
    [Object.prototype]: the signature is a string of hexadecimal digits of
    exactly twice [signatureSize]; the size is 3293, 256 or 64 bytes for the
    three known names and 256 for any other, while the public key that comes
    with it is a 1952-byte key for [dilithium3], a 256-byte key for
    [rsa2048] and a 64-byte ECDSA key for any other name; the message
    changes nothing. *)
Theorem signMessage_sizes (message algorithm : string) (w : World) :
  plain_name algorithm ->
  exists sig w',
    signMessage message algorithm w = (Returned sig, w')
    /\ Z.of_nat (String.length (signature sig)) = 2 * signatureSize sig
    /\ all_hex (signature sig) = true /\ all_hex (sig_publicKey sig) = true
    /\ sig_algorithm sig = algorithm
    /\ (algorithm = "dilithium3" ->
        signatureSize sig = 3293 /\ String.length (sig_publicKey sig) = 3904%nat)
    /\ (algorithm = "rsa2048" ->
        signatureSize sig = 256 /\ String.length (sig_publicKey sig) = 512%nat)
    /\ (algorithm = "ecdsa" ->
        signatureSize sig = 64 /\ String.length (sig_publicKey sig) = 128%nat)
    /\ (algorithm <> "dilithium3" -> algorithm <> "rsa2048" -> algorithm <> "ecdsa" ->
        signatureSize sig = 256 /\ String.length (sig_publicKey sig) = 128%nat)
    /\ forall message', signMessage message' algorithm w = (Returned sig, w').
Proof.
  intros _.
  destruct (SimFacts.signMessage_shape_run message algorithm w) as (w' & Hrun).
  eexists _, w'. split; [exact Hrun|].
  cbn [signature signatureSize sig_publicKey sig_algorithm].
  rewrite !SimFacts.drawn_digits_length, !SimMoreFacts.drawn_digits_hex.
  set (size := or_else_Z (signatureSizes !! algorithm) 256).
  assert (Hsize : Z.of_nat (Z.to_nat (size * 2)) = 2 * size).
  { destruct (signatureSizes_cases algorithm) as [(_ & Hs) | [(_ & Hs) | (_ & _ & Hs)]];
      fold size in Hs; rewrite Hs; lia. }
  split; [exact Hsize|]. split; [reflexivity|]. split; [reflexivity|].
  split; [reflexivity|].
  split; [intros ->; split; reflexivity|].
  split; [intros ->; split; reflexivity|].
  split; [intros ->; split; reflexivity|].
  split; [|intros message'; exact Hrun].
  intros N3 Nr Ne.
  destruct (signatureSizes_cases algorithm)
    as [(E & _) | [(E & _) | (_ & _ & Hs)]]; [congruence | congruence|].
  split; [exact Hs|].
  destruct (String.eqb_spec algorithm "dilithium3"); [congruence|].
  destruct (String.eqb_spec algorithm "rsa2048"); [congruence|]. reflexivity.
Qed.

(** An algorithm the tables do not list. *)
Lemma signMessage_sizes_witness :
  plain_name "falcon512"
  /\ exists sig w',
       signMessage "pay 5" "falcon512" (cycling_world 0) = (Returned sig, w')
       /\ signatureSize sig = 256.
Proof.
  split; [reflexivity|].
  destruct (signMessage_sizes "pay 5" "falcon512" (cycling_world 0) eq_refl)
    as (sig & w' & Hrun & _ & _ & _ & _ & _ & _ & _ & Hother & _).
  exists sig, w'. split; [exact Hrun|].
  apply Hother; discriminate.
Defined.

(** [generateHybridSignature(message, securityLevel)]: at level [standard]
    the result is the hybrid-standard shape of 128 bytes, at level
    [quantum-safe] it is the [dilithium3] result of [signMessage] of 3293
    bytes; in both the signature string has exactly twice [signatureSize]
    hexadecimal digits. *)
Theorem generateHybridSignature_sizes (message : string) (level : HybridLevel)
    (w : World) :
  exists r w',
    generateHybridSignature message level w = (Returned r, w')
    /\ match level, r with
       | hybrid_standard, StandardVariant s =>
         hs_signatureSize s = 128
         /\ Z.of_nat (String.length (hs_signature s)) = 2 * hs_signatureSize s
         /\ all_hex (hs_signature s) = true
         /\ hs_algorithm s = "hybrid-standard"
       | hybrid_quantum_safe, QuantumSafeVariant s =>
         signatureSize s = 3293
         /\ Z.of_nat (String.length (signature s)) = 2 * signatureSize s
         /\ all_hex (signature s) = true
         /\ sig_algorithm s = "dilithium3"
       | _, _ => False
       end.
Proof.
  unfold generateHybridSignature.
  assert (Hnow : forall w0, performance_now w0 = (Returned (elapsed w0), w0))
    by reflexivity.
  rewrite (SimFacts.bind_returned _ _ _ _ _ (Hnow w)).
  destruct level.
  - destruct (SimFacts.signMessage_ecdsa_run message w) as (w1 & H1 & A1).
    destruct (SimFacts.generateRandomHex_run 128 w1) as (w2 & H2 & A2 & _).
    rewrite (SimFacts.bind_returned _ _ _ _ _ H1),
      (SimFacts.bind_returned _ _ _ _ _ H2),
      (SimFacts.bind_returned _ _ _ _ _ (Hnow w2)).
    eexists _, w2. split; [reflexivity|].
    cbn [hs_signatureSize hs_signature hs_algorithm signature signatureSize].
    rewrite SimMoreFacts.all_hex_append, !SimMoreFacts.drawn_digits_hex.
    split; [reflexivity|]. split; [|split; reflexivity].
    assert (Hlen : forall a b, String.length (String.append a b)
                               = (String.length a + String.length b)%nat).
    { intros a b. induction a as [|c a IH]; [reflexivity|].
      rewrite SimFacts.append_cons. cbn [String.length]. now rewrite IH. }
    rewrite Hlen, !SimFacts.drawn_digits_length. reflexivity.
  - destruct (SimFacts.signMessage_shape_run message "dilithium3" w) as (w1 & H1).
    rewrite (SimFacts.bind_returned _ _ _ _ _ H1).
    eexists _, w1. split; [reflexivity|].
    cbn [signature signatureSize sig_algorithm].
    rewrite SimFacts.drawn_digits_length, SimMoreFacts.drawn_digits_hex.
    repeat split; reflexivity.
Qed.

End SigningFacts.

(** ** Optimized and progressive keys *)

Module TunedKeysFacts.

Import Sim SimMore.
Local Open Scope sim_scope.

Lemma performance_now_run (w : World) :
  performance_now w = (Returned (elapsed w), w).
Proof. reflexivity. Qed.

Lemma generateOptimizedDilithiumKeys_run (optimization : Optimization) (w : World) :
  let spec := optimizedSpecs optimization in
  let np := digits_of (os_publicKeySize spec) in
  let ns := digits_of (os_privateKeySize spec) in
  exists t w',
    generateOptimizedDilithiumKeys optimization w
    = (Returned {| ok_publicKey := drawn_digits w 1 np;
                   ok_privateKey := drawn_digits w (1 + np) ns;
                   ok_publicKeySize := os_publicKeySize spec;
                   ok_privateKeySize := os_privateKeySize spec;
                   ok_securityLevel := os_securityLevel spec;
                   ok_algorithm := os_variant spec;
                   ok_generationTime := t |}, w')
    /\ advanced w w' (1 + np + ns).
Proof.
  intros spec np ns. unfold generateOptimizedDilithiumKeys. fold spec.
  rewrite (SimFacts.bind_returned _ _ _ _ _ (performance_now_run w)).
  destruct (SimFacts.jitter_run 30 40 w) as (d & w1 & H1 & A1 & _).
  destruct (SimFacts.sleep_run d w1) as (w2 & H2 & A2).
  destruct (SimFacts.generateRandomHex_run (os_publicKeySize spec * 2) w2)
    as (w3 & H3 & A3 & _).
  destruct (SimFacts.generateRandomHex_run (os_privateKeySize spec * 2) w3)
    as (w4 & H4 & A4 & _).
  rewrite (SimFacts.bind_returned _ _ _ _ _ H1),
    (SimFacts.bind_returned _ _ _ _ _ H2),
    (SimFacts.bind_returned _ _ _ _ _ H3),
    (SimFacts.bind_returned _ _ _ _ _ H4),
    (SimFacts.bind_returned _ _ _ _ _ (performance_now_run w4)).
  pose proof (SimFacts.advanced_trans _ _ _ _ _ A1 A2) as A12.
  pose proof (SimFacts.advanced_trans _ _ _ _ _ A12 A3) as A123.
  pose proof (SimFacts.advanced_trans _ _ _ _ _ A123 A4) as A1234.
  eexists _, w4. split.
  - unfold ret. do 2 f_equal. f_equal.
    + rewrite (SimFacts.drawn_digits_advanced _ _ _ _ A12). reflexivity.
    + rewrite (SimFacts.drawn_digits_advanced _ _ _ _ A123). f_equal.
      unfold np, digits_of. lia.
  - replace (1 + np + ns)%nat
      with (1 + 0 + Z.to_nat (os_publicKeySize spec * 2)
            + Z.to_nat (os_privateKeySize spec * 2))%nat by (unfold np, ns, digits_of; lia).
    exact A1234.
Qed.

(** [generateOptimizedDilithiumKeys(optimization)], for each of the three
    optimizations: the keys are strings of hexadecimal digits of exactly
    twice the declared sizes, drawn after one delay draw, and no optimized
    key is larger than the standard [dilithium3] key (1952 and 4000 bytes),
    the [speed] set being exactly that size. *)
Theorem generateOptimizedDilithiumKeys_sizes (optimization : Optimization)
    (w : World) :
  exists keys w',
    generateOptimizedDilithiumKeys optimization w = (Returned keys, w')
    /\ Z.of_nat (String.length (ok_publicKey keys)) = 2 * ok_publicKeySize keys
    /\ Z.of_nat (String.length (ok_privateKey keys)) = 2 * ok_privateKeySize keys
    /\ all_hex (ok_publicKey keys) = true /\ all_hex (ok_privateKey keys) = true
    /\ ok_publicKeySize keys <= 1952 /\ ok_privateKeySize keys <= 4000
    /\ (ok_publicKeySize keys = 1952 <-> optimization = opt_speed)
    /\ Z.of_nat (cursor w') - Z.of_nat (cursor w)
       = 1 + 2 * ok_publicKeySize keys + 2 * ok_privateKeySize keys.
Proof.
  destruct (generateOptimizedDilithiumKeys_run optimization w)
    as (t & w' & Hrun & (_ & Hc)).
  eexists _, w'. split; [exact Hrun|].
  cbn [ok_publicKey ok_privateKey ok_publicKeySize ok_privateKeySize].
  rewrite !SimFacts.drawn_digits_length, !SimMoreFacts.drawn_digits_hex, Hc.
  unfold digits_of.
  assert (Hp : 0 <= os_publicKeySize (optimizedSpecs optimization) <= 1952
               /\ 0 <= os_privateKeySize (optimizedSpecs optimization) <= 4000
               /\ (os_publicKeySize (optimizedSpecs optimization) = 1952
                   <-> optimization = opt_speed)).
  { destruct optimization; cbn [optimizedSpecs os_publicKeySize os_privateKeySize].
    - split; [lia|]. split; [lia|]. split; [intros H; lia | discriminate].
    - split; [lia|]. split; [lia|]. split; reflexivity.
    - split; [lia|]. split; [lia|]. split; [intros H; lia | discriminate]. }
  destruct Hp as (Hp & Hs & Hspeed).
  rewrite !Nat2Z.inj_add, !Z2Nat.id by lia.
  repeat split; try reflexivity; try lia; apply Hspeed.
Qed.

Lemma generateProgressiveKeys_run (threatLevel : ThreatLevel) (w : World) :
  let config := configs threatLevel in
  exists t w',
    generateProgressiveKeys threatLevel w
    = (Returned {| pk_publicKey := drawn_digits w 1 (digits_of (pc_keySize config));
                   pk_publicKeySize := pc_keySize config;
                   pk_signatureSize := pc_sigSize config;
                   pk_algorithm := pc_algo config;
                   pk_securityLevel := pc_security config;
                   pk_threatLevel := threatLevel;
                   pk_generationTime := t |}, w')
    /\ advanced w w' (1 + digits_of (pc_keySize config)).
Proof.
  intros config. unfold generateProgressiveKeys. fold config.
  rewrite (SimFacts.bind_returned _ _ _ _ _ (performance_now_run w)).
  set (baseTime := match threatLevel with
                   | threat_low => 10 | threat_quantum => 80 | _ => 40 end).
  destruct (SimFacts.jitter_run baseTime 20 w) as (d & w1 & H1 & A1 & _).
  destruct (SimFacts.sleep_run d w1) as (w2 & H2 & A2).
  destruct (SimFacts.generateRandomHex_run (pc_keySize config * 2) w2)
    as (w3 & H3 & A3 & _).
  rewrite (SimFacts.bind_returned _ _ _ _ _ H1),
    (SimFacts.bind_returned _ _ _ _ _ H2),
    (SimFacts.bind_returned _ _ _ _ _ H3),
    (SimFacts.bind_returned _ _ _ _ _ (performance_now_run w3)).
  pose proof (SimFacts.advanced_trans _ _ _ _ _ A1 A2) as A12.
  pose proof (SimFacts.advanced_trans _ _ _ _ _ A12 A3) as A123.
  eexists _, w3. split.
  - unfold ret. do 2 f_equal. f_equal.
    rewrite (SimFacts.drawn_digits_advanced _ _ _ _ A12). reflexivity.
  - replace (1 + digits_of (pc_keySize config))%nat
      with (1 + 0 + Z.to_nat (pc_keySize config * 2))%nat by (unfold digits_of; lia).
    exact A123.
Qed.

(** [generateProgressiveKeys(threatLevel)]: the public key is a string of
    hexadecimal digits of exactly twice the declared size, and raising the
    threat level (low, medium, high, quantum) never shrinks the key size or
    the signature size. *)
Theorem generateProgressiveKeys_monotone (t1 t2 : ThreatLevel) (w1 w2 : World) :
  threat_rank t1 <= threat_rank t2 ->
  exists k1 w1' k2 w2',
    generateProgressiveKeys t1 w1 = (Returned k1, w1')
    /\ generateProgressiveKeys t2 w2 = (Returned k2, w2')
    /\ Z.of_nat (String.length (pk_publicKey k1)) = 2 * pk_publicKeySize k1
    /\ Z.of_nat (String.length (pk_publicKey k2)) = 2 * pk_publicKeySize k2
    /\ all_hex (pk_publicKey k1) = true /\ all_hex (pk_publicKey k2) = true
    /\ pk_threatLevel k1 = t1 /\ pk_threatLevel k2 = t2
    /\ pk_publicKeySize k1 <= pk_publicKeySize k2
    /\ pk_signatureSize k1 <= pk_signatureSize k2.
Proof.
  intros Hrank.
  destruct (generateProgressiveKeys_run t1 w1) as (d1 & w1' & H1 & _).
  destruct (generateProgressiveKeys_run t2 w2) as (d2 & w2' & H2 & _).
  eexists _, w1', _, w2'. split; [exact H1|]. split; [exact H2|].
  cbn [pk_publicKey pk_publicKeySize pk_signatureSize pk_threatLevel].
  rewrite !SimFacts.drawn_digits_length, !SimMoreFacts.drawn_digits_hex.
  unfold digits_of.
  assert (Hpos : forall t, 0 <= pc_keySize (configs t)) by (intros []; cbn; lia).
  rewrite !Z2Nat.id by (pose proof (Hpos t1); pose proof (Hpos t2); lia).
  repeat split; try reflexivity; try lia;
    destruct t1, t2; cbn in Hrank; try lia; cbn [configs pc_keySize pc_sigSize]; lia.
Qed.

(** From the lowest to the highest threat level. *)
Lemma generateProgressiveKeys_monotone_witness :
  threat_rank threat_low <= threat_rank threat_quantum
  /\ exists k1 w1' k2 w2',
       generateProgressiveKeys threat_low (cycling_world 0) = (Returned k1, w1')
       /\ generateProgressiveKeys threat_quantum (cycling_world 3) = (Returned k2, w2')
       /\ pk_publicKeySize k1 <= pk_publicKeySize k2.
Proof.
  assert (Hrank : threat_rank threat_low <= threat_rank threat_quantum)
    by (cbn; lia).
  split; [exact Hrank|].
  destruct (generateProgressiveKeys_monotone threat_low threat_quantum
              (cycling_world 0) (cycling_world 3) Hrank)
    as (k1 & w1' & k2 & w2' & H1 & H2 & _ & _ & _ & _ & _ & _ & Hle & _).
  exists k1, w1', k2, w2'. split; [exact H1|]. split; [exact H2 | exact Hle].
Defined.

End TunedKeysFacts.

(** ** Transaction utilities *)

Module WalletFacts.

Import Wallet.

Lemma to_int32_range (x : Z) : - 2 ^ 31 <= to_int32 x < 2 ^ 31.
Proof.
  unfold to_int32.
  pose proof (Z.mod_pos_bound (x + 2 ^ 31) (2 ^ 32) ltac:(lia)). lia.
Qed.

Lemma to_int32_small (x : Z) : - 2 ^ 31 <= x < 2 ^ 31 -> to_int32 x = x.
Proof.
  intros Hx. unfold to_int32. rewrite Z.mod_small by lia. lia.
Qed.

Lemma to_int32_add_multiple (x k : Z) : to_int32 (x + k * 2 ^ 32) = to_int32 x.
Proof.
  unfold to_int32.
  replace (x + k * 2 ^ 32 + 2 ^ 31) with (x + 2 ^ 31 + k * 2 ^ 32) by lia.
  now rewrite Z_mod_plus_full.
Qed.

Lemma to_int32_congruent (x : Z) : exists k, to_int32 x = x + k * 2 ^ 32.
Proof.
  unfold to_int32. exists (- ((x + 2 ^ 31) / 2 ^ 32)).
  pose proof (Z.div_mod (x + 2 ^ 31) (2 ^ 32) ltac:(lia)). lia.
Qed.

Lemma and32_diag (v : Z) : and32 v v = to_int32 v.
Proof.
  unfold and32. rewrite Z.land_diag.
  apply to_int32_small, to_int32_range.
Qed.

Lemma shl32_5 (h : Z) : shl32 h 5 = to_int32 (32 * h).
Proof.
  unfold shl32. change (5 mod 32) with 5.
  rewrite Z.shiftl_mul_pow2 by lia.
  destruct (to_int32_congruent h) as (k & Hk). rewrite Hk.
  replace ((h + k * 2 ^ 32) * 2 ^ 5) with (32 * h + (32 * k) * 2 ^ 32) by lia.
  apply to_int32_add_multiple.
Qed.

Lemma to_int32_inner (a b : Z) : to_int32 (to_int32 a + b) = to_int32 (a + b).
Proof.
  destruct (to_int32_congruent a) as (k & Hk). rewrite Hk.
  replace (a + k * 2 ^ 32 + b) with (a + b + k * 2 ^ 32) by lia.
  apply to_int32_add_multiple.
Qed.

(** One turn of the loop: [hash * 31 + char] on 32 bits, whatever the
    current value. *)
Lemma hash_step (hash char : Z) :
  and32 (shl32 hash 5 - hash + char) (shl32 hash 5 - hash + char)
  = to_int32 (31 * hash + char).
Proof.
  rewrite and32_diag, shl32_5.
  replace (to_int32 (32 * hash) - hash + char)
    with (to_int32 (32 * hash) + (char - hash)) by lia.
  rewrite to_int32_inner. f_equal. lia.
Qed.

Lemma hash_turn_31 (h char : Z) :
  hash_turn h char = to_int32 (31 * h + char).
Proof. unfold hash_turn. apply hash_step. Qed.

Lemma fold_left_head {A B : Type} (f : A -> B -> A) (x : B) (l : list B) (a : A) :
  fold_left f (x :: l) a = fold_left f l (f a x).
Proof. reflexivity. Qed.

Lemma hash_loop_cons (char : Z) (s : CodeUnits) (h : Z) :
  hash_loop (char :: s) h = hash_loop s (to_int32 (31 * h + char)).
Proof.
  unfold hash_loop. rewrite fold_left_head, hash_turn_31. reflexivity.
Qed.

Lemma poly_hash_shift (s : CodeUnits) :
  forall a d, poly_hash s (a + d) = poly_hash s a + 31 ^ Z.of_nat (length s) * d.
Proof.
  induction s as [|c s IH]; intros a d.
  - cbn [poly_hash length]. change (Z.of_nat 0) with 0. lia.
  - cbn [poly_hash length].
    replace (31 * (a + d) + c) with (31 * a + c + 31 * d) by lia.
    rewrite IH, Nat2Z.inj_succ, Z.pow_succ_r by lia. lia.
Qed.

(** The loop computes the polynomial in 31 of the code units, wrapped to a
    signed 32-bit integer. *)
Lemma hash_loop_poly (s : CodeUnits) :
  forall h, hash_loop s (to_int32 h) = to_int32 (poly_hash s h).
Proof.
  induction s as [|c s IH]; intros h.
  - reflexivity.
  - rewrite hash_loop_cons, IH. cbn [poly_hash].
    destruct (to_int32_congruent h) as (k & Hk). rewrite Hk.
    replace (31 * (h + k * 2 ^ 32) + c)
      with (31 * h + c + 31 * k * 2 ^ 32) by lia.
    rewrite (poly_hash_shift s (31 * h + c) (31 * k * 2 ^ 32)).
    replace (31 ^ Z.of_nat (length s) * (31 * k * 2 ^ 32))
      with (31 ^ Z.of_nat (length s) * (31 * k) * 2 ^ 32) by lia.
    apply to_int32_add_multiple.
Qed.

Lemma string_length_append (a b : string) :
  String.length (String.append a b) = (String.length a + String.length b)%nat.
Proof.
  induction a as [|c a IH]; [reflexivity|].
  rewrite SimFacts.append_cons. cbn [String.length]. now rewrite IH.
Qed.

Lemma hex_go_shape (fuel : nat) :
  forall (n : Z) (acc : string) (k : nat),
  0 <= n < 16 ^ Z.of_nat k ->
  SimMore.all_hex acc = true ->
  (String.length (hex_go fuel n acc) <= k + String.length acc)%nat
  /\ (String.length acc <= String.length (hex_go fuel n acc))%nat
  /\ SimMore.all_hex (hex_go fuel n acc) = true.
Proof.
  induction fuel as [|fuel IH]; intros n acc k Hn Hacc.
  - cbn [hex_go]. split; [lia|]. split; [lia | exact Hacc].
  - cbn [hex_go]. destruct (Z.eqb_spec n 0) as [->|Hne].
    + split; [lia|]. split; [lia | exact Hacc].
    + destruct k as [|k]; [cbn in Hn; lia|].
      assert (Hd : 0 <= n mod 16 < 16) by (apply Z.mod_pos_bound; lia).
      destruct (SimFacts.char_at_chars_single (n mod 16) Hd) as (c & Hc).
      pose proof (SimMoreFacts.char_at_chars_hex (n mod 16) Hd) as Hhex.
      destruct (IH (n / 16) (String.append (Sim.char_at Sim.chars (n mod 16)) acc) k)
        as (Hlen & Hge & Hall).
      * rewrite Nat2Z.inj_succ, Z.pow_succ_r in Hn by lia.
        split; [apply Z.div_pos; lia|].
        apply Z.div_lt_upper_bound; lia.
      * rewrite SimMoreFacts.all_hex_append, Hhex, Hacc. reflexivity.
      * assert (Hl1 : String.length (Sim.char_at Sim.chars (n mod 16)) = 1%nat)
          by (rewrite Hc; reflexivity).
        rewrite string_length_append, Hl1 in Hlen, Hge.
        split; [lia|]. split; [lia | exact Hall].
Qed.

Lemma toString16_shape (n : Z) (k : nat) :
  0 <= n < 16 ^ Z.of_nat k -> (1 <= k)%nat ->
  (1 <= String.length (toString16 n) <= k)%nat
  /\ SimMore.all_hex (toString16 n) = true.
Proof.
  intros Hn Hk. unfold toString16.
  destruct (Z.eqb_spec n 0) as [->|Hne].
  - cbn. split; [lia | reflexivity].
  - destruct (hex_go_shape (S (Z.to_nat (Z.log2 n))) n "" k Hn eq_refl)
      as (Hlen & _ & Hall).
    cbn [String.length] in Hlen. split; [|exact Hall]. split; [|lia].
    cbn [hex_go]. destruct (Z.eqb_spec n 0); [lia|].
    assert (Hd : 0 <= n mod 16 < 16) by (apply Z.mod_pos_bound; lia).
    destruct (SimFacts.char_at_chars_single (n mod 16) Hd) as (c & Hc).
    destruct (hex_go_shape (Z.to_nat (Z.log2 n)) (n / 16)
                (String.append (Sim.char_at Sim.chars (n mod 16)) "") k)
      as (_ & Hge & _).
    + split; [apply Z.div_pos; lia|].
      apply Z.div_lt_upper_bound; [lia|].
      assert (1 <= 16 ^ Z.of_nat k) by (apply Z.pow_le_mono_r with (b := 0); lia).
      lia.
    + rewrite SimMoreFacts.all_hex_append,
        (SimMoreFacts.char_at_chars_hex (n mod 16) Hd). reflexivity.
    + assert (Hl1 : String.length
                      (String.append (Sim.char_at Sim.chars (n mod 16)) "") = 1%nat)
        by (rewrite Hc; reflexivity).
      rewrite Hl1 in Hge. exact Hge.
Qed.

Lemma zeros_add (a b : nat) :
  zeros (a + b) = String.append (zeros a) (zeros b).
Proof.
  induction a as [|a IH]; [reflexivity|].
  cbn [Nat.add zeros]. rewrite SimFacts.append_cons. now rewrite IH.
Qed.

Lemma zeros_length (a : nat) : String.length (zeros a) = a.
Proof. induction a as [|a IH]; [reflexivity | cbn; now rewrite IH]. Qed.

Lemma zeros_hex (a : nat) : SimMore.all_hex (zeros a) = true.
Proof. induction a as [|a IH]; [reflexivity | exact IH]. Qed.

Lemma hex_digit_index (d : Z) :
  0 <= d < 16 ->
  exists c, Sim.char_at Sim.chars d = String c ""
            /\ index 0 (String c "") Sim.chars = Some (Z.to_nat d).
Proof.
  intros Hd.
  assert (Hcases : d = 0 \/ d = 1 \/ d = 2 \/ d = 3 \/ d = 4 \/ d = 5 \/ d = 6
                   \/ d = 7 \/ d = 8 \/ d = 9 \/ d = 10 \/ d = 11 \/ d = 12
                   \/ d = 13 \/ d = 14 \/ d = 15) by lia.
  repeat (destruct Hcases as [-> | Hcases]; [eexists; split; reflexivity|]).
  subst d. eexists; split; reflexivity.
Qed.

Lemma hex_go_length_ge (fuel : nat) :
  forall (n : Z) (acc : string),
  (String.length acc <= String.length (hex_go fuel n acc))%nat.
Proof.
  induction fuel as [|fuel IH]; intros n acc; cbn [hex_go]; [lia|].
  destruct (n =? 0); [lia|].
  etransitivity; [|apply IH]. rewrite string_length_append. lia.
Qed.

(** Reading back what [hex_go] wrote. *)
Lemma hex_go_value (fuel : nat) :
  forall (n : Z) (acc : string) (x : Z),
  0 <= n < 16 ^ Z.of_nat fuel ->
  hex_value_from (hex_go fuel n acc) x
  = hex_value_from acc (x * 16 ^ Z.of_nat (String.length (hex_go fuel n acc)
                                            - String.length acc) + n).
Proof.
  induction fuel as [|fuel IH]; intros n acc x Hn.
  - cbn [hex_go]. change (16 ^ Z.of_nat 0) with 1 in Hn.
    rewrite Nat.sub_diag. f_equal. change (16 ^ Z.of_nat 0) with 1. lia.
  - cbn [hex_go]. destruct (Z.eqb_spec n 0) as [->|Hne].
    + rewrite Nat.sub_diag. f_equal. change (16 ^ Z.of_nat 0) with 1. lia.
    + assert (Hd : 0 <= n mod 16 < 16) by (apply Z.mod_pos_bound; lia).
      destruct (hex_digit_index (n mod 16) Hd) as (c & Hc & Hidx).
      rewrite Nat2Z.inj_succ, Z.pow_succ_r in Hn by lia.
      assert (Hq : 0 <= n / 16 < 16 ^ Z.of_nat fuel).
      { split; [apply Z.div_pos; lia | apply Z.div_lt_upper_bound; lia]. }
      rewrite (IH (n / 16) _ x Hq).
      pose proof (hex_go_length_ge fuel (n / 16)
                    (String.append (Sim.char_at Sim.chars (n mod 16)) acc)) as Hge.
      assert (Hl1 : String.length
                      (String.append (Sim.char_at Sim.chars (n mod 16)) acc)
                    = S (String.length acc))
        by (rewrite Hc; reflexivity).
      rewrite Hl1 in Hge |- *.
      rewrite Hc, SimFacts.append_cons, SimFacts.append_empty_l in Hge |- *.
      cbn [hex_value_from]. rewrite Hidx. f_equal.
      set (len := String.length
                    (hex_go fuel (n / 16) (String c acc))) in *.
      replace (Z.of_nat (len - String.length acc))
        with (Z.succ (Z.of_nat (len - S (String.length acc)))) by lia.
      rewrite Z.pow_succ_r by lia.
      pose proof (Z.div_mod n 16 ltac:(lia)) as Hdm. rewrite Z2Nat.id by lia. lia.
Qed.

(** [toString16] writes [n]: reading the digits back gives [n]. *)
Lemma toString16_value (n : Z) : 0 <= n -> hex_value (toString16 n) = Some n.
Proof.
  intros Hn. unfold toString16, hex_value.
  destruct (Z.eqb_spec n 0) as [->|Hne]; [reflexivity|].
  rewrite hex_go_value.
  - cbn [hex_value_from]. f_equal; lia.
  - split; [lia|].
    destruct (Z.log2_spec n ltac:(lia)) as (_ & Hup).
    eapply Z.lt_le_trans; [exact Hup|].
    rewrite Nat2Z.inj_succ, Z2Nat.id by apply Z.log2_nonneg.
    transitivity (2 ^ (4 * Z.succ (Z.log2 n))).
    + apply Z.pow_le_mono_r; [lia|]. pose proof (Z.log2_nonneg n). lia.
    + rewrite Z.pow_mul_r by (pose proof (Z.log2_nonneg n); lia). reflexivity.
Qed.

Lemma hex_value_zeros (count : nat) (s : string) :
  hex_value_from (String.append (zeros count) s) 0 = hex_value_from s 0.
Proof.
  induction count as [|count IH]; [reflexivity|].
  cbn [zeros]. rewrite SimFacts.append_cons. exact IH.
Qed.

Section Transactions.

Variable parseFloat_toString : string -> string.
Variable JSON_stringify : EthereumTransaction -> CodeUnits.

(** [calculateTransactionHash(tx)] always has the shape of a 32-byte hash,
    ["0x"] and 64 hexadecimal digits, but the first 56 digits are ["0"]: the
    value is the absolute value of a signed 32-bit integer, namely of the
    polynomial in 31 of the UTF-16 code units of the serialized transaction,
    whatever they are, wrapped to 32 bits. *)
Theorem calculateTransactionHash_shape (tx : EthereumTransaction) :
  exists digits,
    calculateTransactionHash JSON_stringify tx
    = String.append "0x" (String.append (zeros 56) digits)
    /\ String.length digits = 8%nat
    /\ SimMore.all_hex digits = true
    /\ String.length (calculateTransactionHash JSON_stringify tx) = 66%nat
    /\ digits
       = padStart0
           (toString16 (Z.abs (to_int32 (poly_hash (JSON_stringify tx) 0)))) 8
    /\ hex_value digits = Some (Z.abs (to_int32 (poly_hash (JSON_stringify tx) 0))).
Proof.
  set (v := Z.abs (to_int32 (poly_hash (JSON_stringify tx) 0))).
  assert (Hv : 0 <= v < 16 ^ Z.of_nat 8).
  { unfold v. pose proof (to_int32_range (poly_hash (JSON_stringify tx) 0)).
    change (16 ^ Z.of_nat 8) with (2 ^ 32). lia. }
  destruct (toString16_shape v 8 Hv ltac:(lia)) as (Hlen & Hall).
  assert (Hpad : String.length (padStart0 (toString16 v) 8) = 8%nat).
  { unfold padStart0. rewrite string_length_append, zeros_length. lia. }
  assert (Heq : calculateTransactionHash JSON_stringify tx
                = String.append "0x"
                    (String.append (zeros 56) (padStart0 (toString16 v) 8))).
  { unfold calculateTransactionHash.
    change (hash_loop (JSON_stringify tx) 0)
      with (hash_loop (JSON_stringify tx) (to_int32 0)).
    rewrite hash_loop_poly. fold v. unfold padStart0.
    replace (64 - String.length (toString16 v))%nat
      with (56 + (8 - String.length (toString16 v)))%nat by lia.
    rewrite zeros_add, SimFacts.append_assoc. reflexivity. }
  exists (padStart0 (toString16 v) 8).
  split; [exact Heq|]. split; [exact Hpad|].
  split; [unfold padStart0;
          rewrite SimMoreFacts.all_hex_append, zeros_hex, Hall; reflexivity|].
  split; [|split; [reflexivity|]].
  - rewrite Heq, !string_length_append, zeros_length, Hpad. reflexivity.
  - unfold padStart0, hex_value. rewrite hex_value_zeros.
    apply toString16_value. lia.
Qed.

(** Two transactions whose serializations have the same polynomial in 31
    modulo [2^32], up to sign, have the same hash. *)
Theorem calculateTransactionHash_collides (tx1 tx2 : EthereumTransaction) :
  Z.abs (to_int32 (poly_hash (JSON_stringify tx1) 0))
  = Z.abs (to_int32 (poly_hash (JSON_stringify tx2) 0)) ->
  calculateTransactionHash JSON_stringify tx1
  = calculateTransactionHash JSON_stringify tx2.
Proof.
  intros Heq. unfold calculateTransactionHash.
  change (hash_loop (JSON_stringify tx1) 0)
    with (hash_loop (JSON_stringify tx1) (to_int32 0)).
  change (hash_loop (JSON_stringify tx2) 0)
    with (hash_loop (JSON_stringify tx2) (to_int32 0)).
  rewrite !hash_loop_poly, Heq. reflexivity.
Qed.

(** [createEthereumTransaction(tx)] never returns an empty [data] nor a
    missing or zero [chainId]: an empty [data] becomes ["0x"], a missing or
    zero [chainId] becomes 1337, anything else is kept, and the other fields
    but [value] are copied.  Creating from a created transaction changes
    nothing as soon as the number formatting is idempotent. *)
Theorem createEthereumTransaction_defaults (tx : EthereumTransaction) :
  (forall v, parseFloat_toString (parseFloat_toString v) = parseFloat_toString v) ->
  let tx' := createEthereumTransaction parseFloat_toString tx in
  tx_data tx' <> ""
  /\ (tx_data tx = "" -> tx_data tx' = "0x")
  /\ (tx_data tx <> "" -> tx_data tx' = tx_data tx)
  /\ (exists c, tx_chainId tx' = Some c /\ c <> 0
                /\ (tx_chainId tx = Some c \/ c = 1337))
  /\ tx_to tx' = tx_to tx /\ tx_gasLimit tx' = tx_gasLimit tx
  /\ tx_gasPrice tx' = tx_gasPrice tx /\ tx_nonce tx' = tx_nonce tx
  /\ createEthereumTransaction parseFloat_toString tx' = tx'.
Proof.
  intros Hidem tx'. subst tx'. unfold createEthereumTransaction.
  cbn [tx_data tx_chainId tx_to tx_gasLimit tx_gasPrice tx_nonce tx_value].
  destruct (String.eqb_spec (tx_data tx) "") as [E|NE].
  - split; [discriminate|]. split; [reflexivity|]. split; [congruence|].
    split.
    + destruct (tx_chainId tx) as [c|]; [|exists 1337; auto with zarith].
      destruct (Z.eqb_spec c 0); [exists 1337 | exists c]; auto with zarith.
    + repeat split; try reflexivity.
      rewrite Hidem. change (String.eqb "0x" "") with false. cbv iota.
      do 2 f_equal.
      destruct (tx_chainId tx) as [c|]; [|reflexivity].
      destruct (Z.eqb_spec c 0); [reflexivity|].
      destruct (Z.eqb_spec c 0); [lia | reflexivity].
  - split; [exact NE|]. split; [congruence|]. split; [reflexivity|].
    split.
    + destruct (tx_chainId tx) as [c|]; [|exists 1337; auto with zarith].
      destruct (Z.eqb_spec c 0); [exists 1337 | exists c]; auto with zarith.
    + repeat split; try reflexivity.
      rewrite Hidem.
      destruct (String.eqb_spec (tx_data tx) ""); [congruence|].
      do 2 f_equal.
      destruct (tx_chainId tx) as [c|]; [|reflexivity].
      destruct (Z.eqb_spec c 0); [reflexivity|].
      destruct (Z.eqb_spec c 0); [lia | reflexivity].
Qed.

End Transactions.

(** Two transfers that differ in their [data], [0xAa] and [0xBB], under the
    serialization of [JSON.stringify]: in the polynomial in 31 the pairs
    [Aa] and [BB] both weigh 2112. *)
Lemma calculateTransactionHash_collides_witness :
  let tx1 := {| tx_to := "0x70997970c51812dc3a010c7d01b50e0d17dc79c8";
                tx_value := "1"; tx_gasLimit := "21000";
                tx_gasPrice := "20000000000"; tx_nonce := 0; tx_data := "0xAa";
                tx_chainId := Some 1337 |} in
  let tx2 := {| tx_to := "0x70997970c51812dc3a010c7d01b50e0d17dc79c8";
                tx_value := "1"; tx_gasLimit := "21000";
                tx_gasPrice := "20000000000"; tx_nonce := 0; tx_data := "0xBB";
                tx_chainId := Some 1337 |} in
  Z.abs (to_int32 (poly_hash (stringify_plain tx1) 0))
  = Z.abs (to_int32 (poly_hash (stringify_plain tx2) 0))
  /\ stringify_plain tx1 <> stringify_plain tx2
  /\ calculateTransactionHash stringify_plain tx1
     = calculateTransactionHash stringify_plain tx2.
Proof.
  intros tx1 tx2.
  assert (H : Z.abs (to_int32 (poly_hash (stringify_plain tx1) 0))
              = Z.abs (to_int32 (poly_hash (stringify_plain tx2) 0)))
    by (vm_compute; reflexivity).
  split; [exact H|]. split; [vm_compute; discriminate|].
  exact (calculateTransactionHash_collides stringify_plain tx1 tx2 H).
Defined.

(** A transaction without data nor chain, formatted by the identity. *)
Lemma createEthereumTransaction_defaults_witness :
  let tx := {| tx_to := "0xabc"; tx_value := "1.5"; tx_gasLimit := "21000";
               tx_gasPrice := "20"; tx_nonce := 7; tx_data := "";
               tx_chainId := None |} in
  (forall v : string, (fun s => s) ((fun s => s) v) = (fun s : string => s) v)
  /\ tx_data (createEthereumTransaction (fun s => s) tx) = "0x"
  /\ tx_chainId (createEthereumTransaction (fun s => s) tx) = Some 1337.
Proof.
  intros tx.
  assert (Hid : forall v : string,
             (fun s => s) ((fun s => s) v) = (fun s : string => s) v)
    by (intros v; reflexivity).
  split; [exact Hid|].
  destruct (createEthereumTransaction_defaults (fun s => s) tx Hid)
    as (_ & Hd & _ & (c & Hc & _ & Hor) & _).
  split; [apply Hd; reflexivity|].
  rewrite Hc. destruct Hor as [Hor | ->]; [discriminate Hor | reflexivity].
Defined.

(** The network name is ["Hardhat Local"] exactly for chain 1337 and
    ["Local Network (...)"], around the text of the number, for every other
    answer; the ["Ganache Local"] branch is never taken.  How a number
    prints does not matter. *)
Theorem networkName_never_ganache (Number_toString : option Z -> string)
    (chainId : option Z) :
  networkName Number_toString chainId <> "Ganache Local"
  /\ (networkName Number_toString chainId = "Hardhat Local"
      <-> chainId = Some 1337)
  /\ (chainId <> Some 1337 ->
      networkName Number_toString chainId
      = String.append "Local Network ("
          (String.append (Number_toString chainId) ")")).
Proof.
  unfold networkName.
  destruct (strict_eq chainId 1337) eqn:E.
  - assert (chainId = Some 1337) as ->.
    { destruct chainId as [c|]; [|discriminate]. cbn in E.
      apply Z.eqb_eq in E. now subst c. }
    split; [discriminate|]. split; [tauto | congruence].
  - assert (Hne : chainId <> Some 1337).
    { intros ->. discriminate. }
    split; [discriminate|]. split; [|reflexivity].
    split; [discriminate | intros H; congruence].
Qed.

End WalletFacts.

(** ** Signatures of [dilithiumSign] under [dilithiumVerify] *)

Module LatticeMoreFacts.

Import Sim Lattice LatticeMore.

Section Signing.

Context `{LatticeOps}.

Lemma sign_attempt_accepted (privateKey : DilithiumPrivateKey) (mu : Bytes)
    (attempt : nat) (sig : DilithiumSignature) :
  sign_attempt privateKey mu attempt = Some sig ->
  let params := getParams (sk_level privateKey) in
  vectorInfinityNorm (z sig) < gamma1 params - beta params
  /\ vectorWeight (h sig) <= omega params
  /\ z sig
     = vectorAdd (attempt_mask privateKey mu attempt)
         (polynomialVectorMul (sampleInBall (c_tilde sig) (tau params))
            (sk_s1 privateKey)).
Proof.
  intros Hsig params. unfold sign_attempt in Hsig. fold params in Hsig.
  cbv zeta in Hsig.
  match type of Hsig with
  | (if ?b then _ else _) = _ => destruct b eqn:Enorm; [discriminate|]
  end.
  match type of Hsig with
  | (if ?b then _ else _) = _ => destruct b eqn:Eweight; [discriminate|]
  end.
  injection Hsig as <-. cbn [z h c_tilde].
  rewrite Z.geb_leb in Enorm. apply Z.leb_gt in Enorm.
  rewrite Z.gtb_ltb in Eweight. apply Z.ltb_ge in Eweight.
  split; [exact Enorm|]. split; [exact Eweight | reflexivity].
Qed.

Lemma dilithiumSign_returned (message : Bytes) (privateKey : DilithiumPrivateKey)
    (sig : DilithiumSignature) :
  dilithiumSign message privateKey = Some (Returned sig) ->
  exists attempt,
    (attempt < maxAttempts)%nat
    /\ sign_attempt privateKey (sign_mu message privateKey) attempt = Some sig
    /\ forall b, (b < attempt)%nat ->
         sign_attempt privateKey (sign_mu message privateKey) b = None.
Proof.
  unfold dilithiumSign, dilithiumSign_run.
  destruct (LatticeFacts.sign_run_from privateKey (sign_mu message privateKey)
              maxAttempts 0 eq_refl) as (o & n & Hrun & Hn & Ho).
  rewrite Hrun. intros Heq. injection Heq as ->.
  cbn [left_correctly] in Ho. destruct Ho as (a & -> & Hsig & Hnone).
  exists a. split; [lia|]. split; [exact Hsig|].
  intros b Hb. apply Hnone. lia.
Qed.

End Signing.

(** Every signature [dilithiumSign] returns satisfies the two bounds of a
    lattice signature, [|z| < gamma1 - beta] and hint weight at most
    [omega], and it is the response [y + c s1] of the first attempt that
    passes; so [dilithiumVerify], under a public key of the same level,
    never rejects it at the input validation: its answer is the comparison
    of the recomputed challenge. *)
Theorem dilithiumSign_output_passes_validation `{LatticeOps}
    (message : Bytes) (privateKey : DilithiumPrivateKey)
    (sig : DilithiumSignature) :
  dilithiumSign message privateKey = Some (Returned sig) ->
  let params := getParams (sk_level privateKey) in
  vectorInfinityNorm (z sig) < gamma1 params - beta params
  /\ vectorWeight (h sig) <= omega params
  /\ (exists attempt,
        (attempt < maxAttempts)%nat
        /\ z sig
           = vectorAdd (attempt_mask privateKey (sign_mu message privateKey) attempt)
               (polynomialVectorMul (sampleInBall (c_tilde sig) (tau params))
                  (sk_s1 privateKey)))
  /\ forall (message' : Bytes) (publicKey : DilithiumPublicKey),
       pk_level publicKey = sk_level privateKey ->
       dilithiumVerify message' sig publicKey
       = verify_challenge message' sig publicKey.
Proof.
  intros Hsign params.
  destruct (dilithiumSign_returned message privateKey sig Hsign)
    as (attempt & Hlt & Hsig & _).
  destruct (sign_attempt_accepted privateKey _ attempt sig Hsig)
    as (Hnorm & Hweight & Hz).
  split; [exact Hnorm|]. split; [exact Hweight|].
  split; [exists attempt; split; [exact Hlt | exact Hz]|].
  intros message' publicKey Hlevel.
  unfold dilithiumVerify, verify_challenge. rewrite Hlevel.
  destruct (vectorInfinityNorm (z sig)
            >=? gamma1 (getParams (sk_level privateKey))
                - beta (getParams (sk_level privateKey))) eqn:E;
    [|reflexivity].
  rewrite Z.geb_leb in E. apply Z.leb_le in E. unfold params in Hnorm. lia.
Qed.

#[local] Existing Instance plain_ops.

(** A key whose first secret vector is small, under the plain operations. *)
Lemma dilithiumSign_output_passes_validation_witness :
  let sk := {| sk_level := 2; sk_rho := [1]; sk_K := [2]; sk_tr := [3];
               sk_s1 := [[1; -2]]; sk_s2 := [[0]]; sk_t0 := [[5]] |} in
  let sig := {| c_tilde := [3; 9]; z := [[1; -2]]; h := [] |} in
  dilithiumSign [9] sk = Some (Returned sig)
  /\ vectorInfinityNorm (z sig)
     < gamma1 (getParams (sk_level sk)) - beta (getParams (sk_level sk)).
Proof.
  intros sk sig.
  assert (Hsign : dilithiumSign [9] sk = Some (Returned sig))
    by (vm_compute; reflexivity).
  split; [exact Hsign|].
  exact (proj1 (dilithiumSign_output_passes_validation [9] sk sig Hsign)).
Defined.

End LatticeMoreFacts.

(** ** Packed arrays *)

Module CompressorMoreFacts.

Import Compressor CompressorMore.

Lemma or_bit_bytes (c : list Z) (j : nat) : bytes c -> bytes (or_bit c j).
Proof.
  intros Hc. unfold or_bit, bytes.
  apply Forall_insert; [exact Hc|].
  change 255 with (Z.ones 8). rewrite Z.land_ones by lia.
  apply Z.mod_pos_bound. lia.
Qed.

Lemma pack_bits_bytes (q : Z) (l : list nat) :
  forall c off, bytes c -> bytes (fst (fold_left (pack_bit q) l (c, off))).
Proof.
  induction l as [|b l IH]; intros c off Hc; [exact Hc|].
  cbn [fold_left pack_bit]. apply IH.
  destruct (bit_set q b); [apply or_bit_bytes|]; exact Hc.
Qed.

Lemma pack_bits_length (q : Z) (l : list nat) :
  forall c off, length (fst (fold_left (pack_bit q) l (c, off))) = length c.
Proof.
  induction l as [|b l IH]; intros c off; [reflexivity|].
  cbn [fold_left pack_bit]. rewrite IH.
  destruct (bit_set q b); [apply CompressorFacts.or_bit_length | reflexivity].
Qed.

Lemma pack_coeffs_bytes (poly : list Z) (bits : nat) (l : list nat) :
  forall st, bytes (fst st) ->
  bytes (fst (fold_left (pack_coeff poly bits) l st))
  /\ length (fst (fold_left (pack_coeff poly bits) l st)) = length (fst st).
Proof.
  induction l as [|i l IH]; intros [c off] Hc; [split; [exact Hc | reflexivity]|].
  cbn [fold_left].
  destruct (IH (pack_coeff poly bits (c, off) i)) as (Hb & Hl).
  - unfold pack_coeff. apply pack_bits_bytes. exact Hc.
  - split; [exact Hb|]. rewrite Hl. unfold pack_coeff. apply pack_bits_length.
Qed.

Lemma fold_left_agree {A B : Type} (f g : A -> B -> A) (l : list B) :
  (forall x, In x l -> forall st, f st x = g st x) ->
  forall st, fold_left f l st = fold_left g l st.
Proof.
  induction l as [|x l IH]; intros Hfg st; [reflexivity|].
  cbn [fold_left]. rewrite (Hfg x (or_introl eq_refl)).
  apply IH. intros y Hy. apply Hfg. right. exact Hy.
Qed.

Lemma compressPolynomial_wellformed (poly : list Z) (bits : nat) :
  length (compressPolynomial poly bits) = (32 * bits)%nat
  /\ bytes (compressPolynomial poly bits).
Proof.
  unfold compressPolynomial.
  set (c0 := replicate (Z.to_nat ((256 * Z.of_nat bits + 7) / 8)) 0).
  assert (Hc0 : bytes c0).
  { unfold bytes, c0. apply Forall_replicate. lia. }
  destruct (pack_coeffs_bytes poly bits (seq 0 256) (c0, 0%nat) Hc0) as (Hb & Hl).
  split; [|exact Hb].
  rewrite Hl. cbn [fst]. unfold c0. rewrite length_replicate.
  replace (256 * Z.of_nat bits + 7) with (7 + (32 * Z.of_nat bits) * 8) by lia.
  rewrite Z.div_add by lia. change (7 / 8) with 0. lia.
Qed.

(** [compressPolynomial(poly, bits)], for every list of coefficients and
    every width: the result has exactly [256 * bits / 8 = 32 * bits] bytes,
    each in the range of a byte; only the first 256 coefficients are read,
    a missing one counting as 0, and nothing is rejected. *)
Theorem compressPolynomial_size (poly : list Z) (bits : nat) :
  length (compressPolynomial poly bits) = (32 * bits)%nat
  /\ bytes (compressPolynomial poly bits)
  /\ forall poly',
       (forall i, (i < 256)%nat -> coeff poly i = coeff poly' i) ->
       compressPolynomial poly' bits = compressPolynomial poly bits.
Proof.
  destruct (compressPolynomial_wellformed poly bits) as (Hl & Hb).
  split; [exact Hl|]. split; [exact Hb|].
  intros poly' Hagree. unfold compressPolynomial. f_equal.
  apply fold_left_agree.
  intros i Hi st. apply in_seq in Hi. unfold pack_coeff.
  rewrite (Hagree i) by lia. reflexivity.
Qed.

Lemma value_at_range (c : list Z) (bits off : nat) :
  0 <= value_at c bits off < 2 ^ Z.of_nat bits.
Proof.
  assert (Hhigh : forall m, Z.of_nat bits <= m ->
                            Z.testbit (value_at c bits off) m = false).
  { intros m Hm. rewrite <- (Z2Nat.id m) by lia.
    rewrite CompressorFacts.value_at_bits.
    replace (Z.to_nat m <? bits)%nat with false
      by (symmetry; apply Nat.ltb_ge; lia).
    reflexivity. }
  assert (Hnn : 0 <= value_at c bits off).
  { apply Z.bits_iff_nonneg_ex. exists (Z.of_nat bits).
    intros m Hm. apply Hhigh. lia. }
  split; [exact Hnn|].
  destruct (Z.eq_dec (value_at c bits off) 0) as [->|Hne];
    [apply Z.pow_pos_nonneg; lia|].
  apply Z.log2_lt_pow2; [lia|].
  destruct (Z_lt_ge_dec (Z.log2 (value_at c bits off)) (Z.of_nat bits))
    as [Hlt|Hge]; [exact Hlt|].
  pose proof (Z.bit_log2 (value_at c bits off) ltac:(lia)) as Hbit.
  rewrite Hhigh in Hbit by lia. discriminate.
Qed.

Lemma dequantize_range (v : Z) (bits : nat) :
  0 <= v < 2 ^ Z.of_nat bits ->
  0 <= dequantize v bits <= DILITHIUM_Q
  /\ (2 ^ Z.of_nat bits < 2 * DILITHIUM_Q -> dequantize v bits < DILITHIUM_Q).
Proof.
  intros Hv. unfold dequantize.
  set (R := 2 ^ Z.of_nat bits) in *.
  assert (HR : 0 < R) by lia.
  pose proof (CompressorFacts.round_div_bounds (v * DILITHIUM_Q) R HR) as Hx.
  unfold DILITHIUM_Q in *. split; [split|]; nia.
Qed.

(** [decompressPolynomial(compressed, bits)], for a width of at most 30
    bits (where [1 << bit] and the products stay exact), accepts every
    array, of any length: it returns 256 coefficients, each the
    dequantization of the [bits] bits read at its offset (bits past the end
    of the array read as 0), each in [[0, q]], and below [q] as soon as
    [2^bits < 2 q] (widths up to 23); on the empty array every coefficient
    is 0. *)
Theorem decompressPolynomial_total (compressed : list Z) (bits : nat) :
  (bits <= 30)%nat ->
  length (decompressPolynomial compressed bits) = 256%nat
  /\ (forall i, (i < 256)%nat ->
        exists x,
          decompressPolynomial compressed bits !! i = Some x
          /\ x = dequantize (value_at compressed bits (i * bits)) bits
          /\ 0 <= x <= DILITHIUM_Q
          /\ ((bits <= 23)%nat -> x < DILITHIUM_Q))
  /\ decompressPolynomial [] bits = replicate 256 0.
Proof.
  intros _. split; [|split].
  - unfold decompressPolynomial.
    destruct (CompressorFacts.unpack_coeffs_spec compressed bits 256 0
                (replicate 256 0) 0) as (_ & Hl & _).
    + rewrite length_replicate. lia.
    + rewrite Hl. apply length_replicate.
  - intros i Hi. eexists. split; [apply CompressorFacts.decompressPolynomial_lookup, Hi|].
    split; [reflexivity|].
    destruct (dequantize_range (value_at compressed bits (i * bits)) bits
                (value_at_range compressed bits (i * bits))) as (Hr & Hlt).
    split; [exact Hr|]. intros Hb. apply Hlt.
    apply Z.le_lt_trans with (2 ^ 23); [|reflexivity].
    apply Z.pow_le_mono_r; lia.
  - apply list_eq. intros i.
    destruct (Nat.lt_ge_cases i 256) as [Hi|Hi].
    + rewrite CompressorFacts.decompressPolynomial_lookup by exact Hi.
      rewrite lookup_replicate_2 by exact Hi. f_equal.
      assert (Hz : value_at [] bits (i * bits) = 0).
      { apply Z.bits_inj'. intros n Hn. rewrite <- (Z2Nat.id n) by lia.
        rewrite CompressorFacts.value_at_bits, Z.testbit_0_l.
        unfold bit_at, byte_at. rewrite lookup_nil.
        change (default 0 (@None Z)) with 0.
        rewrite Z.testbit_0_l. apply andb_false_r. }
      rewrite Hz. unfold dequantize, round_div.
      rewrite Z.mul_0_l, Z.mul_0_r, Z.add_0_l.
      apply Z.div_small.
      assert (0 < 2 ^ Z.of_nat bits) by (apply Z.pow_pos_nonneg; lia). lia.
    + rewrite !lookup_ge_None_2; [reflexivity | rewrite length_replicate; lia|].
      unfold decompressPolynomial.
      destruct (CompressorFacts.unpack_coeffs_spec [] bits 256 0
                  (replicate 256 0) 0) as (_ & Hl & _).
      * rewrite length_replicate. lia.
      * rewrite Hl, length_replicate. lia.
Qed.

(** One byte, read as 4-bit values. *)
Lemma decompressPolynomial_total_witness :
  (4 <= 30)%nat /\ length (decompressPolynomial [181] 4) = 256%nat.
Proof.
  split; [lia|].
  exact (proj1 (decompressPolynomial_total [181] 4 ltac:(lia))).
Defined.

Lemma quantize_dequantize_id (v : Z) (bits : nat) :
  (bits <= 22)%nat -> 0 <= v < 2 ^ Z.of_nat bits ->
  quantize (dequantize v bits) bits = v.
Proof.
  intros Hb Hv. unfold quantize, dequantize.
  set (R := 2 ^ Z.of_nat bits) in *.
  assert (HR : 0 < R) by lia.
  assert (HRq : R < DILITHIUM_Q).
  { apply Z.le_lt_trans with (2 ^ 22); [|reflexivity].
    apply Z.pow_le_mono_r; lia. }
  pose proof (CompressorFacts.round_div_bounds (v * DILITHIUM_Q) R HR) as Hx.
  set (x := round_div (v * DILITHIUM_Q) R) in *.
  pose proof (CompressorFacts.round_div_bounds (x * R) DILITHIUM_Q
                ltac:(reflexivity)) as Hu.
  set (u := round_div (x * R) DILITHIUM_Q) in *.
  assert (Huv : u = v) by (unfold DILITHIUM_Q in *; nia).
  rewrite Huv. rewrite Z.rem_mod_nonneg by lia. apply Z.mod_small. lia.
Qed.

Lemma byte_eq_of_bits (a b : Z) :
  0 <= a < 256 -> 0 <= b < 256 ->
  (forall k, (k < 8)%nat -> Z.testbit a (Z.of_nat k) = Z.testbit b (Z.of_nat k)) ->
  a = b.
Proof.
  intros Ha Hb Hbits. apply Z.bits_inj'. intros n Hn.
  destruct (Z_lt_ge_dec n 8) as [Hlt|Hge].
  - rewrite <- (Z2Nat.id n) by lia. apply Hbits. lia.
  - assert (Hhigh : forall x, 0 <= x < 256 -> Z.testbit x n = false).
    { intros x Hx. destruct (Z.eq_dec x 0) as [->|Hne]; [apply Z.testbit_0_l|].
      apply Z.bits_above_log2; [lia|].
      assert (Z.log2 x < 8) by (apply Z.log2_lt_pow2; lia). lia. }
    rewrite !Hhigh by assumption. reflexivity.
Qed.

(** Unpacking then packing again is the identity on well-formed arrays:
    for a width from 1 to 22 bits and an array of [32 * bits] bytes,
    [compressPolynomial(decompressPolynomial(c, bits), bits) = c]. *)
Theorem compress_decompress_id (c : list Z) (bits : nat) :
  (1 <= bits <= 22)%nat ->
  length c = (32 * bits)%nat ->
  bytes c ->
  compressPolynomial (decompressPolynomial c bits) bits = c.
Proof.
  intros Hbits Hlen Hc.
  set (poly := decompressPolynomial c bits).
  destruct (compressPolynomial_wellformed poly bits) as (Hl & Hb).
  assert (Hbit : forall j, (j < 256 * bits)%nat ->
                   bit_at (compressPolynomial poly bits) j = bit_at c j).
  { intros j Hj.
    pose proof (Nat.div_mod_eq j bits) as Hdm.
    assert (Hr : (j mod bits < bits)%nat) by (apply Nat.mod_upper_bound; lia).
    assert (Hi : (j / bits < 256)%nat)
      by (apply Nat.Div0.div_lt_upper_bound; lia).
    replace j with (j / bits * bits + j mod bits)%nat at 1 2 by lia.
    rewrite CompressorFacts.compressPolynomial_bits by assumption.
    unfold coeff, poly.
    rewrite CompressorFacts.decompressPolynomial_lookup by exact Hi.
    lazymatch goal with
    | |- context [default 0 (Some ?v)] => change (default 0 (Some v)) with v
    end.
    rewrite quantize_dequantize_id by (try lia; apply value_at_range).
    rewrite CompressorFacts.value_at_bits.
    replace (j mod bits <? bits)%nat with true
      by (symmetry; apply Nat.ltb_lt; exact Hr).
    reflexivity. }
  apply list_eq. intros n.
  destruct (Nat.lt_ge_cases n (32 * bits)) as [Hn|Hn].
  - destruct (lookup_lt_is_Some_2 (compressPolynomial poly bits) n ltac:(lia))
      as (a & Ha).
    destruct (lookup_lt_is_Some_2 c n ltac:(lia)) as (b & Hb').
    rewrite Ha, Hb'. f_equal.
    apply byte_eq_of_bits.
    + exact (proj1 (Forall_lookup _ _) Hb n a Ha).
    + exact (proj1 (Forall_lookup _ _) Hc n b Hb').
    + intros k Hk. specialize (Hbit (8 * n + k)%nat ltac:(lia)).
      unfold bit_at, byte_at in Hbit.
      replace ((8 * n + k) / 8)%nat with n in Hbit
        by (apply Nat.div_unique with k; lia).
      replace ((8 * n + k) mod 8)%nat with k in Hbit
        by (apply Nat.mod_unique with n; lia).
      rewrite Ha, Hb' in Hbit. exact Hbit.
  - rewrite !lookup_ge_None_2 by lia. reflexivity.
Qed.

(** Sixty-four zero bytes at two bits per coefficient. *)
Lemma compress_decompress_id_witness :
  (1 <= 2 <= 22)%nat /\ length (replicate 64 0) = (32 * 2)%nat
  /\ bytes (replicate 64 0)
  /\ compressPolynomial (decompressPolynomial (replicate 64 0) 2) 2
     = replicate 64 0.
Proof.
  assert (Hb : bytes (replicate 64 0)) by (apply Forall_replicate; lia).
  split; [lia|]. split; [reflexivity|]. split; [exact Hb|].
  exact (compress_decompress_id (replicate 64 0) 2 ltac:(lia) eq_refl Hb).
Defined.

End CompressorMoreFacts.

(** ** The side-channel and vectorized listings *)

Module SideChannelFacts.

Import Wallet SideChannel.

Lemma and32_zero_l (x : Z) : and32 0 x = 0.
Proof.
  unfold and32. rewrite (WalletFacts.to_int32_small 0) by lia.
  rewrite Z.land_0_l. apply WalletFacts.to_int32_small. lia.
Qed.

Lemma and32_m1_l (x : Z) : and32 (-1) x = to_int32 x.
Proof.
  unfold and32. rewrite (WalletFacts.to_int32_small (-1)) by lia.
  rewrite Z.land_m1_l. apply WalletFacts.to_int32_small, WalletFacts.to_int32_range.
Qed.

(** [constantTimeReduce(a)] leaves [a < q] unchanged, and for [a >= q] adds
    the 32-bit value of [q - a] to [a]: every [a] from [q] up to
    [q + 2^31 - 1] is mapped to [q] itself, not to [a - q], so the result
    is a residue in [[0, q)] only when the argument already was one. *)
Theorem constantTimeReduce_returns_q (a : Z) :
  let q := Compressor.DILITHIUM_Q in
  (a < q -> constantTimeReduce a = a)
  /\ (q <= a -> constantTimeReduce a = a + to_int32 (q - a))
  /\ (q <= a < q + 2 ^ 31 -> constantTimeReduce a = q)
  /\ (0 <= a < q + 2 ^ 31 ->
      (0 <= constantTimeReduce a < q <-> 0 <= a < q)).
Proof.
  intros q.
  assert (Hlow : a < q -> constantTimeReduce a = a).
  { intros Ha. unfold constantTimeReduce. fold q.
    destruct (Z.geb_spec a q); [lia|].
    change (- 0) with 0. rewrite and32_zero_l. lia. }
  assert (Hhigh : q <= a -> constantTimeReduce a = a + to_int32 (q - a)).
  { intros Ha. unfold constantTimeReduce. fold q.
    destruct (Z.geb_spec a q); [|lia].
    change (- 1) with (-1). rewrite and32_m1_l. reflexivity. }
  assert (Hq : q <= a < q + 2 ^ 31 -> constantTimeReduce a = q).
  { intros Ha. rewrite Hhigh by lia.
    rewrite WalletFacts.to_int32_small by lia. lia. }
  split; [exact Hlow|]. split; [exact Hhigh|]. split; [exact Hq|].
  intros Ha. destruct (Z_lt_ge_dec a q) as [Hlt|Hge].
  - rewrite Hlow by exact Hlt. lia.
  - rewrite Hq by lia. lia.
Qed.

(** Twice the modulus minus one. *)
Lemma constantTimeReduce_returns_q_witness :
  Compressor.DILITHIUM_Q <= 16760833 < Compressor.DILITHIUM_Q + 2 ^ 31
  /\ constantTimeReduce 16760833 = Compressor.DILITHIUM_Q.
Proof.
  assert (H : Compressor.DILITHIUM_Q <= 16760833 < Compressor.DILITHIUM_Q + 2 ^ 31)
    by (unfold Compressor.DILITHIUM_Q; lia).
  split; [exact H|].
  exact (proj1 (proj2 (proj2 (constantTimeReduce_returns_q 16760833))) H).
Defined.

Section Sampling.

Variable shake256Sample : list Z -> Z -> Z.

Lemma sample_loop_spec (seed : list Z) (eta : Z) (remaining : nat) :
  forall attempts,
  let r := sample_loop shake256Sample remaining seed eta attempts in
  (exists i, 0 <= i < Z.of_nat remaining
             /\ shake256Sample seed (attempts + i) < eta * 2
             /\ r = shake256Sample seed (attempts + i) - eta
             /\ forall j, 0 <= j < i ->
                  eta * 2 <= shake256Sample seed (attempts + j))
  \/ (r = 0
      /\ forall j, 0 <= j < Z.of_nat remaining ->
           eta * 2 <= shake256Sample seed (attempts + j)).
Proof.
  induction remaining as [|remaining IH]; intros attempts r.
  - right. split; [reflexivity | intros j Hj; lia].
  - subst r. cbn [sample_loop]. cbv zeta.
    destruct (Z.ltb_spec (shake256Sample seed attempts) (eta * 2)) as [Hacc|Hrej].
    + left. exists 0. rewrite Z.add_0_r. change (negb (1 =? 0)) with true. cbv iota.
      split; [lia|]. split; [exact Hacc|]. split; [lia | intros j Hj; lia].
    + change (negb (0 =? 0)) with false. cbv iota.
      destruct (IH (attempts + 1)) as [(i & Hi & Hacc & Hr & Hprev) | (Hr & Hall)].
      * left. exists (i + 1).
        replace (attempts + (i + 1)) with (attempts + 1 + i) by lia.
        split; [lia|]. split; [exact Hacc|]. split; [exact Hr|].
        intros j Hj. destruct (Z.eq_dec j 0) as [->|Hne].
        -- rewrite Z.add_0_r. exact Hrej.
        -- replace (attempts + j) with (attempts + 1 + (j - 1)) by lia.
           apply Hprev. lia.
      * right. split; [exact Hr|].
        intros j Hj. destruct (Z.eq_dec j 0) as [->|Hne].
        -- rewrite Z.add_0_r. exact Hrej.
        -- replace (attempts + j) with (attempts + 1 + (j - 1)) by lia.
           apply Hall. lia.
Qed.

(** [constantTimeSample(seed, eta)] makes at most 16 attempts and returns
    [candidate - eta] for the first candidate below [2 * eta], or 0 when
    all 16 are rejected.  With non-negative candidates and [eta > 0] the
    result lies in [[-eta, eta - 1]]: the value [eta] is never produced. *)
Theorem constantTimeSample_range (seed : list Z) (eta : Z) :
  0 < eta ->
  (forall i, 0 <= shake256Sample seed i) ->
  let r := constantTimeSample shake256Sample seed eta in
  - eta <= r <= eta - 1
  /\ ((exists i, 0 <= i < 16
                 /\ shake256Sample seed i < eta * 2
                 /\ r = shake256Sample seed i - eta
                 /\ forall j, 0 <= j < i -> eta * 2 <= shake256Sample seed j)
      \/ (r = 0 /\ forall j, 0 <= j < 16 -> eta * 2 <= shake256Sample seed j)).
Proof.
  intros Heta Hnn r. subst r. unfold constantTimeSample.
  destruct (sample_loop_spec seed eta maxAttempts 0)
    as [(i & Hi & Hacc & Hr & Hprev) | (Hr & Hall)].
  - rewrite Z.add_0_l in Hacc, Hr. pose proof (Hnn i).
    split; [lia|]. left. exists i.
    split; [exact Hi|]. split; [exact Hacc|]. split; [exact Hr|].
    intros j Hj. specialize (Hprev j Hj). rewrite Z.add_0_l in Hprev. exact Hprev.
  - split; [lia|]. right. split; [exact Hr|].
    intros j Hj. specialize (Hall j Hj). rewrite Z.add_0_l in Hall. exact Hall.
Qed.

End Sampling.

(** Candidates 9, 6, 3 with [eta = 2]: the third is accepted. *)
Lemma constantTimeSample_range_witness :
  let sample := fun (_ : list Z) (i : Z) => 9 - 3 * i + (if i <? 3 then 0 else 3 * i) in
  0 < 2 /\ (forall i, 0 <= sample [] i)
  /\ - 2 <= constantTimeSample sample [] 2 <= 2 - 1.
Proof.
  intros sample.
  assert (Hnn : forall i, 0 <= sample [] i).
  { intros i. unfold sample. destruct (Z.ltb_spec i 3); lia. }
  split; [lia|]. split; [exact Hnn|].
  exact (proj1 (constantTimeSample_range sample [] 2 ltac:(lia) Hnn)).
Defined.

Section Vectorized.

Variable modAdd : option Z -> option Z -> Z.

(** [vectorizedPolyAdd(a, b)] fills each of the 256 slots exactly as the
    plain loop would: slot [i] holds [modAdd(a[i], b[i])], whatever the
    lengths of [a] and [b]. *)
Theorem vectorizedPolyAdd_pointwise (a b : list Z) :
  vectorizedPolyAdd modAdd a b
  = map (fun i => Some (modAdd (a !! i) (b !! i))) (seq 0 256).
Proof.
  vm_compute. reflexivity.
Qed.

End Vectorized.

End SideChannelFacts.

(** ** The frequency table *)

Module EntropyFacts.

Import Entropy.

Lemma frequency_table_snoc (data : list Z) (byte : Z) :
  frequency_table (data ++ [byte]) = count_byte (frequency_table data) byte.
Proof. unfold frequency_table. rewrite fold_left_app. reflexivity. Qed.

Lemma count_occ_snoc (data : list Z) (x b : Z) :
  count_occ Z.eq_dec (data ++ [x]) b
  = (count_occ Z.eq_dec data b + (if Z.eq_dec x b then 1 else 0))%nat.
Proof. rewrite count_occ_app. cbn [count_occ]. destruct (Z.eq_dec x b); reflexivity. Qed.

(** The first loop of [entropyCompress] counts: afterwards a byte is a key
    of [frequencies] exactly when it occurs in [data], and its entry is the
    number of its occurrences, which is at least 1; the [|| 0] fallback is
    only ever taken for a byte not seen before. *)
Theorem frequency_table_counts (data : list Z) (b : Z) :
  frequency_table data !! b
  = (if decide (b ∈ data)
     then Some (Z.of_nat (count_occ Z.eq_dec data b))
     else None)
  /\ (b ∈ data -> 1 <= Z.of_nat (count_occ Z.eq_dec data b)).
Proof.
  assert (Hpos : b ∈ data -> 1 <= Z.of_nat (count_occ Z.eq_dec data b)).
  { intros Hin. apply list_elem_of_In in Hin.
    apply (count_occ_In Z.eq_dec) in Hin. lia. }
  split; [|exact Hpos]. clear Hpos.
  induction data as [|x data IH] using rev_ind.
  - destruct (decide (b ∈ [])) as [Hin|_]; [inversion Hin|].
    unfold frequency_table. cbn [fold_left]. apply lookup_empty.
  - rewrite frequency_table_snoc, count_occ_snoc. unfold count_byte.
    destruct (Z.eq_dec x b) as [->|Hne].
    + rewrite lookup_insert_eq.
      destruct (decide (b ∈ data ++ [b])) as [_|Hnot];
        [|exfalso; apply Hnot, elem_of_app; right; apply list_elem_of_singleton;
          reflexivity].
      f_equal. rewrite IH.
      destruct (decide (b ∈ data)) as [Hin|Hnin].
      * apply list_elem_of_In in Hin.
        apply (count_occ_In Z.eq_dec) in Hin.
        unfold Sim.or_else_Z.
        destruct (Z.eqb_spec (Z.of_nat (count_occ Z.eq_dec data b)) 0); lia.
      * assert (H0 : count_occ Z.eq_dec data b = 0%nat).
        { apply count_occ_not_In. intros Hin. apply Hnin.
          apply list_elem_of_In. exact Hin. }
        rewrite H0. reflexivity.
    + rewrite lookup_insert_ne by exact Hne. rewrite IH, Nat.add_0_r.
      destruct (decide (b ∈ data)) as [Hin|Hnin];
        destruct (decide (b ∈ data ++ [x])) as [Hin'|Hnin'];
        try reflexivity; exfalso.
      * apply Hnin', elem_of_app. left. exact Hin.
      * apply elem_of_app in Hin'. destruct Hin' as [Hin'|Hin']; [tauto|].
        apply list_elem_of_singleton in Hin'. congruence.
Qed.

End EntropyFacts.

(** ** The threat assessor, further *)

Module ThreatAssessorMoreFacts.

Import ThreatAssessor.

Lemma floor_third_nonneg (g : Q) : (0 <= g)%Q -> 0 <= floor_third g.
Proof.
  intros Hg. change 0 with (floor_third 0).
  apply ThreatAssessorFacts.floor_third_mono. exact Hg.
Qed.

Lemma floor_third_negative (g : Q) : (g < 0)%Q -> floor_third g < 0.
Proof.
  intros Hg. unfold floor_third.
  assert (Hdiv : (g / 3 < 0)%Q).
  { unfold Qdiv. apply Qlt_le_trans with (0 * / 3)%Q.
    - apply Qmult_lt_compat_r; [reflexivity | exact Hg].
    - discriminate. }
  pose proof (Qfloor_le (g / 3)) as Hfl.
  assert (Hlt : (inject_Z (Qfloor (g / 3)) < inject_Z 0)%Q)
    by (eapply Qle_lt_trans; [exact Hfl | exact Hdiv]).
  rewrite <- Zlt_Qlt in Hlt. exact Hlt.
Qed.

(** A suspected quantum threat adds 4 to the score, but the geopolitical
    term [Math.floor(geopoliticalRisk / 3)] is not clamped to its 0-10
    scale: with a non-negative risk the result is at least 'high', while
    with a risk of -1 or less a low-value transaction of a low-risk user on
    a normal network stays at 'standard' or below despite the suspicion. *)
Theorem suspected_threat_floor (c : ThreatContext) :
  quantumThreatLevel c = suspected ->
  ((0 <= geopoliticalRisk c)%Q -> level_le high (assessSecurityRequirement c))
  /\ ((geopoliticalRisk c <= -1)%Q ->
      gt_num (transactionValue c) 10000 = false ->
      userRiskProfile c = low ->
      networkConditions c = normal ->
      level_le (assessSecurityRequirement c) standard).
Proof.
  intros Hq. rewrite ThreatAssessorFacts.listing_is_scoring_rule.
  unfold assess_spec, risk_score, level_le. rewrite Hq. cbn [quantum_points].
  assert (Hv : 0 <= value_points (transactionValue c)).
  { unfold value_points.
    destruct (gt_num (transactionValue c) 1000000),
             (gt_num (transactionValue c) 100000),
             (gt_num (transactionValue c) 10000); lia. }
  assert (Hp : 0 <= profile_points (userRiskProfile c))
    by (destruct (userRiskProfile c); cbn; lia).
  assert (Hn : 0 <= network_points (networkConditions c))
    by (destruct (networkConditions c); cbn; lia).
  split.
  - intros Hg. pose proof (floor_third_nonneg _ Hg) as Hf.
    unfold level_of_score.
    repeat match goal with
           | |- context [?a <=? ?b] => destruct (Z.leb_spec a b)
           end; cbn [level_rank]; lia.
  - intros Hg Hval Hprof Hnet.
    assert (Hneg : (geopoliticalRisk c < 0)%Q)
      by (apply Qle_lt_trans with (-1)%Q; [exact Hg | reflexivity]).
    pose proof (floor_third_negative _ Hneg) as Hf.
    pose proof (ThreatAssessorFacts.gt_num_threshold (transactionValue c) 10000 100000
                  ltac:(discriminate)) as H1.
    pose proof (ThreatAssessorFacts.gt_num_threshold (transactionValue c) 10000 1000000
                  ltac:(discriminate)) as H2.
    assert (Hv0 : value_points (transactionValue c) = 0).
    { unfold value_points. rewrite Hval.
      destruct (gt_num (transactionValue c) 1000000);
        [specialize (H2 eq_refl); congruence|].
      destruct (gt_num (transactionValue c) 100000);
        [specialize (H1 eq_refl); congruence|].
      reflexivity. }
    rewrite Hv0, Hprof, Hnet. cbn [profile_points network_points].
    unfold level_of_score.
    repeat match goal with
           | |- context [?a <=? ?b] => destruct (Z.leb_spec a b)
           end; cbn [level_rank]; lia.
Qed.

(** A suspected threat with geopolitical risk 5, and one with -6. *)
Lemma suspected_threat_floor_witness :
  let c := {| transactionValue := 500; userRiskProfile := low;
              networkConditions := normal; quantumThreatLevel := suspected;
              geopoliticalRisk := 5 |} in
  let c' := {| transactionValue := 500; userRiskProfile := low;
               networkConditions := normal; quantumThreatLevel := suspected;
               geopoliticalRisk := -6 |} in
  quantumThreatLevel c = suspected /\ (0 <= geopoliticalRisk c)%Q
  /\ level_le high (assessSecurityRequirement c)
  /\ quantumThreatLevel c' = suspected /\ (geopoliticalRisk c' <= -1)%Q
  /\ level_le (assessSecurityRequirement c') standard.
Proof.
  intros c c'. split; [reflexivity|]. split; [discriminate|].
  split; [exact (proj1 (suspected_threat_floor c eq_refl) ltac:(discriminate))|].
  split; [reflexivity|]. split; [discriminate|].
  exact (proj2 (suspected_threat_floor c' eq_refl) ltac:(discriminate)
           eq_refl eq_refl eq_refl).
Defined.

End ThreatAssessorMoreFacts.
